(** * gunbot-quant: the simulation and indicator engine

    A shallow embedding of the back-testing core of gunbot-quant
    (indicator kernels, the three simulation loops, the statistics
    calculator, the grid strategy and the stop helpers of the strategy
    library, the parameter scorer and optimizer, and the report
    aggregator), followed by the properties established about it.

    Numbers.  The program computes with binary64 floats.  They are
    embedded as _idealised_ floats: exact rationals extended with the
    three special values the code tests for or produces ([nan], [+inf],
    [-inf]).  Arithmetic on finite values is exact (no rounding, no
    overflow, no signed zero); the special values follow the IEEE rules
    numpy applies.  Every [np.isnan], every comparison against a
    not-a-number and every [np.inf] of the source keeps its meaning.
    Where a statement turns on rounding or overflow, the lines concerned
    are embedded a second time over binary64 itself (the [binary64]
    modules of [indicators], [backtest_engine] and [strategy_library]),
    and the statements say which of their parts hold in exact arithmetic
    only. *)

From Stdlib Require Import QArith Qcanon Qround Qabs Lqa Lia Ascii String.
From Stdlib Require Floats.
From stdpp Require Import base numbers list gmap strings sorting pretty.

Set Default Proof Using "Type".

(* ================================================================== *)
(** * Part I: the model                                                 *)
(* ================================================================== *)

(** ** Idealised floats *)
Module Num.

Inductive num : Type :=
| Fin (q : Qc)
| PInf
| NInf
| NaN.

#[global] Instance num_eq_dec : EqDecision num.
Proof. solve_decision. Defined.

#[global] Instance num_inhabited : Inhabited num := populate NaN.

#[global] Instance num_countable : Countable num.
Proof.
  refine (inj_countable'
    (fun x => match x with
              | Fin q => inl q | PInf => inr 0%nat
              | NInf => inr 1%nat | NaN => inr 2%nat end)
    (fun s => match s with
              | inl q => Fin q | inr 0%nat => PInf
              | inr 1%nat => NInf | inr _ => NaN end) _).
  intros []; reflexivity.
Defined.

(** Literals: an integer, and a fraction [n/d]. *)
Definition ofZ (z : Z) : num := Fin (Q2Qc (inject_Z z)).
Definition ofQ (n : Z) (d : positive) : num := Fin (Q2Qc (n # d)).
Definition ofnat (n : nat) : num := ofZ (Z.of_nat n).

Definition isnan (x : num) : bool :=
  match x with NaN => true | _ => false end.

Definition is_fin (x : num) : bool :=
  match x with Fin _ => true | _ => false end.

(** Sign of a rational, as a comparison with zero. *)
Definition qsign (q : Qc) : comparison := (q ?= 0)%Qc.

Definition fneg (x : num) : num :=
  match x with
  | Fin q => Fin (- q)
  | PInf => NInf
  | NInf => PInf
  | NaN => NaN
  end.

Definition fadd (x y : num) : num :=
  match x, y with
  | NaN, _ | _, NaN => NaN
  | Fin a, Fin b => Fin (a + b)
  | PInf, NInf | NInf, PInf => NaN
  | PInf, _ | _, PInf => PInf
  | NInf, _ | _, NInf => NInf
  end.

Definition fsub (x y : num) : num := fadd x (fneg y).

Definition inf_of_sign (c : comparison) : num :=
  match c with Eq => NaN | Gt => PInf | Lt => NInf end.

Definition fmul (x y : num) : num :=
  match x, y with
  | NaN, _ | _, NaN => NaN
  | Fin a, Fin b => Fin (a * b)
  | Fin a, PInf | PInf, Fin a => inf_of_sign (qsign a)
  | Fin a, NInf | NInf, Fin a => inf_of_sign (CompOpp (qsign a))
  | PInf, PInf | NInf, NInf => PInf
  | PInf, NInf | NInf, PInf => NInf
  end.

(** Division as numpy performs it: a zero divisor gives an infinity (or
    not-a-number for 0/0) instead of an exception.  The places where the
    source divides with Python's or numba's raising division check the
    divisor first (see [checked_div]). *)
Definition fdiv (x y : num) : num :=
  match x, y with
  | NaN, _ | _, NaN => NaN
  | Fin a, Fin b =>
      if decide (b = 0%Qc) then inf_of_sign (qsign a) else Fin (a / b)
  | Fin _, (PInf | NInf) => Fin 0
  | (PInf | NInf), (PInf | NInf) => NaN
  | PInf, Fin b => if bool_decide (b < 0)%Qc then NInf else PInf
  | NInf, Fin b => if bool_decide (b < 0)%Qc then PInf else NInf
  end.

Definition fabs (x : num) : num :=
  match x with
  | Fin q => if bool_decide (q < 0)%Qc then Fin (- q) else Fin q
  | PInf | NInf => PInf
  | NaN => NaN
  end.

(** Comparisons; each is false as soon as one side is not-a-number. *)
Definition fltb (x y : num) : bool :=
  match x, y with
  | NaN, _ | _, NaN => false
  | Fin a, Fin b => bool_decide (a < b)%Qc
  | Fin _, PInf | NInf, Fin _ | NInf, PInf => true
  | Fin _, NInf | PInf, _ | NInf, NInf => false
  end.

Definition feqb (x y : num) : bool :=
  match x, y with
  | NaN, _ | _, NaN => false
  | _, _ => bool_decide (x = y)
  end.

Definition fleb (x y : num) : bool := fltb x y || feqb x y.
Definition fgtb (x y : num) : bool := fltb y x.
Definition fgeb (x y : num) : bool := fleb y x.
Definition fneb (x y : num) : bool := negb (feqb x y).

(** The order as a relation, for sorting. *)
Definition num_le (x y : num) : Prop := fleb x y = true.

#[global] Instance num_le_dec : RelDecision num_le.
Proof. intros x y. unfold num_le. apply _. Defined.

(** Python's truth value of a float: everything but zero. *)
Definition truthy (x : num) : bool := fneb x (ofZ 0).

(** [np.sum] of an array and the pandas [Series.sum], which skips
    not-a-number entries. *)
Definition np_sum (l : list num) : num := foldl fadd (ofZ 0) l.
Definition pd_sum (l : list num) : num :=
  np_sum (filter (fun x => isnan x = false) l).

(** Rounding to the nearest integer, ties to even. *)
Definition round_half_even (q : Q) : Z :=
  let f := Qfloor q in
  match ((q - inject_Z f) ?= (1 # 2))%Q with
  | Lt => f
  | Gt => (f + 1)%Z
  | Eq => if Z.even f then f else (f + 1)%Z
  end.

(** [np.rint]: the nearest integer as a float; an infinity or
    not-a-number is handed back. *)
Definition rint (x : num) : num :=
  match x with
  | Fin q => ofZ (round_half_even (this q))
  | _ => x
  end.

(** [round(x, 2)] as numpy performs it on its floats: the value is scaled
    by 100, rounded to the nearest integer and scaled back.  With the
    exact product of this model that is the nearest hundredth, ties to
    even, which is also what Python's own [round] returns; on binary64
    the product is itself rounded before [rint] sees it, so that a float
    next to a tie (0.015, stored just below it) can go either way. *)
Definition round2 (x : num) : num :=
  fdiv (rint (fmul x (ofZ 100))) (ofZ 100).

End Num.
Export Num.

(** ** Exceptions *)

(** The exceptions the modelled code can raise.  [OutOfBounds] stands
    for an index outside an array in numba-compiled code, which checks no
    bounds: the source has no defined result there. *)
Inductive exn : Type :=
| ZeroDivisionError
| IndexError
| KeyError
| TypeError
| ValueError
| OutOfBounds.

Inductive result (A : Type) : Type :=
| Ok (a : A)
| Raise (e : exn).
Arguments Ok {A} a.
Arguments Raise {A} e.

#[global] Instance exn_eq_dec : EqDecision exn.
Proof. solve_decision. Defined.

#[global] Instance result_eq_dec {A} `{EqDecision A} : EqDecision (result A).
Proof. solve_decision. Defined.

#[global] Instance result_ret : MRet result := fun _ a => Ok a.
#[global] Instance result_bind : MBind result := fun _ _ f r =>
  match r with Ok a => f a | Raise e => Raise e end.

#[global] Instance result_fmap : FMap result := fun _ _ f r =>
  match r with Ok a => Ok (f a) | Raise e => Raise e end.

Definition of_option {A} (e : exn) (o : option A) : result A :=
  match o with Some a => Ok a | None => Raise e end.

(** Python's and numba's [x / y] on floats: a zero divisor raises. *)
Definition checked_div (x y : num) : result num :=
  if feqb y (ofZ 0) then Raise ZeroDivisionError else Ok (fdiv x y).

(** Indexing as Python and numpy do it: a negative index counts from the
    end; outside [-len, len) there is no element. *)
Definition py_index {A} (l : list A) (i : Z) : option A :=
  if bool_decide (0 <= i)%Z then l !! Z.to_nat i
  else if bool_decide (- Z.of_nat (length l) <= i)%Z
       then l !! Z.to_nat (Z.of_nat (length l) + i)
       else None.

(** The key [f'atr_{atr_len}'] and the like. *)
Definition indicator_key (name : string) (period : Z) : string :=
  name +:+ "_" +:+ pretty period.

(** Element access: [np_get] is numpy's (checked), [nb_get] is the one
    of numba-compiled code (unchecked). *)
Definition np_get (arr : list num) (i : Z) : result num :=
  of_option IndexError (py_index arr i).
Definition nb_get (arr : list num) (i : Z) : result num :=
  of_option OutOfBounds (py_index arr i).

(** A loop whose body may raise. *)
Fixpoint loopM {S I : Type} (f : S -> I -> result S) (s : S) (l : list I)
    : result S :=
  match l with
  | [] => Ok s
  | i :: l' => s' ← f s i; loopM f s' l'
  end.

(** ** core/indicators.py *)
Module indicators.

(** [np.empty(n)]: [n] cells of whatever the allocator left there. *)
Definition np_empty (junk : nat -> num) (n : nat) : list num :=
  junk <$> seq 0 n.

(** [out[:k] = np.nan] for [0 <= k]. *)
Definition fill_nan (k : nat) (out : list num) : list num :=
  replicate (k `min` length out) NaN ++ drop k out.

(** One turn of the running-sum loop of [_sma_numba]. *)
Definition sma_step (arr : list num) (w : nat)
    (st : num * list num) (i : nat) : num * list num :=
  let current_sum := fadd st.1 (fsub (arr !!! i) (arr !!! (i - w))) in
  (current_sum, <[i := fdiv current_sum (ofnat w)]> st.2).

(** [_sma_numba(arr, w)].  With [w = 0] the first division raises; with
    more window than data the write to [out[w-1]] leaves the array. *)
Definition _sma_numba (junk : nat -> num) (arr : list num) (w : nat)
    : result (list num) :=
  let n := length arr in
  match w with
  | O => Raise ZeroDivisionError
  | S w1 =>
      let out := fill_nan w1 (np_empty junk n) in
      let current_sum := np_sum (take w arr) in
      if bool_decide (n < w) then Raise OutOfBounds
      else
        let out := <[w1 := fdiv current_sum (ofnat w)]> out in
        Ok (foldl (sma_step arr w) (current_sum, out) (seq w (n - w))).2
  end.

(** One turn of the smoothing loop of [_ema_numba].  The read of
    [out[i-1]] wraps to the last cell at [i = 0]. *)
Definition ema_step (arr : list num) (multiplier : num)
    (out : list num) (i : nat) : list num :=
  let prev :=
    out !!! (if decide (i = 0%nat) then (length out - 1)%nat
             else (i - 1)%nat) in
  <[i := fadd (fmul (fsub (arr !!! i) prev) multiplier) prev]> out.

(** [np.mean]: the sum over the size.  Compiled code raises nothing on
    an empty array: the mean is 0/0, not-a-number. *)
Definition np_mean (l : list num) : num := fdiv (np_sum l) (ofnat (length l)).

(** [_ema_numba(arr, w)].  With more window than data the write to
    [out[w-1]] leaves the array.  With [w = 0] nothing divides by zero:
    [out[:-1]] is filled, [out[-1]] receives the mean of the empty slice
    and the loop starts at index 0. *)
Definition _ema_numba (junk : nat -> num) (arr : list num) (w : nat)
    : result (list num) :=
  let n := length arr in
  let multiplier := fdiv (ofZ 2) (fadd (ofnat w) (ofZ 1)) in
  match w with
  | O =>
      if bool_decide (n = 0)%nat then Raise OutOfBounds
      else
        let out := fill_nan (n - 1) (np_empty junk n) in
        let out := <[(n - 1)%nat := np_mean (take w arr)]> out in
        Ok (foldl (ema_step arr multiplier) out (seq w (n - w)))
  | S w1 =>
      let out := fill_nan w1 (np_empty junk n) in
      if bool_decide (n < w) then Raise OutOfBounds
      else
        let out := <[w1 := np_mean (take w arr)]> out in
        Ok (foldl (ema_step arr multiplier) out (seq w (n - w)))
  end.

(** [np.max] and [np.min] of an array in compiled code: the first
    not-a-number entry met is the result; an empty array has no extreme
    ([ValueError]). *)
Definition max_step (m v : num) : num :=
  if isnan m then m else if isnan v then v else if fgtb v m then v else m.
Definition min_step (m v : num) : num :=
  if isnan m then m else if isnan v then v else if fltb v m then v else m.

Definition np_max (l : list num) : result num :=
  match l with
  | [] => Raise ValueError
  | x :: l' => Ok (foldl max_step x l')
  end.
Definition np_min (l : list num) : result num :=
  match l with
  | [] => Raise ValueError
  | x :: l' => Ok (foldl min_step x l')
  end.

(** The slice [arr[i-w+1:i+1]] for [w - 1 <= i]. *)
Definition window (arr : list num) (w i : nat) : list num :=
  take w (drop (i + 1 - w) arr).

(** One turn of the loop of [_rolling_max_numba] and [_rolling_min_numba]. *)
Definition rolling_step (reduce : list num -> result num) (arr : list num)
    (w : nat) (out : list num) (i : nat) : result (list num) :=
  v ← reduce (window arr w i);
  Ok (<[i := v]> out).

(** [_rolling_max_numba(arr, w)] and [_rolling_min_numba(arr, w)].  With
    [w = 0] the loop starts at [i = -1] on the empty slice [arr[0:0]]. *)
Definition _rolling_max_numba (junk : nat -> num) (arr : list num) (w : nat)
    : result (list num) :=
  let n := length arr in
  match w with
  | O => Raise ValueError
  | S w1 =>
      let out := fill_nan w1 (np_empty junk n) in
      loopM (rolling_step np_max arr w) out (seq w1 (n - w1))
  end.

Definition _rolling_min_numba (junk : nat -> num) (arr : list num) (w : nat)
    : result (list num) :=
  let n := length arr in
  match w with
  | O => Raise ValueError
  | S w1 =>
      let out := fill_nan w1 (np_empty junk n) in
      loopM (rolling_step np_min arr w) out (seq w1 (n - w1))
  end.

(** The locals of the main loop of [_rolling_slope_numba]. *)
Record slope_state : Type := SlopeState {
  sum_y : num;
  sum_xy : num;
  slope_out : list num
}.

(** One turn of that loop.  [denom] is not zero here, and neither is
    [w]. *)
Definition slope_step (arr : list num) (w : nat) (denom : num)
    (st : slope_state) (i : nat) : slope_state :=
  let '(sum_y, sum_xy) :=
    if bool_decide (w <= i) then
      let old_y := arr !!! (i - w) in
      let new_y := arr !!! i in
      let sum_xy := fsub (sum_xy st) (fsub (sum_y st) old_y) in
      let sum_xy := fadd sum_xy (fmul new_y (ofnat (w - 1))) in
      let sum_y := fadd (sum_y st) (fsub new_y old_y) in
      (sum_y, sum_xy)
    else (sum_y st, sum_xy st) in
  let mean_y := fdiv sum_y (ofnat w) in
  let numer :=
    fsub sum_xy (fmul mean_y (fdiv (ofnat (w * (w - 1))) (ofZ 2))) in
  SlopeState sum_y sum_xy (<[i := fdiv numer denom]> (slope_out st)).

(** [_rolling_slope_numba(arr, w)].  The integer [w * (w**2 - 1)] is
    taken exactly (windows are far below the range where 64-bit integers
    wrap).  A window of 0 or 1 makes [denom] zero and the buffer is
    returned as it is; more window than data makes the first loop read
    past the end of [arr]. *)
Definition _rolling_slope_numba (junk : nat -> num) (arr : list num) (w : nat)
    : result (list num) :=
  let n := length arr in
  let out :=
    match w with
    | O => fill_nan (n - 1) (np_empty junk n)
    | S w1 => fill_nan w1 (np_empty junk n)
    end in
  let denom :=
    fdiv (ofZ (Z.of_nat w * (Z.of_nat w ^ 2 - 1))) (ofZ 12) in
  if feqb denom (ofZ 0) then Ok out
  else
    let sum_y := np_sum (take w arr) in
    sum_xy ← loopM (fun s k => a ← nb_get arr (Z.of_nat k);
                               Ok (fadd s (fmul a (ofnat k))))
                   (ofZ 0) (seq 0 w);
    Ok (slope_out
          (foldl (slope_step arr w denom) (SlopeState sum_y sum_xy out)
             (seq (w - 1) (n - (w - 1))))).













(** The ['slope'] branch of [IndicatorFactory.get_indicators] for one
    period [p]: the slope is taken of the SMA of the close, which is
    computed first when the dict does not hold it yet. *)
Definition slope_branch (junk_sma junk_slope : nat -> num)
    (close : list num) (inds : gmap string (list num)) (p : nat)
    : result (gmap string (list num)) :=
  let sma_key := indicator_key "sma" (Z.of_nat p) in
  inds ← match inds !! sma_key with
         | Some _ => Ok inds
         | None => sma ← _sma_numba junk_sma close p;
                   Ok (<[sma_key := sma]> inds)
         end;
  sma ← of_option KeyError (inds !! sma_key);
  slope ← _rolling_slope_numba junk_slope sma p;
  Ok (<[indicator_key "slope" (Z.of_nat p) := slope]> inds).


(** The ['macd'] branch for one parameter set: the MACD line is the fast
    EMA of the close less the slow one, the signal line the EMA of the
    MACD line. *)
Definition macd_branch (junk_fast junk_slow junk_signal : nat -> num)
    (close : list num) (inds : gmap string (list num))
    (fast_period slow_period signal_period : nat)
    : result (gmap string (list num)) :=
  let key :=
    indicator_key
      (indicator_key (indicator_key "macd" (Z.of_nat fast_period))
         (Z.of_nat slow_period))
      (Z.of_nat signal_period) in
  ema_fast ← _ema_numba junk_fast close fast_period;
  ema_slow ← _ema_numba junk_slow close slow_period;
  let macd_line := zip_with fsub ema_fast ema_slow in
  signal_line ← _ema_numba junk_signal macd_line signal_period;
  Ok (<[key +:+ "_signal" := signal_line]>
      (<[key +:+ "_macd" := macd_line]> inds)).

(** The first defined entry of [_sma_numba] for a window of two,
    computed in binary64 as the kernel does: the sum of the two inputs
    over the window, each operation rounded to the nearest float. *)
Module binary64.
Import PrimFloat.

Definition sma_first (a b : float) : float := ((a + b) / 2)%float.

End binary64.

End indicators.

(** ** Tables, series and printed messages *)

(** One row of the OHLCV table; [ts] is a UTC timestamp in seconds. *)
Record candle : Type := Candle {
  ts : Z;
  open : num;
  high : num;
  low : num;
  close : num;
  volume : num
}.

(** A pandas [Series] indexed by timestamps, in index order. *)
Abbreviation series := (list (Z * num)).

(** [Timestamp.date()], as a day number. *)
Definition date_of (t : Z) : Z := (t / 86400)%Z.

(** What the engine prints. *)
Inductive message : Type :=
| NotEnoughData (required_index : Z) (data_length : nat)
| StartingAt (index : Z) (date : Z).

#[global] Instance candle_inhabited : Inhabited candle :=
  populate (Candle 0 NaN NaN NaN NaN NaN).

(** [Series.searchsorted(x, side='left')] on an ascending index: the
    position of the first entry that is not below [x]. *)
Fixpoint searchsorted_left (l : list Z) (x : Z) : nat :=
  match l with
  | [] => 0
  | t :: l' => if bool_decide (t < x)%Z then S (searchsorted_left l' x) else 0
  end.

(** A parameter tuple of the optimizer: (fast MA, slow MA, volatility
    window, stop multiplier). *)
Definition params : Type := Z * Z * Z * num.

(** The configuration dict, one field per key the core reads.  A start
    date is the timestamp of its midnight; an absent warm-up period
    falls back to 200. *)
Record config : Type := Config {
  INITIAL_CAPITAL : num;
  BACKTEST_START_DATE : Z;
  TECHNICAL_WARMUP_PERIOD : option Z;
  REOPTIMIZE_EVERY : Z;
  OPTIMIZATION_LOOKBACK : Z;
  TRAIL_TRIGGER_MULT : num;
  CONFIDENCE_THRESHOLD : num;
  TOP_PARAM_MEMORY : nat;
  EXPLORATION_RATE : option num;
  FAST_MA_PERIODS : list Z;
  SLOW_MA_PERIODS : list Z;
  ATR_PERIODS : list Z;
  ATR_MULTIPLIERS : list num
}.

(** Python's truth value of [str | None]. *)
Definition str_truthy (o : option string) : bool :=
  match o with
  | Some s => negb (bool_decide (s = ""))
  | None => false
  end.

(** ** strategies/base_strategy.py *)
Module base_strategy.

(** The position dict of the generic simulator. *)
Record position : Type := Position {
  in_pos : bool;
  entry_price : num;
  stop_price : num;
  qty : num;
  value : num;
  entry_time : option Z
}.

(** [BaseStrategy]: the methods a directional strategy may override.
    The indicator arrays a strategy reads are fixed during a run, so each
    method is a function of its arguments. *)
Record strategy : Type := Strategy {
  get_entry_signal : nat -> bool;
  get_exit_signal : nat -> position -> option string;
  get_stop_loss_price : nat -> num -> num;
  get_take_profit_price : nat -> position -> option num;
  update_trailing_stop : nat -> num -> position -> position
}.

(** The defaults of [BaseStrategy]. *)
Definition default_strategy : strategy := {|
  get_entry_signal := fun _ => false;
  get_exit_signal := fun _ _ => None;
  get_stop_loss_price := fun _ entry => fmul entry (ofQ 9 10);
  get_take_profit_price := fun _ _ => None;
  update_trailing_stop := fun _ _ pos => pos
|}.

End base_strategy.

(** ** core/backtest_engine.py *)
Module backtest_engine.
Import base_strategy.

(** A closed trade: the copy of the position dict taken at the exit,
    updated with the exit fields. *)
Record trade (P : Type) : Type := Trade {
  trade_position : P;
  exit_time : Z;
  exit_price : num;
  pnl_percent : num;
  pnl_value : num;
  exit_reason : string
}.
Arguments Trade {P}.
Arguments trade_position {P}.
Arguments exit_time {P}.
Arguments exit_price {P}.
Arguments pnl_percent {P}.
Arguments pnl_value {P}.
Arguments exit_reason {P}.

(** The statistics dict, one field per key. *)
Record stats : Type := Stats {
  Start_Period : option Z;
  End_Period : option Z;
  Duration_days : Z;
  Initial_Capital : string;
  Final_Capital : string;
  Total_Return_pct : num;
  Buy_and_Hold_pct : num;
  Max_Drawdown_pct : num;
  Sharpe_Ratio_ann : num;
  Sortino_Ratio_ann : num;
  Total_Trades : nat;
  Win_Rate_pct : num;
  Profit_Factor : num;
  Avg_Trade_PnL_pct : num;
  Avg_Win_PnL_pct : num;
  Avg_Loss_PnL_pct : num;
  Exit_Reason_Counts : gmap string nat
}.

(** The format [f"${x:,.2f}"]. *)
Fixpoint group_thousands (rev_digits : list Ascii.ascii) : list Ascii.ascii :=
  match rev_digits with
  | a :: b :: c :: ((_ :: _) as rest) =>
      a :: b :: c :: ","%char :: group_thousands rest
  | _ => rev_digits
  end.

Definition fmt_grouped (n : N) : string :=
  string_of_list_ascii
    (rev (group_thousands (rev (list_ascii_of_string (pretty n))))).

Definition two_digits (n : N) : string :=
  if bool_decide (n < 10)%N then "0" +:+ pretty n else pretty n.

Definition fmt_money (x : num) : string :=
  "$" +:+
  match x with
  | Fin q =>
      let cents := Z.to_N (round_half_even (Qabs (this q) * 100)) in
      (if bool_decide (q < 0)%Qc then "-" else "") +:+
      fmt_grouped (cents / 100) +:+ "." +:+ two_digits (cents mod 100)
  | PInf => "inf"
  | NInf => "-inf"
  | NaN => "nan"
  end.

(** pandas reductions; each skips not-a-number entries. *)
Definition dropna (l : list num) : list num :=
  filter (fun x => isnan x = false) l.

Definition pd_mean (l : list num) : num :=
  match dropna l with
  | [] => NaN
  | l' => fdiv (np_sum l') (ofnat (length l'))
  end.

Definition fmin (x y : num) : num := if fltb y x then y else x.
Definition fmax (x y : num) : num := if fltb x y then y else x.

Definition pd_min (l : list num) : num :=
  match dropna l with
  | [] => NaN
  | x :: l' => foldl fmin x l'
  end.

(** [Series.cummax()]: the running maximum; a not-a-number entry stays
    one and does not enter the maximum. *)
Fixpoint cummax_from (m : option num) (l : list num) : list num :=
  match l with
  | [] => []
  | x :: l' =>
      if isnan x then NaN :: cummax_from m l'
      else
        let m' := match m with Some y => fmax y x | None => x end in
        m' :: cummax_from (Some m') l'
  end.
Definition cummax (l : list num) : list num := cummax_from None l.

(** [Series.pct_change()]: the first entry has no predecessor. *)
Definition pct_change (l : list num) : list num :=
  match l with
  | [] => []
  | _ :: l' => NaN :: zip_with (fun prev cur => fdiv (fsub cur prev) prev) l l'
  end.

(** [value_counts().to_dict()]. *)
Definition value_counts (l : list string) : gmap string nat :=
  foldr (fun r m => <[r := S (default 0%nat (m !! r))]> m) ∅ l.

Section Stats.
(** [np.sqrt] has no exact value on rationals; it is taken as given. *)
Variable np_sqrt : num -> num.
Context {P : Type}.

(** [Series.std()]: the sample standard deviation. *)
Definition pd_std (l : list num) : num :=
  let l' := dropna l in
  if bool_decide (length l' < 2)%nat then NaN
  else
    let m := fdiv (np_sum l') (ofnat (length l')) in
    np_sqrt (fdiv (np_sum ((fun x => fmul (fsub x m) (fsub x m)) <$> l'))
                  (ofnat (length l' - 1))).

Definition wins (trades_df : list (trade P)) : list (trade P) :=
  filter (fun t => fgtb (pnl_value t) (ofZ 0) = true) trades_df.

Definition losses (trades_df : list (trade P)) : list (trade P) :=
  filter (fun t => fleb (pnl_value t) (ofZ 0) = true) trades_df.

(** The local [profit_factor] of [calculate_stats]. *)
Definition profit_factor (trades_df : list (trade P)) : num :=
  let loss_sum := fabs (pd_sum (pnl_value <$> losses trades_df)) in
  if fgtb loss_sum (ofZ 0)
  then fdiv (pd_sum (pnl_value <$> wins trades_df)) loss_sum
  else PInf.

(** The record returned for an empty trade table or equity curve. *)
Definition empty_stats (initial_capital : num) (start_date end_date : option Z)
    (bh_return : option num) : stats := {|
  Start_Period := start_date;
  End_Period := end_date;
  Duration_days :=
    match start_date, end_date with
    | Some s, Some e => (e - s)%Z
    | _, _ => 0%Z
    end;
  Initial_Capital := fmt_money initial_capital;
  Final_Capital := fmt_money initial_capital;
  Total_Return_pct := ofZ 0;
  Buy_and_Hold_pct :=
    match bh_return with Some r => round2 r | None => ofZ 0 end;
  Max_Drawdown_pct := ofZ 0;
  Sharpe_Ratio_ann := ofZ 0;
  Sortino_Ratio_ann := ofZ 0;
  Total_Trades := 0;
  Win_Rate_pct := ofZ 0;
  Profit_Factor := ofZ 0;
  Avg_Trade_PnL_pct := ofZ 0;
  Avg_Win_PnL_pct := ofZ 0;
  Avg_Loss_PnL_pct := ofZ 0;
  Exit_Reason_Counts := ∅
|}.

(** [calculate_stats].  Past the guard the dates and the benchmark
    return are used as they are: a [None] there raises. *)
Definition calculate_stats (trades_df : list (trade P)) (equity_curve : series)
    (initial_capital : num) (start_date end_date : option Z)
    (bh_return : option num) : result stats :=
  match trades_df, equity_curve with
  | [], _ | _, [] =>
      Ok (empty_stats initial_capital start_date end_date bh_return)
  | _ :: _, _ :: _ =>
      let values := snd <$> equity_curve in
      let equity := default NaN (last values) in
      let total_return_pct :=
        fmul (fdiv (fsub equity initial_capital) initial_capital) (ofZ 100) in
      let win_rate :=
        fmul (fdiv (ofnat (length (wins trades_df)))
                   (ofnat (length trades_df))) (ofZ 100) in
      let peak := cummax values in
      let drawdown :=
        zip_with (fun e p => fdiv (fsub e p) p) values peak in
      let max_drawdown_pct := fabs (fmul (pd_min drawdown) (ofZ 100)) in
      let returns := dropna (pct_change values) in
      let trading_days_per_year := ofZ 365 in
      let sharpe_ratio :=
        if fneb (pd_std returns) (ofZ 0)
        then fdiv (fmul (np_sqrt trading_days_per_year) (pd_mean returns))
                  (pd_std returns)
        else ofZ 0 in
      let negative_returns :=
        filter (fun r => fltb r (ofZ 0) = true) returns in
      let sortino_ratio :=
        if bool_decide (1 < length negative_returns)%nat
           && fneb (pd_std negative_returns) (ofZ 0)
        then fdiv (fmul (np_sqrt trading_days_per_year) (pd_mean returns))
                  (pd_std negative_returns)
        else ofZ 0 in
      duration ← of_option TypeError
        (s ← start_date; e ← end_date; Some (e - s)%Z);
      bh ← of_option TypeError bh_return;
      Ok {|
        Start_Period := start_date;
        End_Period := end_date;
        Duration_days := duration;
        Initial_Capital := fmt_money initial_capital;
        Final_Capital := fmt_money equity;
        Total_Return_pct := round2 total_return_pct;
        Buy_and_Hold_pct := round2 bh;
        Max_Drawdown_pct := round2 max_drawdown_pct;
        Sharpe_Ratio_ann := round2 sharpe_ratio;
        Sortino_Ratio_ann := round2 sortino_ratio;
        Total_Trades := length trades_df;
        Win_Rate_pct := round2 win_rate;
        Profit_Factor := round2 (profit_factor trades_df);
        Avg_Trade_PnL_pct := round2 (pd_mean (pnl_percent <$> trades_df));
        Avg_Win_PnL_pct :=
          match wins trades_df with
          | [] => ofZ 0
          | ws => round2 (pd_mean (pnl_percent <$> ws))
          end;
        Avg_Loss_PnL_pct :=
          match losses trades_df with
          | [] => ofZ 0
          | ls => round2 (pd_mean (pnl_percent <$> ls))
          end;
        Exit_Reason_Counts := value_counts (exit_reason <$> trades_df)
      |}
  end.

End Stats.

(** The profit factor of a table with one winning and one losing trade,
    computed in binary64 as pandas does. *)
Module binary64.
Import PrimFloat.

Definition profit_factor (win loss : float) : float :=
  if ltb 0 (abs loss) then (win / abs loss)%float else infinity.

End binary64.

(** [_get_start_index]: the effective start index, or [None] after a
    warning when the table is too short. *)
Definition _get_start_index (df : list candle) (cfg : config)
    : option Z * list message :=
  let start_ts := BACKTEST_START_DATE cfg in
  let requested_start_idx :=
    Z.of_nat (searchsorted_left (ts <$> df) start_ts) in
  let technical_warmup := default 200%Z (TECHNICAL_WARMUP_PERIOD cfg) in
  let start_index := Z.max technical_warmup requested_start_idx in
  if bool_decide (Z.of_nat (length df) <= start_index)%Z
  then (None, [NotEnoughData start_index (length df)])
  else (Some start_index,
        [StartingAt start_index
           (date_of (ts (df !!! Z.to_nat start_index)))]).

(** What a run returns: the statistics dict (empty or filled), the
    trade table, the equity curve and the buy-and-hold curve. *)
Record output (T : Type) : Type := Output {
  out_stats : option stats;
  out_trades : list T;
  out_equity : series;
  out_bh : series
}.
Arguments Output {T}.
Arguments out_stats {T}.
Arguments out_trades {T}.
Arguments out_equity {T}.
Arguments out_bh {T}.

(** [{}, pd.DataFrame(), pd.Series(dtype=float), pd.Series(dtype=float)] *)
Definition empty_output {T : Type} : output T := Output None [] [] [].

(** The buy-and-hold return and curve over [df.iloc[start_index:]]. *)
Definition bh_return_of (start_price end_price : num) : num :=
  if fgtb start_price (ofZ 0)
  then fmul (fdiv (fsub end_price start_price) start_price) (ofZ 100)
  else ofZ 0.

Definition bh_equity_of (start_price initial_capital : num)
    (rows : list candle) : series :=
  if fgtb start_price (ofZ 0)
  then (fun c => (ts c, fmul (fdiv (close c) start_price) initial_capital))
         <$> rows
  else (fun c => (ts c, initial_capital)) <$> rows.

(** *** The generic directional simulator *)

Definition flat : position :=
  Position false (ofZ 0) (ofZ 0) (ofZ 0) (ofZ 0) None.

Record gstate : Type := GState {
  cash : num;
  pos : position;
  trades : list (trade position);
  equity_curve : list num
}.

(** The exit checks of a candle with an open position: take-profit,
    then trailing stop and stop breach, then the strategy's own signal.
    Returns the exit reason and the position as the checks leave it. *)
Definition exit_checks (strat : strategy) (i : nat) (price : num)
    (posn : position) : option string * position :=
  let tp_price := get_take_profit_price strat i posn in
  let exit_reason : option string :=
    match tp_price with
    | Some tp =>
        if truthy tp && fgeb price tp then Some "Take Profit" else None
    | None => None
    end in
  let '(exit_reason, posn) :=
    if negb (str_truthy exit_reason) then
      let posn := update_trailing_stop strat i price posn in
      if fleb price (stop_price posn)
      then (Some "Stop Loss", posn)
      else (exit_reason, posn)
    else (exit_reason, posn) in
  let exit_reason :=
    if negb (str_truthy exit_reason)
    then get_exit_signal strat i posn
    else exit_reason in
  (exit_reason, posn).

(** The body of the loop of [run_generic_backtest] at candle [i], the
    [idx]-th of the run. *)
Definition generic_step (strat : strategy) (df : list candle)
    (start_index : nat) (st : gstate) (i : nat) : gstate :=
  let idx := (i - start_index)%nat in
  let price := close (df !!! i) in
  let now := ts (df !!! i) in
  let '(cash, posn, trades) :=
    if in_pos (pos st) then
      let '(exit_reason, posn) := exit_checks strat i price (pos st) in
      if str_truthy exit_reason then
        let proceeds := fmul (qty posn) price in
        let pnl_val := fsub proceeds (value posn) in
        let trade_log := {|
          trade_position := posn;
          exit_time := now;
          exit_price := price;
          pnl_percent :=
            if fgtb (value posn) (ofZ 0)
            then fmul (fdiv pnl_val (value posn)) (ofZ 100)
            else ofZ 0;
          pnl_value := pnl_val;
          exit_reason := default "" exit_reason
        |} in
        (proceeds, flat, trades st ++ [trade_log])
      else (cash st, posn, trades st)
    else (cash st, pos st, trades st) in
  let '(cash, posn) :=
    if negb (in_pos posn) then
      if get_entry_signal strat i && fgtb cash (ofZ 0) then
        let stop_price := get_stop_loss_price strat i price in
        if fltb stop_price price then
          (ofZ 0,
           Position true price stop_price (fdiv cash price) cash (Some now))
        else (cash, posn)
      else (cash, posn)
    else (cash, posn) in
  let current_value :=
    if in_pos posn then fmul (qty posn) price else cash in
  GState cash posn trades (<[idx := current_value]> (equity_curve st)).

Section Runners.
Variable np_sqrt : num -> num.

(** The tail shared by the three runners: the curves over
    [df.iloc[start_index:]] and the statistics. *)
Definition finish_run {T : Type} (df : list candle) (start_index : nat)
    (initial_capital : num) (trades_df : list (trade T))
    (equity_curve_s : series) : result (output (trade T)) :=
  let rows := drop start_index df in
  let ts_slice := ts <$> rows in
  let start_price := close (df !!! start_index) in
  let end_price := default NaN (last (close <$> df)) in
  let bh_return := bh_return_of start_price end_price in
  let bh_equity_s := bh_equity_of start_price initial_capital rows in
  start_date ← of_option IndexError (date_of <$> head ts_slice);
  end_date ← of_option IndexError (date_of <$> last ts_slice);
  stats ← calculate_stats np_sqrt trades_df equity_curve_s initial_capital
             (Some start_date) (Some end_date) (Some bh_return);
  Ok (Output (Some stats) trades_df equity_curve_s bh_equity_s).

(** [run_generic_backtest] *)
Definition run_generic_backtest (df : list candle) (strat : strategy)
    (cfg : config) : result (output (trade position)) * list message :=
  let initial_capital := INITIAL_CAPITAL cfg in
  let '(start_index, printed) := _get_start_index df cfg in
  match start_index with
  | None => (Ok empty_output, printed)
  | Some start_index =>
      if bool_decide (Z.of_nat (length df) <= start_index)%Z
      then (Ok empty_output, printed)
      else
        let start_index := Z.to_nat start_index in
        let n := length df in
        let st0 := GState initial_capital flat []
                     (replicate (n - start_index) initial_capital) in
        let st := foldl (generic_step strat df start_index) st0
                    (seq start_index (n - start_index)) in
        let ts_slice := ts <$> drop start_index df in
        (finish_run df start_index initial_capital (trades st)
           (zip ts_slice (equity_curve st)),
         printed)
  end.

(** *** The self-reoptimizing legacy simulator *)

(** The position dict of the legacy simulator. *)
Record lposition : Type := LPosition {
  l_in_pos : bool;
  entry : num;
  stop : num;
  l_qty : num;
  l_value : num;
  l_params : option params;
  l_entry_time : option Z
}.

Definition lflat : lposition :=
  LPosition false (ofZ 0) (ofZ 0) (ofZ 0) (ofZ 0) None None.

(** What [run_legacy_backtest] calls on its strategy object.  [M] is the
    mutable part of the object: the parameter memory and the state of
    the random source. *)
Record legacy_strategy (M : Type) : Type := LegacyStrategy {
  optimize : M -> nat -> list num -> result M;
  l_get_entry_signal : M -> nat -> result (option params * M);
  l_get_exit_signal : M -> nat -> num -> lposition -> result (option string);
  l_update_trailing_stop : M -> nat -> num -> lposition -> lposition;
  indicators_of : M -> gmap string (list num)
}.
Arguments optimize {M}.
Arguments l_get_entry_signal {M}.
Arguments l_get_exit_signal {M}.
Arguments l_update_trailing_stop {M}.
Arguments indicators_of {M}.

Record lstate (M : Type) : Type := LState {
  l_memory : M;
  l_cash : num;
  l_pos : lposition;
  l_trades : list (trade lposition);
  l_equity_curve : list num
}.
Arguments LState {M}.
Arguments l_memory {M}.
Arguments l_cash {M}.
Arguments l_pos {M}.
Arguments l_trades {M}.
Arguments l_equity_curve {M}.

(** [max(technical_warmup, requested_start_idx)] hands back its first
    argument unless the second is strictly greater: the start index is
    the integer of the config when the warm-up decides and numpy's
    integer, as [searchsorted] returned it, when the requested index
    does. *)
Definition start_index_is_numpy (df : list candle) (cfg : config) : bool :=
  bool_decide (default 200%Z (TECHNICAL_WARMUP_PERIOD cfg)
               < Z.of_nat (searchsorted_left (ts <$> df)
                             (BACKTEST_START_DATE cfg)))%Z.

(** [a % b] on integers.  Python's own integers raise on a zero divisor;
    as soon as one operand is a numpy integer the remainder by zero is 0
    (with a warning).  The sign of the result is the divisor's either
    way. *)
Definition int_mod (numpy : bool) (a b : Z) : result Z :=
  if bool_decide (b = 0)%Z
  then (if numpy then Ok 0%Z else Raise ZeroDivisionError)
  else Ok (a `mod` b)%Z.

(** The body of the loop of [run_legacy_backtest] at candle [i];
    [numpy_start] tells whether [start_index] is a numpy integer. *)
Definition legacy_step {M : Type} (strat : legacy_strategy M)
    (df : list candle) (reoptimize_every : Z) (numpy_start : bool)
    (start_index : nat) (st : lstate M) (i : nat) : result (lstate M) :=
  let idx := (i - start_index)%nat in
  let close_arr := close <$> df in
  r ← int_mod numpy_start (Z.of_nat idx) reoptimize_every;
  memory ←
    (if bool_decide (r = 0)%Z
     then optimize strat (l_memory st) i close_arr
     else Ok (l_memory st));
  let price := close (df !!! i) in
  let now := ts (df !!! i) in
  '(cash, posn, trades) ←
    (if l_in_pos (l_pos st) then
      let posn := l_update_trailing_stop strat memory i price (l_pos st) in
      exit_reason ← l_get_exit_signal strat memory i price posn;
      Ok (if str_truthy exit_reason then
        let proceeds := fmul (l_qty posn) price in
        let pnl_val := fsub proceeds (l_value posn) in
        let trade_log := {|
          trade_position := posn;
          exit_time := now;
          exit_price := price;
          pnl_percent :=
            if fgtb (l_value posn) (ofZ 0)
            then fmul (fdiv pnl_val (l_value posn)) (ofZ 100)
            else ofZ 0;
          pnl_value := pnl_val;
          exit_reason := default "" exit_reason
        |} in
        (proceeds, lflat, l_trades st ++ [trade_log])
      else (l_cash st, posn, l_trades st))
    else Ok (l_cash st, l_pos st, l_trades st));
  '(memory, cash, posn) ←
    (if negb (l_in_pos posn) then
       '(entry_params, memory) ← l_get_entry_signal strat memory i;
       match entry_params with
       | Some (fma, sma, atr_len, mult) =>
           if fgtb cash (ofZ 0) then
             atr_arr ← of_option KeyError
               (indicators_of strat memory !! indicator_key "atr" atr_len);
             atr_val ← of_option IndexError (atr_arr !! i);
             if negb (isnan atr_val) then
               let stop_p := fsub price (fmul atr_val mult) in
               if fltb stop_p price then
                 Ok (memory, ofZ 0,
                     LPosition true price stop_p (fdiv cash price) cash
                       (Some (fma, sma, atr_len, mult)) (Some now))
               else Ok (memory, cash, posn)
             else Ok (memory, cash, posn)
           else Ok (memory, cash, posn)
       | None => Ok (memory, cash, posn)
       end
     else Ok (memory, cash, posn));
  let current_value :=
    if l_in_pos posn then fmul (l_qty posn) price else cash in
  Ok (LState memory cash posn trades
        (<[idx := current_value]> (l_equity_curve st))).

(** [run_legacy_backtest] *)
Definition run_legacy_backtest {M : Type} (df : list candle)
    (strat : legacy_strategy M) (memory : M) (cfg : config)
    : result (output (trade lposition)) * list message :=
  let initial_capital := INITIAL_CAPITAL cfg in
  let reoptimize_every := REOPTIMIZE_EVERY cfg in
  let '(start_index, printed) := _get_start_index df cfg in
  match start_index with
  | None => (Ok empty_output, printed)
  | Some start_index =>
      if bool_decide (Z.of_nat (length df) <= start_index)%Z
      then (Ok empty_output, printed)
      else
        let start_index := Z.to_nat start_index in
        let n := length df in
        let st0 := LState memory initial_capital lflat []
                     (replicate (n - start_index) initial_capital) in
        (st ← loopM (legacy_step strat df reoptimize_every
                       (start_index_is_numpy df cfg) start_index)
                st0 (seq start_index (n - start_index));
         let ts_slice := ts <$> drop start_index df in
         finish_run df start_index initial_capital (l_trades st)
           (zip ts_slice (l_equity_curve st)),
         printed)
  end.

(** *** The continuous simulator *)

(** What [run_continuous_backtest] calls on its strategy object; [St] is
    the state the strategy keeps between candles. *)
Record continuous_strategy (St T : Type) : Type := ContinuousStrategy {
  init_continuous_backtest : num -> Z -> list candle -> result St;
  process_candle : St -> nat -> St;
  get_continuous_results : St -> list (trade T) * series
}.
Arguments init_continuous_backtest {St T}.
Arguments process_candle {St T}.
Arguments get_continuous_results {St T}.

(** The value a series holds at the last index entry not after [t]. *)
Definition asof (s : series) (t : Z) : num :=
  default NaN (snd <$> last (filter (fun p => (p.1 <= t)%Z) s)).

(** The same on a series whose index decreases: the value of the entry
    at [t] if there is one, else the value at the last position whose
    index entry is still greater than [t]. *)
Definition pad_decreasing (s : series) (t : Z) : num :=
  match filter (fun p => p.1 = t) s with
  | p :: _ => p.2
  | [] => default NaN (snd <$> last (filter (fun p => (t < p.1)%Z) s))
  end.

(** [Series.reindex(index, method='ffill')].  A series that already has
    the requested index is handed back as it is.  Otherwise the index of
    the series has to be free of duplicates and monotonic, increasing or
    decreasing; pandas refuses any other with a [ValueError]. *)
Definition reindex_ffill (s : series) (index : list Z) : result series :=
  if bool_decide (fst <$> s = index) then Ok s
  else if bool_decide (Sorted Z.lt (fst <$> s))
  then Ok ((fun t => (t, asof s t)) <$> index)
  else if bool_decide (Sorted (flip Z.lt) (fst <$> s))
  then Ok ((fun t => (t, pad_decreasing s t)) <$> index)
  else Raise ValueError.

(** [run_continuous_backtest] *)
Definition run_continuous_backtest {St T : Type} (df : list candle)
    (strat : continuous_strategy St T) (cfg : config)
    : result (output (trade T)) * list message :=
  let initial_capital := INITIAL_CAPITAL cfg in
  let '(start_index, printed) := _get_start_index df cfg in
  match start_index with
  | None => (Ok empty_output, printed)
  | Some start_index =>
      (st0 ← init_continuous_backtest strat initial_capital start_index df;
       let start_index := Z.to_nat start_index in
       let st := foldl (process_candle strat) st0
                   (seq start_index (length df - start_index)) in
       let '(trades_df, equity_curve_s) := get_continuous_results strat st in
       let ts_slice := ts <$> drop start_index df in
       equity_curve_s ← reindex_ffill equity_curve_s ts_slice;
       finish_run df start_index initial_capital trades_df equity_curve_s,
       printed)
  end.

End Runners.

Arguments optimize {M}.
Arguments l_get_entry_signal {M}.
Arguments l_get_exit_signal {M}.
Arguments l_update_trailing_stop {M}.
Arguments indicators_of {M}.
Arguments LState {M}.
Arguments l_memory {M}.
Arguments l_cash {M}.
Arguments l_pos {M}.
Arguments l_trades {M}.
Arguments l_equity_curve {M}.
Arguments init_continuous_backtest {St T}.
Arguments process_candle {St T}.
Arguments get_continuous_results {St T}.

End backtest_engine.

(** ** strategies/dynamic_momentum_optimizer.py *)
Module dynamic_momentum_optimizer.
Import backtest_engine.

(** The locals of one parameter tuple in [_score_params_numba]. *)
Record score_state : Type := ScoreState {
  gp : num;
  gl : num;
  s_in_pos : bool;
  s_entry : num;
  s_stop : num
}.

Definition score_init : score_state :=
  ScoreState (ofZ 0) (ofZ 0) false (ofZ 0) (ofZ 0).

(** The body of the inner loop at index [i].  The not-a-number tests
    are evaluated left to right and stop at the first hit ([continue]).
    The kernel is compiled for parallel execution and its division
    follows the hardware: a zero entry price gives an infinity or
    not-a-number, nothing is raised. *)
Definition score_step (fma sma atr close : list num)
    (mult trail_trigger_mult : num) (st : score_state) (i : Z)
    : result score_state :=
  fma_i ← nb_get fma i;
  if isnan fma_i then Ok st else
  sma_i ← nb_get sma i;
  if isnan sma_i then Ok st else
  fma_p ← nb_get fma (i - 1);
  if isnan fma_p then Ok st else
  sma_p ← nb_get sma (i - 1);
  if isnan sma_p then Ok st else
  atr_i ← nb_get atr i;
  if isnan atr_i then Ok st else
  let gold := fltb fma_p sma_p && fgtb fma_i sma_i in
  let death := fgtb fma_p sma_p && fltb fma_i sma_i in
  price ← nb_get close i;
  if negb (s_in_pos st) && gold then
    Ok (ScoreState (gp st) (gl st) true price
          (fsub price (fmul atr_i mult)))
  else if s_in_pos st then
    let stop :=
      if fgtb (fsub price (s_entry st))
              (fmul (fmul atr_i mult) trail_trigger_mult)
      then
        let new_stop := fsub price (fmul atr_i mult) in
        if fgtb new_stop (s_stop st) then new_stop else s_stop st
      else s_stop st in
    if fltb price stop || death then
      let pnl := fdiv (fsub price (s_entry st)) (s_entry st) in
      Ok (if fgtb pnl (ofZ 0)
          then ScoreState (fadd (gp st) pnl) (gl st) false (s_entry st) stop
          else ScoreState (gp st) (fsub (gl st) pnl) false (s_entry st) stop)
    else Ok (ScoreState (gp st) (gl st) true (s_entry st) stop)
  else Ok st.

(** [gp / gl if gl > 0 else (gp * 1_000 if gp > 0 else 0.0)] *)
Definition final_score (st : score_state) : num :=
  if fgtb (gl st) (ofZ 0) then fdiv (gp st) (gl st)
  else if fgtb (gp st) (ofZ 0) then fmul (gp st) (ofZ 1000)
  else ofZ 0.

(** The final locals of one tuple over [range(start + 1, end)]. *)
Definition score_loop (fma sma atr close : list num)
    (mult : num) (start end_ : Z) (trail_trigger_mult : num)
    : result score_state :=
  loopM (score_step fma sma atr close mult trail_trigger_mult) score_init
    (seqZ (start + 1) (end_ - (start + 1))).

(** The score of one parameter tuple. *)
Definition score_tuple (fma sma atr close : list num)
    (mult : num) (start end_ : Z) (trail_trigger_mult : num) : result num :=
  st ← score_loop fma sma atr close mult start end_ trail_trigger_mult;
  Ok (final_score st).

(** [_score_params_numba]: one score per tuple of the grid. *)
Definition _score_params_numba (fma_g sma_g atr_g : list Z) (mult_g : list num)
    (fma_a sma_a atr_a : list (list num)) (close : list num)
    (start end_ : Z) (trail_trigger_mult : num) : result (list num) :=
  mapM (fun k =>
          fma ← of_option OutOfBounds (fma_a !! k);
          sma ← of_option OutOfBounds (sma_a !! k);
          atr ← of_option OutOfBounds (atr_a !! k);
          mult ← of_option OutOfBounds (mult_g !! k);
          score_tuple fma sma atr close mult start end_ trail_trigger_mult)
       (seq 0 (length fma_g)).

Section Optimizer.
(** The random module and numpy's unstable argsort are taken as given:
    [R] is the state of the random source. *)
Variable R : Type.
Variable random_random : R -> num * R.
Variable random_choice : R -> list params -> option params * R.
Variable np_argsort : list num -> list nat.

(** The attributes of a [DynamicMomentumOptimizer]. *)
Record optimizer : Type := Optimizer {
  opt_config : config;
  indicators : gmap string (list num);
  best_params_memory : list (params * num);
  grid : list params;
  optimizer_arrays : list (list num) * list (list num) * list (list num);
  rng : R
}.

(** [__init__]: the grid of tuples with fast < slow. *)
Definition make_grid (cfg : config) : list params :=
  filter (fun p : params => (p.1.1.1 < p.1.1.2)%Z)
    (f ← FAST_MA_PERIODS cfg; s ← SLOW_MA_PERIODS cfg;
     a ← ATR_PERIODS cfg; m ← ATR_MULTIPLIERS cfg; [(f, s, a, m)]).

(** [set_indicators]: the rolling deviation stands in for the ATR. *)
Definition set_indicators (self : optimizer)
    (inds : gmap string (list num)) : optimizer :=
  let remapped :=
    foldl (fun m p =>
             match m !! indicator_key "std" p with
             | Some arr => <[indicator_key "atr" p := arr]> m
             | None => m
             end) inds (ATR_PERIODS (opt_config self)) in
  Optimizer (opt_config self) remapped (best_params_memory self)
    (grid self) (optimizer_arrays self) (rng self).

(** [optimize] *)
Definition optimize (self : optimizer) (i : nat) (close : list num)
    : result optimizer :=
  let cfg := opt_config self in
  let '(fma_a, sma_a, atr_a) := optimizer_arrays self in
  let g := grid self in
  scores ← _score_params_numba
              ((fun p : params => p.1.1.1) <$> g)
              ((fun p : params => p.1.1.2) <$> g)
              ((fun p : params => p.1.2) <$> g)
              ((fun p : params => p.2) <$> g)
              fma_a sma_a atr_a close
              (Z.of_nat i - OPTIMIZATION_LOOKBACK cfg) (Z.of_nat i)
              (TRAIL_TRIGGER_MULT cfg);
  let ordered_indices := reverse (np_argsort scores) in
  let entry_of (j : nat) : option (params * num) :=
    p ← g !! j; sc ← scores !! j; Some (p, sc) in
  let confident :=
    take (TOP_PARAM_MEMORY cfg)
      (filter (fun e : params * num =>
                 fgeb e.2 (CONFIDENCE_THRESHOLD cfg) = true)
              (omap entry_of ordered_indices)) in
  let memory :=
    match confident, ordered_indices with
    | [], j :: _ => option_list (entry_of j)
    | _, _ => confident
    end in
  Ok (Optimizer cfg (indicators self) memory g (optimizer_arrays self)
        (rng self)).

(** The scan of the parameter memory in [get_entry_signal]. *)
Fixpoint scan_memory (inds : gmap string (list num)) (i : Z)
    (memory : list (params * num)) : result (option params) :=
  match memory with
  | [] => Ok None
  | ((fma, sma, atr_len, mult), _) :: rest =>
      fcol ← of_option KeyError (inds !! indicator_key "slope" fma);
      scol ← of_option KeyError (inds !! indicator_key "slope" sma);
      f_i ← np_get fcol i;
      if isnan f_i then scan_memory inds i rest else
      s_i ← np_get scol i;
      if isnan s_i then scan_memory inds i rest else
      f_p ← np_get fcol (i - 1);
      if isnan f_p then scan_memory inds i rest else
      s_p ← np_get scol (i - 1);
      if isnan s_p then scan_memory inds i rest else
      if fltb f_p s_p && fgtb f_i s_i
      then Ok (Some (fma, sma, atr_len, mult))
      else scan_memory inds i rest
  end.

(** [get_entry_signal] *)
Definition get_entry_signal (self : optimizer) (i : nat)
    : result (option params * optimizer) :=
  chosen_params ← scan_memory (indicators self) (Z.of_nat i)
                     (best_params_memory self);
  match chosen_params with
  | Some p => Ok (Some p, self)
  | None =>
      let '(u, rng1) := random_random (rng self) in
      let rate := default (ofQ 1 100) (EXPLORATION_RATE (opt_config self)) in
      if fltb u rate then
        match grid self with
        | [] =>
            Ok (None,
                Optimizer (opt_config self) (indicators self)
                  (best_params_memory self) (grid self)
                  (optimizer_arrays self) rng1)
        | _ :: _ =>
            let '(choice, rng2) := random_choice rng1 (grid self) in
            Ok (choice,
                Optimizer (opt_config self) (indicators self)
                  (best_params_memory self) (grid self)
                  (optimizer_arrays self) rng2)
        end
      else
        Ok (None,
            Optimizer (opt_config self) (indicators self)
              (best_params_memory self) (grid self)
              (optimizer_arrays self) rng1)
  end.

End Optimizer.

(** [get_exit_signal]: the slope cross first, then the stop. *)
Definition get_exit_signal (inds : gmap string (list num)) (i : nat)
    (price : num) (posn : lposition) : result (option string) :=
  match l_params posn with
  | None => Ok (Some "Error")
  | Some (fma, sma, _, _) =>
      fcol ← of_option KeyError (inds !! indicator_key "slope" fma);
      scol ← of_option KeyError (inds !! indicator_key "slope" sma);
      f_p ← np_get fcol (Z.of_nat i - 1);
      s_p ← np_get scol (Z.of_nat i - 1);
      cross ←
        (if fgtb f_p s_p then
           f_i ← np_get fcol (Z.of_nat i);
           s_i ← np_get scol (Z.of_nat i);
           Ok (fltb f_i s_i)
         else Ok false);
      if cross : bool then Ok (Some "Signal Cross")
      else if fltb price (stop posn) then Ok (Some "Stop Loss")
      else Ok None
  end.

(** [update_trailing_stop] *)
Definition update_trailing_stop (cfg : config)
    (inds : gmap string (list num)) (i : nat) (price : num)
    (posn : lposition) : lposition :=
  match l_params posn with
  | None => posn
  | Some (_, _, atr_len, mult) =>
      match inds !! indicator_key "atr" atr_len with
      | Some atr_array =>
          if bool_decide (i < length atr_array)%nat then
            let atr_val := atr_array !!! i in
            if negb (isnan atr_val) then
              if fgtb (fsub price (entry posn))
                      (fmul (fmul atr_val mult) (TRAIL_TRIGGER_MULT cfg))
              then
                let new_stop := fsub price (fmul atr_val mult) in
                if fgtb new_stop (stop posn)
                then LPosition (l_in_pos posn) (entry posn) new_stop
                       (l_qty posn) (l_value posn) (l_params posn)
                       (l_entry_time posn)
                else posn
              else posn
            else posn
          else posn
      | None => posn
      end
  end.

(** The optimizer as the strategy object of [run_legacy_backtest]. *)
Definition as_legacy_strategy (R : Type) (random_random : R -> num * R)
    (random_choice : R -> list params -> option params * R)
    (np_argsort : list num -> list nat)
    : legacy_strategy (optimizer R) := {|
  backtest_engine.optimize := optimize R np_argsort;
  l_get_entry_signal := get_entry_signal R random_random random_choice;
  l_get_exit_signal := fun self => get_exit_signal (indicators R self);
  l_update_trailing_stop :=
    fun self => update_trailing_stop (opt_config R self) (indicators R self);
  indicators_of := indicators R
|}.

End dynamic_momentum_optimizer.

(** ** strategies/strategy_library.py *)
Module strategy_library.

(** [_atr_stop]: the initial stop of the ATR-based strategies, a
    multiple of the ATR below the entry price, or 5 % below it when the
    ATR is missing or not-a-number. *)
Definition _atr_stop (indicators : gmap string (list num)) (i : Z)
    (entry_price : num) (atr_period : Z) (atr_mult : num) : result num :=
  match indicators !! indicator_key "atr" atr_period with
  | Some atr =>
      atr_i ← np_get atr i;
      if negb (isnan atr_i)
      then Ok (fsub entry_price (fmul atr_i atr_mult))
      else Ok (fmul entry_price (ofQ 95 100))
  | None => Ok (fmul entry_price (ofQ 95 100))
  end.



(** The parameters the grid strategy reads from [self.params]. *)
Record grid_params : Type := GridParams {
  p_INITIAL_CAPITAL : num;
  p_GQ_GRID_MAX_GRIDS : Z;
  p_GQ_GRID_GRID_SPACING_PCT : num
}.

(** The attributes of a [GridStrategy] during a continuous back-test.
    The order dicts map a price level to [True]; a trade records its
    entry price (its entry time is the string 'N/A'). *)
Record grid : Type := Grid {
  params_of : grid_params;
  base_asset_qty : num;
  cash : num;
  equity_curve : list (Z * num);
  trades : list (backtest_engine.trade num);
  data : list candle;
  grid_spacing_factor : num;
  quote_qty_per_grid : num;
  max_grids : Z;
  buy_orders : gmap num bool;
  sell_orders : gmap num bool
}.

(** The keys of an order dict. *)
Definition levels_of (orders : gmap num bool) : list num :=
  elements (dom orders : gset num).

(** [min(...)] and [max(...)] over a list of keys: the first extreme
    element wins, as in Python. *)
Definition list_min (l : list num) : option num :=
  match l with
  | [] => None
  | x :: l' => Some (foldl backtest_engine.fmin x l')
  end.
Definition list_max (l : list num) : option num :=
  match l with
  | [] => None
  | x :: l' => Some (foldl backtest_engine.fmax x l')
  end.

(** [sorted(...)] on price levels. *)
Definition sorted (l : list num) : list num :=
  merge_sort num_le l.

(** The two set-up loops: [n] orders starting at [price], each a step
    further from the start price. *)
Fixpoint place_orders (next : num -> num) (price : num) (n : nat)
    (orders : gmap num bool) : gmap num bool :=
  match n with
  | O => orders
  | S n' => place_orders next (next price) n' (<[price := true]> orders)
  end.

(** [init_continuous_backtest] *)
Definition init_continuous_backtest (p : grid_params) (initial_capital : num)
    (start_index : Z) (data : list candle) : result grid :=
  c ← of_option IndexError (py_index data (start_index - 1));
  let start_price := close c in
  let base_asset_qty := fdiv (fdiv initial_capital (ofZ 2)) start_price in
  let cash := fdiv initial_capital (ofZ 2) in
  let grid_spacing_factor :=
    fadd (ofZ 1) (fdiv (p_GQ_GRID_GRID_SPACING_PCT p) (ofZ 100)) in
  quote_qty_per_grid ←
    checked_div (p_INITIAL_CAPITAL p) (ofZ (p_GQ_GRID_MAX_GRIDS p));
  let max_grids := p_GQ_GRID_MAX_GRIDS p in
  let num_buy_side_grids := (max_grids / 2)%Z in
  let num_sell_side_grids := (max_grids - num_buy_side_grids)%Z in
  let buy_orders :=
    place_orders (fun x => fdiv x grid_spacing_factor)
      (fdiv start_price grid_spacing_factor)
      (Z.to_nat num_buy_side_grids) ∅ in
  let sell_orders :=
    place_orders (fun x => fmul x grid_spacing_factor)
      (fmul start_price grid_spacing_factor)
      (Z.to_nat num_sell_side_grids) ∅ in
  let initial_equity := fadd cash (fmul base_asset_qty start_price) in
  Ok {|
    params_of := p;
    base_asset_qty := base_asset_qty;
    cash := cash;
    equity_curve := [(ts c, initial_equity)];
    trades := [];
    data := data;
    grid_spacing_factor := grid_spacing_factor;
    quote_qty_per_grid := quote_qty_per_grid;
    max_grids := max_grids;
    buy_orders := buy_orders;
    sell_orders := sell_orders
  |}.

(** The state initialisation of [init_continuous_backtest] and its
    [initial_equity], computed in binary64 as Python does: every
    operation rounds to the nearest float, ties to even. *)
Module binary64.
Import PrimFloat.

Definition init_base_asset_qty (initial_capital start_price : float) : float :=
  ((initial_capital / 2) / start_price)%float.

Definition init_cash (initial_capital : float) : float :=
  (initial_capital / 2)%float.

Definition initial_equity (initial_capital start_price : float) : float :=
  (init_cash initial_capital
   + init_base_asset_qty initial_capital start_price * start_price)%float.

End binary64.

(** The body of the buy loop of [process_candle] for one filled level. *)
Definition buy_fill (self : grid) (level : num) : grid :=
  if fltb (cash self) (quote_qty_per_grid self) then self
  else
    let base_qty_to_buy := fdiv (quote_qty_per_grid self) level in
    let buys := delete level (buy_orders self) in
    let sells :=
      <[fmul level (grid_spacing_factor self) := true]> (sell_orders self) in
    let buys :=
      match list_min (levels_of buys) with
      | Some lowest_buy =>
          <[fdiv lowest_buy (grid_spacing_factor self) := true]> buys
      | None => buys
      end in
    {|
      params_of := params_of self;
      base_asset_qty := fadd (base_asset_qty self) base_qty_to_buy;
      cash := fsub (cash self) (quote_qty_per_grid self);
      equity_curve := equity_curve self;
      trades := trades self;
      data := data self;
      grid_spacing_factor := grid_spacing_factor self;
      quote_qty_per_grid := quote_qty_per_grid self;
      max_grids := max_grids self;
      buy_orders := buys;
      sell_orders := sells
    |}.

(** The body of the sell loop for one filled level, at time [now]. *)
Definition sell_fill (now : Z) (self : grid) (level : num) : grid :=
  let buy_price := fdiv level (grid_spacing_factor self) in
  let base_qty_to_sell := fdiv (quote_qty_per_grid self) buy_price in
  if fltb (base_asset_qty self) base_qty_to_sell then self
  else
    let pnl_value := fmul (fsub level buy_price) base_qty_to_sell in
    let pnl_pct :=
      fmul (fdiv pnl_value (quote_qty_per_grid self)) (ofZ 100) in
    let sells := delete level (sell_orders self) in
    let buys :=
      <[fdiv level (grid_spacing_factor self) := true]> (buy_orders self) in
    let sells :=
      match list_max (levels_of sells) with
      | Some highest_sell =>
          <[fmul highest_sell (grid_spacing_factor self) := true]> sells
      | None => sells
      end in
    {|
      params_of := params_of self;
      base_asset_qty := fsub (base_asset_qty self) base_qty_to_sell;
      cash := fadd (cash self) (fmul level base_qty_to_sell);
      equity_curve := equity_curve self;
      trades :=
        trades self ++
        [backtest_engine.Trade buy_price now level pnl_pct pnl_value
           "Grid Pair Closed"];
      data := data self;
      grid_spacing_factor := grid_spacing_factor self;
      quote_qty_per_grid := quote_qty_per_grid self;
      max_grids := max_grids self;
      buy_orders := buys;
      sell_orders := sells
    |}.

(** The buy levels the candle's low reached, and the sell levels its
    high reached. *)
Definition filled_buys (self : grid) (candle_low : num) : list num :=
  filter (fun level => fleb candle_low level = true)
    (levels_of (buy_orders self)).
Definition filled_sells (self : grid) (candle_high : num) : list num :=
  filter (fun level => fgeb candle_high level = true)
    (levels_of (sell_orders self)).

(** [process_candle] *)
Definition process_candle (self : grid) (i : nat) : grid :=
  let c := data self !!! i in
  let self :=
    foldl buy_fill self (reverse (sorted (filled_buys self (low c)))) in
  let self :=
    foldl (sell_fill (ts c)) self (sorted (filled_sells self (high c))) in
  let current_equity :=
    fadd (cash self) (fmul (base_asset_qty self) (close c)) in
  {|
    params_of := params_of self;
    base_asset_qty := base_asset_qty self;
    cash := cash self;
    equity_curve := equity_curve self ++ [(ts c, current_equity)];
    trades := trades self;
    data := data self;
    grid_spacing_factor := grid_spacing_factor self;
    quote_qty_per_grid := quote_qty_per_grid self;
    max_grids := max_grids self;
    buy_orders := buy_orders self;
    sell_orders := sell_orders self
  |}.

(** [drop_duplicates(subset='ts')]: the first row of each timestamp. *)
Fixpoint drop_duplicates (seen : list Z) (rows : list (Z * num))
    : list (Z * num) :=
  match rows with
  | [] => []
  | (t, v) :: rows' =>
      if bool_decide (t ∈ seen) then drop_duplicates seen rows'
      else (t, v) :: drop_duplicates (t :: seen) rows'
  end.

(** [get_continuous_results] *)
Definition get_continuous_results (self : grid)
    : list (backtest_engine.trade num) * series :=
  (trades self, drop_duplicates [] (equity_curve self)).

(** The grid strategy as the strategy object of
    [run_continuous_backtest]. *)
Definition as_continuous_strategy (p : grid_params)
    : backtest_engine.continuous_strategy grid num := {|
  backtest_engine.init_continuous_backtest := init_continuous_backtest p;
  backtest_engine.process_candle := process_candle;
  backtest_engine.get_continuous_results := get_continuous_results
|}.

End strategy_library.

(** ** core/engine_runner.py *)
Module engine_runner.

(** [s - initial_capital_per_test] *)
Definition delta (initial_capital_per_test : num) (s : series) : series :=
  (fun p => (p.1, fsub p.2 initial_capital_per_test)) <$> s.

(** The row index of [pd.concat(..., axis=1)]: the outer join of the
    curves' timestamp indexes, ascending. *)
Definition union_index (curves : list series) : list Z :=
  merge_sort Z.le
    (remove_dups (concat ((fun s : series => fst <$> s) <$> curves))).

(** The entry of a column at a row label; not-a-number where the series
    has no such label. *)
Fixpoint value_at (s : series) (t : Z) : num :=
  match s with
  | [] => NaN
  | (t', v) :: s' => if bool_decide (t' = t) then v else value_at s' t
  end.

(** [ffill()] down a column, and [fillna(0)]. *)
Fixpoint ffill_from (last_valid : num) (col : list num) : list num :=
  match col with
  | [] => []
  | x :: col' =>
      let y := if isnan x then last_valid else x in
      y :: ffill_from y col'
  end.
Definition ffill (col : list num) : list num := ffill_from NaN col.
Definition fillna0 (col : list num) : list num :=
  (fun x => if isnan x then ofZ 0 else x) <$> col.

(** [_aggregate_curves] *)
Definition _aggregate_curves (series_list : list series)
    (initial_capital_per_test total_initial_capital : num) : series :=
  match series_list with
  | [] => []
  | _ :: _ =>
      let deltas := delta initial_capital_per_test <$> series_list in
      let index := union_index deltas in
      let combined_deltas_df :=
        (fun d => (fun t => value_at d t) <$> index) <$> deltas in
      let filled_deltas_df :=
        (fun col => fillna0 (ffill col)) <$> combined_deltas_df in
      imap (fun j t =>
              let total_delta :=
                pd_sum ((fun col => col !!! j) <$> filled_deltas_df) in
              (t, fadd total_delta total_initial_capital))
           index
  end.

(** The portfolio curve of [_aggregate_and_save_report] over the equity
    curves of the individual tests. *)
Definition portfolio_equity (curves : list series)
    (initial_capital_per_test : num) : series :=
  let num_tests := length curves in
  let total_initial_capital :=
    fmul initial_capital_per_test (ofnat num_tests) in
  _aggregate_curves curves initial_capital_per_test total_initial_capital.

End engine_runner.

(** ** Vocabulary of the statements *)

(** The shape of a moving-average output: a warm-up prefix of [w - 1]
    not-a-number markers, then defined (finite) numbers only. *)
Definition warmup_shape (w : nat) (out : list num) : Prop :=
  (forall i, (i < w - 1)%nat -> out !! i = Some NaN) /\
  (forall i, (w - 1 <= i < length out)%nat -> exists q, out !! i = Some (Fin q)).

(** An array of defined numbers. *)
Definition all_finite (l : list num) : Prop :=
  Forall (fun x => is_fin x = true) l.

(** A trade closed at a loss, and one closed at a gain; a trade whose
    P&L is exactly zero is neither. *)
Definition strictly_losing {P} (t : backtest_engine.trade P) : Prop :=
  fltb (backtest_engine.pnl_value t) (ofZ 0) = true.
Definition winning {P} (t : backtest_engine.trade P) : Prop :=
  fgtb (backtest_engine.pnl_value t) (ofZ 0) = true.

(** A trade with a given P&L, for the examples. *)
Definition trade_with_pnl (v : num) : backtest_engine.trade unit :=
  backtest_engine.Trade tt 0 (ofZ 1) (ofZ 0) v "Signal".

(** A run that ended in an exception. *)
Definition raised {A} (r : result A) : Prop := exists e, r = Raise e.

(** The take-profit condition as the simulator tests it,
    [tp_price and price >= tp_price]: the strategy names a take-profit
    price (not [None]; Python's truth test also turns down a price of
    exactly zero) and the close has reached it. *)
Definition take_profit_hit (strat : base_strategy.strategy) (i : nat)
    (price : num) (posn : base_strategy.position) : Prop :=
  exists tp, base_strategy.get_take_profit_price strat i posn = Some tp /\
    truthy tp = true /\ fgeb price tp = true.

(** The stop breach, tested on the position the trailing-stop update
    returns. *)
Definition stop_hit (strat : base_strategy.strategy) (i : nat)
    (price : num) (posn : base_strategy.position) : Prop :=
  fleb price (base_strategy.stop_price
                (base_strategy.update_trailing_stop strat i price posn)) = true.

(** A strategy with a take-profit ten above the entry price. *)
Definition fixed_tp_strategy : base_strategy.strategy := {|
  base_strategy.get_entry_signal := fun _ => false;
  base_strategy.get_exit_signal := fun _ _ => Some "Signal";
  base_strategy.get_stop_loss_price := fun _ entry => fmul entry (ofQ 9 10);
  base_strategy.get_take_profit_price :=
    fun _ p => Some (fadd (base_strategy.entry_price p) (ofZ 10));
  base_strategy.update_trailing_stop := fun _ _ p => p
|}.

(** A table of [n] hourly candles that all trade at [price]. *)
Definition flat_candles (n : nat) (price : num) : list candle :=
  (fun k => Candle (3600 * Z.of_nat k) price price price price (ofZ 1))
    <$> seq 0 n.

(** An open position entered at [e] with its stop at [s]. *)
Definition open_position (e s : num) : base_strategy.position :=
  base_strategy.Position true e s (ofZ 1) e (Some 0%Z).

(** A configuration with the given start date and warm-up only. *)
Definition config_with (start_date : Z) (warmup : option Z) : config :=
  Config (ofZ 1000) start_date warmup 168 500 (ofZ 1) (ofZ 3) 25 None
    [10%Z] [90%Z] [10%Z] [ofZ 1].

(** A stop that was kept or raised, never lowered. *)
Definition not_lowered (before after : num) : Prop :=
  after = before \/ fltb before after = true.

(** The trailing-stop update of the optimizer applied candle after
    candle to an open position; a candle is an index and its close. *)
Definition trail_through (cfg : config) (inds : gmap string (list num))
    (posn : backtest_engine.lposition) (candles : list (nat * num))
    : backtest_engine.lposition :=
  foldl (fun p c => dynamic_momentum_optimizer.update_trailing_stop
                      cfg inds c.1 c.2 p) posn candles.

(** An open legacy position and its volatility array, for the examples:
    entered at 100 with the stop at 90 and a multiplier of 2. *)
Definition example_lposition : backtest_engine.lposition :=
  backtest_engine.LPosition true (ofZ 100) (ofZ 90) (ofZ 1) (ofZ 100)
    (Some (10%Z, 90%Z, 10%Z, ofZ 2)) (Some 0%Z).

Definition example_indicators : gmap string (list num) :=
  {[ "atr_10" := [ofZ 1; ofZ 1; ofZ 1] ]}.

(** A fast line that crosses above the slow one at index 1 and back
    below it at index 2. *)
Definition cross_fast : list num := [ofZ 1; ofZ 3; ofZ 1].
Definition cross_slow : list num := [ofZ 2; ofZ 2; ofZ 2].
Definition unit_atr : list num := [ofZ 1; ofZ 1; ofZ 1].

(** ** The simplified crossover system
    What the parameter scorer is specified to simulate, written from the
    specification and not from the kernel: a long-only system that
    enters on a bullish cross of the fast line over the slow one with a
    stop one ATR multiple below the entry, trails the stop behind the
    price once the gain exceeds the trigger, and leaves on a stop breach
    or a bearish cross.  An index with an undefined indicator reading is
    skipped.  Every closed trade yields its fractional return. *)
Module crossover_system.

(** What the system reads at one index. *)
Record reading : Type := Reading {
  fast_before : num;
  slow_before : num;
  fast_now : num;
  slow_now : num;
  atr_now : num;
  price_now : num
}.

(** Out of the market, or in it with an entry price and a stop. *)
Inductive phase : Type :=
  | Flat
  | Long (entry stop : num).

Definition undefined (r : reading) : bool :=
  isnan (fast_now r) || isnan (slow_now r) || isnan (fast_before r)
  || isnan (slow_before r) || isnan (atr_now r).

Definition bullish_cross (r : reading) : bool :=
  fltb (fast_before r) (slow_before r) && fgtb (fast_now r) (slow_now r).

Definition bearish_cross (r : reading) : bool :=
  fgtb (fast_before r) (slow_before r) && fltb (fast_now r) (slow_now r).

(** The stop an ATR multiple below the current price. *)
Definition atr_stop (mult : num) (r : reading) : num :=
  fsub (price_now r) (fmul (atr_now r) mult).

(** The stop after trailing: raised to the ATR stop of the current price
    once the gain exceeds the trigger, never lowered. *)
Definition trailed_stop (mult trigger : num) (r : reading)
    (entry stop : num) : num :=
  if fgtb (fsub (price_now r) entry) (fmul (fmul (atr_now r) mult) trigger)
     && fgtb (atr_stop mult r) stop
  then atr_stop mult r else stop.

(** One index: the phase after it and, if it closed the trade, the
    fractional return of that trade. *)
Definition step (mult trigger : num) (ph : phase) (r : reading)
    : phase * option num :=
  if undefined r then (ph, None)
  else
    match ph with
    | Flat =>
        if bullish_cross r then (Long (price_now r) (atr_stop mult r), None)
        else (Flat, None)
    | Long entry stop =>
        let stop := trailed_stop mult trigger r entry stop in
        if fltb (price_now r) stop || bearish_cross r
        then (Flat, Some (fdiv (fsub (price_now r) entry) entry))
        else (Long entry stop, None)
    end.

(** The returns of the trades closed over a sequence of readings, in the
    order they were closed; a trade still open at the end yields none. *)
Fixpoint returns (mult trigger : num) (ph : phase) (rs : list reading)
    : list num :=
  match rs with
  | [] => []
  | r :: rs' =>
      let '(ph', closed) := step mult trigger ph r in
      option_list closed ++ returns mult trigger ph' rs'
  end.

(** Gross profit: the sum of the positive returns.  Gross loss: the sum
    of the others, each counted with its sign reversed. *)
Definition gross_profit (rets : list num) : num :=
  np_sum (filter (fun x => fgtb x (ofZ 0) = true) rets).

Definition gross_loss (rets : list num) : num :=
  np_sum (fneg <$> filter (fun x => fgtb x (ofZ 0) = false) rets).

(** The readings of the index range the scorer is given: the indices
    [start + 1 .. end - 1] of the four arrays, negative indices counting
    from the end. *)
Definition at_index (l : list num) (i : Z) : num :=
  default NaN (py_index l i).

Definition reading_at (fma sma atr close : list num) (i : Z) : reading :=
  Reading (at_index fma (i - 1)) (at_index sma (i - 1))
    (at_index fma i) (at_index sma i) (at_index atr i) (at_index close i).

Definition readings (fma sma atr close : list num) (start end_ : Z)
    : list reading :=
  reading_at fma sma atr close <$> seqZ (start + 1) (end_ - (start + 1)).

End crossover_system.

(** The number of distinct pending price levels of the grid, buy side
    plus sell side. *)
Definition pending_levels (self : strategy_library.grid) : nat :=
  size (strategy_library.buy_orders self) +
  size (strategy_library.sell_orders self).

(** The grid of the examples: four levels, 1% apart, a capital of 1000;
    the market opens at 100 and the next candle dips to 99. *)
Definition example_grid_params : strategy_library.grid_params :=
  strategy_library.GridParams (ofZ 1000) 4 (ofZ 1).

Definition example_grid_data : list candle :=
  [ Candle 0 (ofZ 100) (ofZ 100) (ofZ 100) (ofZ 100) (ofZ 1);
    Candle 3600 (ofZ 99) (ofQ 995 10) (ofZ 99) (ofQ 992 10) (ofZ 1) ].

(** A curve with strictly increasing timestamps and defined values. *)
Definition well_formed_curve (s : series) : Prop :=
  StronglySorted (fun p q : Z * num => (p.1 < q.1)%Z) s /\
  all_finite (snd <$> s).

(** The value a curve had at its last timestamp not after [t]. *)
Definition last_value (s : series) (t : Z) : option num :=
  snd <$> last (filter (fun p : Z * num => (p.1 <= t)%Z) s).

(** The delta a curve contributes at [t], in the words of the spec: its
    last value not after [t], less the per-test capital; nothing before
    the curve starts. *)
Definition carried_delta (C : num) (s : series) (t : Z) : num :=
  match last_value s t with
  | Some v => fsub v C
  | None => ofZ 0
  end.

(** The portfolio value at [t], in the words of the spec: the carried
    deltas of all curves, plus N times the per-test capital. *)
Definition portfolio_value (curves : list series) (C : num) (t : Z) : num :=
  fadd (np_sum ((fun s => carried_delta C s t) <$> curves))
       (fmul C (ofnat (length curves))).

(** Two daily curves that start at 1000; the second is a day shorter. *)
Definition curve_up : series :=
  [(0%Z, ofZ 1000); (86400%Z, ofZ 1050); (172800%Z, ofZ 1100)].
Definition curve_down : series :=
  [(0%Z, ofZ 1000); (86400%Z, ofZ 900)].




(** The state of the generic simulator after the first [k] candles of a
    run over [df] that starts at index [start] with capital [C]. *)
Definition generic_state_after (strat : base_strategy.strategy)
    (df : list candle) (start : nat) (C : num) (k : nat)
    : backtest_engine.gstate :=
  foldl (backtest_engine.generic_step strat df start)
    (backtest_engine.GState C backtest_engine.flat []
       (replicate (length df - start) C))
    (seq start k).

(** A strategy whose trailing-stop update touches nothing but the stop
    price, as every strategy of the library does. *)
Definition only_moves_stop (strat : base_strategy.strategy) : Prop :=
  forall i price p,
    let p' := base_strategy.update_trailing_stop strat i price p in
    base_strategy.in_pos p' = base_strategy.in_pos p /\
    base_strategy.entry_price p' = base_strategy.entry_price p /\
    base_strategy.qty p' = base_strategy.qty p /\
    base_strategy.value p' = base_strategy.value p /\
    base_strategy.entry_time p' = base_strategy.entry_time p.

(** A table whose timestamps strictly increase. *)
Definition increasing_time (df : list candle) : Prop :=
  StronglySorted Z.lt (ts <$> df).

(** A strategy that enters whenever it is flat and exits at every
    candle, for the examples. *)
Definition churn_strategy : base_strategy.strategy := {|
  base_strategy.get_entry_signal := fun _ => true;
  base_strategy.get_exit_signal := fun _ _ => Some "Signal";
  base_strategy.get_stop_loss_price := fun _ entry => fmul entry (ofQ 9 10);
  base_strategy.get_take_profit_price := fun _ _ => None;
  base_strategy.update_trailing_stop := fun _ _ p => p
|}.

(** Hourly candles that open, peak, bottom and close at the given
    prices, one candle per price. *)
Definition candles_at (closes : list num) : list candle :=
  imap (fun k p => Candle (3600 * Z.of_nat k) p p p p (ofZ 1)) closes.

(** Trades that follow one another in time from [lo] on: each is entered
    no earlier than the previous one was closed (or than [lo]) and is
    closed strictly after its entry. *)
Fixpoint trades_in_sequence (lo : Z)
    (l : list (backtest_engine.trade base_strategy.position)) : Prop :=
  match l with
  | [] => True
  | t :: l' =>
      (exists te,
         base_strategy.entry_time (backtest_engine.trade_position t) = Some te /\
         (lo <= te)%Z /\ (te < backtest_engine.exit_time t)%Z) /\
      trades_in_sequence (backtest_engine.exit_time t) l'
  end.

(** A configuration whose re-optimization interval is zero. *)
Definition zero_interval_config : config :=
  Config (ofZ 1000) 0 (Some 1%Z) 0 2 (ofZ 1) (ofZ 3) 25 None
    [10%Z] [90%Z] [10%Z] [ofZ 2].

(** A configuration with another re-optimization interval. *)
Definition with_interval (cfg : config) (every : Z) : config :=
  Config (INITIAL_CAPITAL cfg) (BACKTEST_START_DATE cfg)
    (TECHNICAL_WARMUP_PERIOD cfg) every (OPTIMIZATION_LOOKBACK cfg)
    (TRAIL_TRIGGER_MULT cfg) (CONFIDENCE_THRESHOLD cfg)
    (TOP_PARAM_MEMORY cfg) (EXPLORATION_RATE cfg) (FAST_MA_PERIODS cfg)
    (SLOW_MA_PERIODS cfg) (ATR_PERIODS cfg) (ATR_MULTIPLIERS cfg).

(** The optimizer of the examples as a strategy object, with a random
    source that always draws 1 and a sort that leaves the order. *)
Definition example_legacy_strategy
    : backtest_engine.legacy_strategy
        (dynamic_momentum_optimizer.optimizer unit) :=
  dynamic_momentum_optimizer.as_legacy_strategy unit
    (fun r => (ofZ 1, r)) (fun r _ => (None, r))
    (fun l => seq 0 (length l)).

(** A table whose timestamps never decrease. *)
Definition ordered_time (df : list candle) : Prop :=
  StronglySorted Z.le (ts <$> df).

(** The sum of the counts of a [value_counts] dict. *)
Definition count_total (m : gmap string nat) : nat :=
  map_fold (fun _ n acc => (n + acc)%nat) 0%nat m.

(** An equity curve whose every point is a finite positive amount. *)
Definition positive_curve (equity : series) : Prop :=
  Forall (fun p => exists q : Qc, p.2 = Fin q /\ (0 < q)%Qc) equity.

(** A number reported as a percentage between 0 and 100. *)
Definition is_percentage (x : num) : Prop :=
  exists q : Qc, x = Fin q /\ (0 <= q)%Qc /\ (q <= Q2Qc (inject_Z 100))%Qc.

(** The slope columns of a parameter tuple as the indicator factory
    builds them for periods of two or more: present, [n] long and
    not-a-number throughout. *)
Definition undefined_slopes (inds : gmap string (list num)) (n : nat)
    (p : params) : Prop :=
  inds !! indicator_key "slope" p.1.1.1 = Some (replicate n NaN) /\
  inds !! indicator_key "slope" p.1.1.2 = Some (replicate n NaN).

(** An indicator dict with two undefined slope columns. *)
Definition nan_slope_indicators : gmap string (list num) :=
  {[ indicator_key "slope" 10 := replicate 5 NaN;
     indicator_key "slope" 90 := replicate 5 NaN ]}.

(** A configuration that looks two candles back when it re-optimizes,
    and an optimizer over the one-tuple grid and the crossing lines. *)
Definition short_lookback_config : config :=
  Config (ofZ 1000) 0 None 168 2 (ofZ 1) (ofZ 3) 25 None
    [10%Z] [90%Z] [10%Z] [ofZ 2].

Definition example_optimizer : dynamic_momentum_optimizer.optimizer unit :=
  dynamic_momentum_optimizer.Optimizer unit short_lookback_config ∅ []
    [(10%Z, 90%Z, 10%Z, ofZ 2)]
    ([cross_fast], [cross_slow], [unit_atr]) tt.

(** A finite positive number, and a finite number that is not negative. *)
Definition positive (x : num) : Prop :=
  exists q : Qc, x = Fin q /\ (0 < q)%Qc.



(** A curve over the same three days as [curve_up]. *)
Definition curve_dip : series :=
  [(0%Z, ofZ 1000); (86400%Z, ofZ 950); (172800%Z, ofZ 1030)].

(** A number rounded to two places: a whole number of hundredths less
    than one hundredth away from it; an infinity or not-a-number is
    handed back.  Both numpy's and Python's [round(x, 2)] answer to this,
    whichever way they settle a number next to a tie. *)
Definition rounded_to_hundredths (x y : num) : Prop :=
  match x with
  | Fin q =>
      exists k : Z, y = fdiv (ofZ k) (ofZ 100) /\
        (Qabs (this q * 100 - inject_Z k) < 1)%Q
  | _ => y = x
  end.

(** What the account of a generic run is worth between two trades: the
    proceeds of the last closed trade, its quantity at its exit price,
    or the initial capital before the first. *)
Definition account (C : num)
    (trades : list (backtest_engine.trade base_strategy.position)) : num :=
  match last trades with
  | Some t =>
      fmul (base_strategy.qty (backtest_engine.trade_position t))
        (backtest_engine.exit_price t)
  | None => C
  end.

(** A trade as the generic simulator books it, given the trades closed
    before it: the whole account was put in, the quantity is that value
    at the entry price, the P&L the proceeds less the value, and the
    percentage the P&L over the value. *)
Definition booked (C : num)
    (earlier : list (backtest_engine.trade base_strategy.position))
    (t : backtest_engine.trade base_strategy.position) : Prop :=
  let p := backtest_engine.trade_position t in
  base_strategy.value p = account C earlier /\
  fgtb (base_strategy.value p) (ofZ 0) = true /\
  base_strategy.qty p
  = fdiv (base_strategy.value p) (base_strategy.entry_price p) /\
  backtest_engine.pnl_value t
  = fsub (fmul (base_strategy.qty p) (backtest_engine.exit_price t))
      (base_strategy.value p) /\
  backtest_engine.pnl_percent t
  = fmul (fdiv (backtest_engine.pnl_value t) (base_strategy.value p))
      (ofZ 100).

(* ================================================================== *)
(** * Part II: properties                                               *)
(* ================================================================== *)

(** ** Arithmetic of the idealised floats *)
Section NumFacts.

Lemma this_plus (a b : Qc) : (this (a + b) == this a + this b)%Q.
Proof. simpl. apply Qred_correct. Qed.

Lemma this_mult (a b : Qc) : (this (a * b) == this a * this b)%Q.
Proof. simpl. apply Qred_correct. Qed.

Lemma this_opp (a : Qc) : (this (- a) == - this a)%Q.
Proof. simpl. apply Qred_correct. Qed.

Lemma this_minus (a b : Qc) : (this (a - b) == this a - this b)%Q.
Proof. unfold Qcminus. rewrite this_plus, this_opp. reflexivity. Qed.

Lemma this_inv (a : Qc) : (this (/ a) == / this a)%Q.
Proof. simpl. apply Qred_correct. Qed.

Lemma this_div (a b : Qc) : (this (a / b) == this a / this b)%Q.
Proof. unfold Qcdiv. rewrite this_mult, this_inv. reflexivity. Qed.

Lemma this_Q2Qc (q : Q) : (this (Q2Qc q) == q)%Q.
Proof. simpl. apply Qred_correct. Qed.

Lemma Qc_eq_iff (a b : Qc) : a = b <-> (this a == this b)%Q.
Proof. split; [intros ->; reflexivity | apply Qc_is_canon]. Qed.

End NumFacts.

(** Turns a goal over canonical rationals into one over [Q], where
  [lra], [nra] and [field] apply. *)
Ltac qc2q :=
repeat match goal with
| H : @eq Qc _ _ |- _ => apply Qc_eq_iff in H
| H : ~ @eq Qc _ _ |- _ => rewrite Qc_eq_iff in H
| |- @eq Qc _ _ => apply Qc_is_canon
| |- ~ @eq Qc _ _ => rewrite Qc_eq_iff
end;
unfold Qclt, Qcle in *;
repeat (rewrite ?this_plus, ?this_minus, ?this_mult, ?this_opp,
          ?this_div, ?this_inv, ?this_Q2Qc in * ).

Section NumOps.

Lemma ofnat_pos (n : nat) : n <> 0%nat ->
  (0 < Q2Qc (inject_Z (Z.of_nat n)))%Qc.
Proof.
  intros Hn. qc2q. change 0%Q with (inject_Z 0).
  rewrite <- Zlt_Qlt. lia.
Qed.

Lemma ofnat_nonzero (n : nat) : n <> 0%nat ->
  Q2Qc (inject_Z (Z.of_nat n)) <> 0%Qc.
Proof.
  intros Hn Heq. pose proof (ofnat_pos n Hn) as Hp.
  rewrite Heq in Hp. by apply Qclt_not_eq in Hp.
Qed.

Lemma fdiv_fin (a b : Qc) : b <> 0%Qc -> fdiv (Fin a) (Fin b) = Fin (a / b).
Proof. intros Hb. unfold fdiv. by destruct (decide (b = 0%Qc)). Qed.

Lemma fdiv_ofnat (a : Qc) (n : nat) : n <> 0%nat ->
  exists q, fdiv (Fin a) (ofnat n) = Fin q.
Proof.
  intros Hn. eexists. unfold ofnat, ofZ.
  apply fdiv_fin, ofnat_nonzero, Hn.
Qed.

Lemma is_fin_inv (x : num) : is_fin x = true -> exists q, x = Fin q.
Proof. destruct x; [eauto | done..]. Qed.

Lemma foldl_fadd_fin (l : list num) (a : Qc) :
  Forall (fun x => is_fin x = true) l -> exists q, foldl fadd (Fin a) l = Fin q.
Proof.
  intros Hl. revert a. induction Hl as [|x l Hx _ IH]; intros a; simpl.
  - eauto.
  - apply is_fin_inv in Hx as [b ->]. apply IH.
Qed.

Lemma np_sum_fin (l : list num) :
  Forall (fun x => is_fin x = true) l -> exists q, np_sum l = Fin q.
Proof. apply foldl_fadd_fin. Qed.

Lemma lookup_total_fin (l : list num) (i : nat) :
  Forall (fun x => is_fin x = true) l -> (i < length l)%nat ->
  exists q, l !!! i = Fin q.
Proof.
  intros Hl Hi. apply is_fin_inv.
  destruct (lookup_lt_is_Some_2 l i Hi) as [x Hx].
  rewrite (list_lookup_total_correct _ _ _ Hx).
  exact (Forall_lookup_1 _ _ _ _ Hl Hx).
Qed.

End NumOps.

(** ** Loops over an index range *)
Section Loops.
Context {S : Type}.

(** An invariant indexed by the loop counter holds after the loop. *)
Lemma foldl_seq_inv (P : nat -> S -> Prop) (f : S -> nat -> S)
    (k m : nat) (s : S) :
  P k s ->
  (forall i s, (k <= i < k + m)%nat -> P i s -> P (Datatypes.S i) (f s i)) ->
  P (k + m)%nat (foldl f s (seq k m)).
Proof.
  revert k s. induction m as [|m IH]; intros k s H0 Hstep; simpl.
  - by rewrite Nat.add_0_r.
  - replace (k + Datatypes.S m)%nat with (Datatypes.S k + m)%nat by lia.
    apply IH.
    + apply Hstep; [lia | done].
    + intros i s' Hi. apply Hstep. lia.
Qed.


End Loops.

(** ** Moving averages (claim C7) *)
Section MovingAverages.
Import indicators.

Lemma length_np_empty junk n : length (np_empty junk n) = n.
Proof. unfold np_empty. by rewrite length_fmap, length_seq. Qed.

Lemma length_fill_nan k out : length (fill_nan k out) = length out.
Proof.
  unfold fill_nan. rewrite length_app, length_replicate, length_drop. lia.
Qed.

Lemma lookup_fill_nan k out j :
  (j < k)%nat -> (j < length out)%nat -> fill_nan k out !! j = Some NaN.
Proof.
  intros Hk Hj. unfold fill_nan.
  rewrite lookup_app_l by (rewrite length_replicate; lia).
  apply lookup_replicate_2. lia.
Qed.

(** What the running-sum loop of the SMA maintains. *)
Definition sma_inv (arr : list num) (w1 i : nat) (st : num * list num) : Prop :=
  length st.2 = length arr /\
  (exists q, st.1 = Fin q) /\
  (forall j, (j < w1)%nat -> st.2 !! j = Some NaN) /\
  (forall j, (w1 <= j < i)%nat -> exists q, st.2 !! j = Some (Fin q)).

Lemma sma_step_inv arr w1 i st :
  all_finite arr -> (S w1 <= i < length arr)%nat ->
  sma_inv arr w1 i st -> sma_inv arr w1 (S i) (sma_step arr (S w1) st i).
Proof.
  intros Hfin Hi (Hlen & [c Hc] & Hnan & Hdef).
  destruct (lookup_total_fin arr i Hfin) as [a Ha]; [lia|].
  destruct (lookup_total_fin arr (i - S w1) Hfin) as [b Hb]; [lia|].
  destruct (fdiv_ofnat (c + (a + - b)) (S w1)) as [v Hv]; [lia|].
  unfold sma_step, sma_inv. rewrite Hc, Ha, Hb. cbn [fst snd fsub fneg fadd].
  rewrite length_insert. split_and!.
  - done.
  - eauto.
  - intros j Hj. rewrite list_lookup_insert_ne by lia. by apply Hnan.
  - intros j Hj. destruct (decide (j = i)) as [->|Hne].
    + rewrite list_lookup_insert_eq by lia. rewrite Hv. eauto.
    + rewrite list_lookup_insert_ne by lia. apply Hdef. lia.
Qed.

Lemma sma_defined junk arr w :
  (1 <= w <= length arr)%nat -> all_finite arr ->
  exists out, _sma_numba junk arr w = Ok out /\
    length out = length arr /\ warmup_shape w out.
Proof.
  intros [Hw Hn] Hfin. destruct w as [|w1]; [lia|].
  unfold _sma_numba. rewrite bool_decide_eq_false_2 by lia.
  eexists. split; [reflexivity|].
  destruct (np_sum_fin (take (S w1) arr)) as [c Hc].
  { by apply Forall_take. }
  destruct (fdiv_ofnat c (S w1)) as [v Hv]; [lia|].
  rewrite Hc, Hv.
  pose proof (foldl_seq_inv (sma_inv arr w1) (sma_step arr (S w1))
                (S w1) (length arr - S w1)
                (Fin c, <[w1:=Fin v]> (fill_nan w1 (np_empty junk (length arr)))))
    as Hloop.
  replace (S w1 + (length arr - S w1))%nat with (length arr) in Hloop by lia.
  destruct Hloop as (Hlen & _ & Hnan & Hdef).
  - unfold sma_inv. cbn [fst snd].
    rewrite length_insert, length_fill_nan, length_np_empty. split_and!.
    + done.
    + eauto.
    + intros j Hj. rewrite list_lookup_insert_ne by lia.
      apply lookup_fill_nan; [done|]. rewrite length_np_empty. lia.
    + intros j Hj. assert (j = w1) as -> by lia.
      rewrite list_lookup_insert_eq; [eauto|].
      rewrite length_fill_nan, length_np_empty. lia.
  - intros i st Hi Hinv. apply sma_step_inv; [done | lia | done].
  - split; [exact Hlen|]. split.
    + intros i Hi. apply Hnan. lia.
    + intros i Hi. apply Hdef. rewrite Hlen in Hi. lia.
Qed.










(** The warm-up prefix needs no assumption on the input: the loops write
    at index [w - 1] and later only. *)
Definition prefix_inv (n w1 : nat) (out : list num) : Prop :=
  length out = n /\ forall j, (j < w1)%nat -> out !! j = Some NaN.

Lemma prefix_inv_insert n w1 i x out :
  (w1 <= i)%nat -> prefix_inv n w1 out -> prefix_inv n w1 (<[i:=x]> out).
Proof.
  intros Hi [Hlen Hnan]. split; [by rewrite length_insert|].
  intros j Hj. rewrite list_lookup_insert_ne by lia. by apply Hnan.
Qed.

Lemma prefix_inv_init junk n w1 :
  (w1 < n)%nat -> prefix_inv n w1 (fill_nan w1 (np_empty junk n)).
Proof.
  intros Hw. split; [by rewrite length_fill_nan, length_np_empty|].
  intros j Hj. apply lookup_fill_nan; [done|]. rewrite length_np_empty. lia.
Qed.


Lemma ema_prefix junk arr w :
  (1 <= w <= length arr)%nat ->
  exists out, _ema_numba junk arr w = Ok out /\
    length out = length arr /\
    forall j, (j < w - 1)%nat -> out !! j = Some NaN.
Proof.
  intros [Hw Hn]. destruct w as [|w1]; [lia|].
  unfold _ema_numba. rewrite bool_decide_eq_false_2 by lia.
  eexists. split; [reflexivity|].
  set (m := fdiv _ _). set (init := <[w1:=_]> _).
  pose proof (foldl_seq_inv (fun _ out => prefix_inv (length arr) w1 out)
                (ema_step arr m) (S w1) (length arr - S w1) init) as Hloop.
  destruct Hloop as [Hlen Hnan].
  - subst init. apply prefix_inv_insert; [lia|]. apply prefix_inv_init. lia.
  - intros i out Hi Hinv. unfold ema_step.
    apply prefix_inv_insert; [lia | done].
  - split; [done|]. intros j Hj. apply Hnan. lia.
Qed.




End MovingAverages.

Section MovingAverageRounding.
Import PrimFloat.

(** On binary64 floats defined inputs do not guarantee a defined result:
    the window sum of two entries of 1e308 overflows, and the first
    defined entry of the SMA is an infinity. *)
Lemma sma_overflow_binary64 :
  PrimFloat.is_finite 0x1.1ccf385ebc8ap+1023%float = true /\
  indicators.binary64.sma_first
    0x1.1ccf385ebc8ap+1023%float 0x1.1ccf385ebc8ap+1023%float = PrimFloat.infinity.
Proof. split; vm_compute; reflexivity. Qed.

End MovingAverageRounding.

(** ** Sums of defined numbers *)
Section Sums.

Lemma ofZ_0 : ofZ 0 = Fin 0%Qc.
Proof. reflexivity. Qed.

Lemma fltb_fin_true (a b : Qc) : fltb (Fin a) (Fin b) = true <-> (a < b)%Qc.
Proof. simpl. apply bool_decide_eq_true. Qed.

Lemma feqb_fin_true (a b : Qc) : feqb (Fin a) (Fin b) = true <-> a = b.
Proof.
  simpl. rewrite bool_decide_eq_true. split; [by intros [= ->] | by intros ->].
Qed.

Lemma fleb_fin_true (a b : Qc) : fleb (Fin a) (Fin b) = true <-> (a <= b)%Qc.
Proof.
  unfold fleb. rewrite orb_true_iff, fltb_fin_true, feqb_fin_true. split.
  - intros [Hlt | ->]; [by apply Qclt_le_weak | apply Qcle_refl].
  - intros Hle. by apply Qcle_lt_or_eq.
Qed.

Lemma foldl_fadd_Fin (a : Qc) (qs : list Qc) :
  foldl fadd (Fin a) (Fin <$> qs) = Fin (foldl Qcplus a qs).
Proof. revert a. induction qs as [|q qs IH]; intros a; simpl; [done | apply IH]. Qed.

Lemma all_finite_inv (l : list num) : all_finite l -> exists qs, l = Fin <$> qs.
Proof.
  induction 1 as [|x l Hx _ [qs ->]]; [by exists [] |].
  apply is_fin_inv in Hx as [q ->]. by exists (q :: qs).
Qed.

Lemma dropna_Fin (qs : list Qc) :
  filter (fun x => isnan x = false) (Fin <$> qs) = Fin <$> qs.
Proof.
  induction qs as [|q qs IH]; [done|]. rewrite fmap_cons.
  rewrite filter_cons_True by done. by rewrite IH.
Qed.

Lemma pd_sum_Fin (qs : list Qc) : pd_sum (Fin <$> qs) = Fin (foldl Qcplus 0%Qc qs).
Proof. unfold pd_sum, np_sum. rewrite dropna_Fin. apply foldl_fadd_Fin. Qed.

Lemma qsum_nonpos (a : Qc) (qs : list Qc) :
  Forall (fun q => (q <= 0)%Qc) qs -> (foldl Qcplus a qs <= a)%Qc.
Proof.
  intros H. revert a. induction H as [|q qs Hq _ IH]; intros a; simpl.
  - apply Qcle_refl.
  - specialize (IH (a + q)%Qc). qc2q. lra.
Qed.

Lemma qsum_neg (a : Qc) (qs : list Qc) :
  Forall (fun q => (q <= 0)%Qc) qs -> Exists (fun q => (q < 0)%Qc) qs ->
  (foldl Qcplus a qs < a)%Qc.
Proof.
  intros H. revert a. induction H as [|q qs Hq Hqs IH]; intros a Hex; simpl.
  - by apply Exists_nil in Hex.
  - apply Exists_cons in Hex as [Hneg | Hex].
    + pose proof (qsum_nonpos (a + q)%Qc qs Hqs). qc2q. lra.
    + specialize (IH (a + q)%Qc Hex). qc2q. lra.
Qed.

Lemma qsum_nonneg (a : Qc) (qs : list Qc) :
  Forall (fun q => (0 <= q)%Qc) qs -> (a <= foldl Qcplus a qs)%Qc.
Proof.
  intros H. revert a. induction H as [|q qs Hq _ IH]; intros a; simpl.
  - apply Qcle_refl.
  - specialize (IH (a + q)%Qc). qc2q. lra.
Qed.

Lemma qsum_pos (a : Qc) (qs : list Qc) :
  Forall (fun q => (0 <= q)%Qc) qs -> Exists (fun q => (0 < q)%Qc) qs ->
  (a < foldl Qcplus a qs)%Qc.
Proof.
  intros H. revert a. induction H as [|q qs Hq Hqs IH]; intros a Hex; simpl.
  - by apply Exists_nil in Hex.
  - apply Exists_cons in Hex as [Hpos | Hex].
    + pose proof (qsum_nonneg (a + q)%Qc qs Hqs). qc2q. lra.
    + specialize (IH (a + q)%Qc Hex). qc2q. lra.
Qed.

End Sums.

(** ** Rounding to two places *)

Lemma round_half_even_comp (p q : Q) :
  (p == q)%Q -> round_half_even p = round_half_even q.
Proof.
  intros H. unfold round_half_even. rewrite (Qfloor_comp _ _ H).
  assert ((p - inject_Z (Qfloor q) ?= 1 # 2)
          = (q - inject_Z (Qfloor q) ?= 1 # 2))%Q as ->; [|done].
  apply Qcompare_comp; [by rewrite H | reflexivity].
Qed.

(** On a finite number [round2] is the nearest hundredth, ties to even. *)
Lemma round2_fin (q : Qc) :
  round2 (Fin q)
  = Fin (Q2Qc (inject_Z (round_half_even (this q * 100)) / 100)).
Proof.
  unfold round2, rint, ofZ. cbn [fmul].
  rewrite (round_half_even_comp (this (q * Q2Qc (inject_Z 100)))
             (this q * 100)).
  2: { cbn [Qcmult this Q2Qc]. rewrite !Qred_correct. reflexivity. }
  rewrite fdiv_fin.
  2: { intros H. apply Qc_eq_iff in H. cbn in H. discriminate H. }
  f_equal. apply Qc_is_canon. cbn [Qcdiv Qcmult Qcinv this Q2Qc].
  rewrite !Qred_correct. reflexivity.
Qed.

Lemma round_half_even_near (q : Q) :
  (Qabs (q - inject_Z (round_half_even q)) < 1)%Q.
Proof.
  pose proof (Qfloor_le q) as Hlo. pose proof (Qlt_floor q) as Hhi.
  rewrite inject_Z_plus in Hhi. change (inject_Z 1) with 1%Q in Hhi.
  assert (Qabs (q - inject_Z (Qfloor q)) < 1)%Q as Hdown.
  { apply Qabs_Qlt_condition. split; lra. }
  assert ((1 # 2 <= q - inject_Z (Qfloor q))%Q ->
          Qabs (q - inject_Z (Qfloor q + 1)) < 1)%Q as Hup.
  { intros Hhalf. rewrite inject_Z_plus. change (inject_Z 1) with 1%Q.
    apply Qabs_Qlt_condition. split; lra. }
  unfold round_half_even.
  destruct (Qcompare_spec (q - inject_Z (Qfloor q)) (1 # 2)) as [He|Hl|Hg].
  - destruct (Z.even (Qfloor q)); [done|]. apply Hup. rewrite He. apply Qle_refl.
  - done.
  - apply Hup. by apply Qlt_le_weak.
Qed.

Lemma round2_rounded (x : num) : rounded_to_hundredths x (round2 x).
Proof.
  destruct x as [q| | |]; [|done..].
  unfold rounded_to_hundredths, round2, rint, ofZ at 1. cbn [fmul].
  eexists. split; [reflexivity|].
  rewrite (round_half_even_comp (this (q * Q2Qc (inject_Z 100)))
             (this q * 100)).
  2: { cbn [Qcmult this Q2Qc]. rewrite !Qred_correct. reflexivity. }
  apply round_half_even_near.
Qed.

(** ** The profit factor (claim C4) *)
Section ProfitFactor.
Import backtest_engine.
Context {P : Type}.
Implicit Types trades : list (trade P).

Lemma pnl_wins trades (qs : list Qc) :
  pnl_value <$> trades = Fin <$> qs ->
  pnl_value <$> wins trades = Fin <$> filter (fun q => (0 < q)%Qc) qs.
Proof.
  revert qs. induction trades as [|t trades IH]; intros [|q qs] Heq; try done.
  rewrite !fmap_cons in Heq. injection Heq as Ht Hrest.
  unfold wins in *. destruct (decide (0 < q)%Qc) as [Hq|Hq].
  - rewrite !filter_cons_True; [|done|].
    + rewrite !fmap_cons, Ht. f_equal. by apply IH.
    + unfold fgtb. rewrite Ht, ofZ_0. by apply fltb_fin_true.
  - rewrite !filter_cons_False; [by apply IH|done|].
    unfold fgtb. rewrite Ht, ofZ_0, fltb_fin_true. done.
Qed.

Lemma pnl_losses trades (qs : list Qc) :
  pnl_value <$> trades = Fin <$> qs ->
  pnl_value <$> losses trades = Fin <$> filter (fun q => (q <= 0)%Qc) qs.
Proof.
  revert qs. induction trades as [|t trades IH]; intros [|q qs] Heq; try done.
  rewrite !fmap_cons in Heq. injection Heq as Ht Hrest.
  unfold losses in *. destruct (decide (q <= 0)%Qc) as [Hq|Hq].
  - rewrite !filter_cons_True; [|done|].
    + rewrite !fmap_cons, Ht. f_equal. by apply IH.
    + rewrite Ht, ofZ_0. by apply fleb_fin_true.
  - rewrite !filter_cons_False; [by apply IH|done|].
    rewrite Ht, ofZ_0, fleb_fin_true. done.
Qed.

(** The profit factor in closed form, over the exact P&L values. *)
Lemma profit_factor_closed trades (qs : list Qc) :
  pnl_value <$> trades = Fin <$> qs ->
  let W := foldl Qcplus 0%Qc (filter (fun q => (0 < q)%Qc) qs) in
  let L := foldl Qcplus 0%Qc (filter (fun q => (q <= 0)%Qc) qs) in
  pd_sum (pnl_value <$> wins trades) = Fin W /\
  pd_sum (pnl_value <$> losses trades) = Fin L /\
  (L <= 0)%Qc /\ (0 <= W)%Qc /\
  profit_factor trades = if decide (L < 0)%Qc then Fin (W / - L) else PInf.
Proof.
  intros Heq W L.
  assert (pd_sum (pnl_value <$> wins trades) = Fin W) as HW.
  { rewrite (pnl_wins _ _ Heq). apply pd_sum_Fin. }
  assert (pd_sum (pnl_value <$> losses trades) = Fin L) as HL.
  { rewrite (pnl_losses _ _ Heq). apply pd_sum_Fin. }
  assert (L <= 0)%Qc as HLle.
  { apply qsum_nonpos, Forall_forall. intros q Hq.
    by apply list_elem_of_filter in Hq as [? _]. }
  assert (0 <= W)%Qc as HWge.
  { apply qsum_nonneg, Forall_forall. intros q Hq.
    apply list_elem_of_filter in Hq as [? _].
    by apply Qclt_le_weak. }
  split_and!; try done.
  unfold profit_factor. rewrite HW, HL. unfold fabs, fgtb.
  destruct (decide (L < 0)%Qc) as [Hneg|Hnn].
  - rewrite bool_decide_eq_true_2 by done. rewrite ofZ_0.
    assert (0 < - L)%Qc as Hpos by (qc2q; lra).
    rewrite (proj2 (fltb_fin_true _ _) Hpos).
    apply fdiv_fin. by apply not_eq_sym, Qclt_not_eq.
  - rewrite bool_decide_eq_false_2 by done. rewrite ofZ_0.
    destruct (fltb (Fin 0%Qc) (Fin L)) eqn:Hlt; [|done].
    apply fltb_fin_true in Hlt. exfalso. qc2q. lra.
Qed.

Lemma strictly_losing_Exists trades (qs : list Qc) :
  pnl_value <$> trades = Fin <$> qs ->
  (exists t, t ∈ trades /\ fltb (pnl_value t) (ofZ 0) = true) <->
  Exists (fun q => (q < 0)%Qc) (filter (fun q => (q <= 0)%Qc) qs).
Proof.
  intros Heq. rewrite Exists_exists. split.
  - intros (t & Ht & Hneg).
    assert (pnl_value t ∈ Fin <$> qs) as Hin.
    { rewrite <- Heq. by apply list_elem_of_fmap_2. }
    apply list_elem_of_fmap in Hin as (q & Hq & Hqin).
    rewrite Hq, ofZ_0 in Hneg. apply fltb_fin_true in Hneg.
    exists q. split; [|done].
    apply list_elem_of_filter. split; [|done].
    by apply Qclt_le_weak.
  - intros (q & Hq & Hneg).
    apply list_elem_of_filter in Hq as [_ Hq].
    assert (Fin q ∈ pnl_value <$> trades) as Hin.
    { rewrite Heq. by apply list_elem_of_fmap_2. }
    apply list_elem_of_fmap in Hin as (t & Ht & Htin).
    exists t. split; [done|]. rewrite <- Ht, ofZ_0. by apply fltb_fin_true.
Qed.

Lemma winning_Exists trades (qs : list Qc) :
  pnl_value <$> trades = Fin <$> qs ->
  (exists t, t ∈ trades /\ fgtb (pnl_value t) (ofZ 0) = true) ->
  Exists (fun q => (0 < q)%Qc) (filter (fun q => (0 < q)%Qc) qs).
Proof.
  intros Heq (t & Ht & Hpos). rewrite Exists_exists.
  assert (pnl_value t ∈ Fin <$> qs) as Hin.
  { rewrite <- Heq. by apply list_elem_of_fmap_2. }
  apply list_elem_of_fmap in Hin as (q & Hq & Hqin).
  unfold fgtb in Hpos. rewrite Hq, ofZ_0 in Hpos. apply fltb_fin_true in Hpos.
  exists q. split; [|done].
  by apply list_elem_of_filter.
Qed.

(** C4, as amended.  For every trade list whose P&L values are all
    finite numbers, with the gains the sum of the positive P&Ls and the
    loss the absolute sum of the non-positive ones: when no trade has a
    strictly negative P&L the profit factor is +infinity, winning trades
    or not; as soon as one trade has a strictly negative P&L the loss is
    positive and the profit factor is the quotient gains / loss; the same
    quotient (an IEEE division, +infinity over a zero loss) is the value
    whenever a winning trade exists.  In exact arithmetic the quotient
    over a positive loss is a finite number, so that +infinity is then
    returned only without a strictly losing trade; on binary64 floats
    the quotient itself can overflow to +infinity. *)
Theorem profit_factor_characterisation trades :
  all_finite (pnl_value <$> trades) ->
  let gains := pd_sum (pnl_value <$> wins trades) in
  let loss := fabs (pd_sum (pnl_value <$> losses trades)) in
  ((~ exists t, t ∈ trades /\ strictly_losing t) ->
     profit_factor trades = PInf) /\
  ((exists t, t ∈ trades /\ strictly_losing t) ->
     fgtb loss (ofZ 0) = true /\
     profit_factor trades = fdiv gains loss) /\
  ((exists t, t ∈ trades /\ winning t) ->
     profit_factor trades = fdiv gains loss) /\
  ((exists t, t ∈ trades /\ strictly_losing t) ->
     is_fin (profit_factor trades) = true) /\
  (profit_factor trades = PInf ->
     ~ exists t, t ∈ trades /\ strictly_losing t).
Proof.
  intros Hfin gains loss.
  destruct (all_finite_inv _ Hfin) as [qs Hqs].
  destruct (profit_factor_closed trades qs Hqs) as (HW & HL & HLle & HWge & Hpf).
  pose proof (strictly_losing_Exists trades qs Hqs) as Hlose.
  unfold strictly_losing, winning in *.
  set (W := foldl Qcplus 0%Qc (filter (fun q => (0 < q)%Qc) qs)) in *.
  set (L := foldl Qcplus 0%Qc (filter (fun q => (q <= 0)%Qc) qs)) in *.
  assert ((L < 0)%Qc <-> Exists (fun q => (q < 0)%Qc)
            (filter (fun q => (q <= 0)%Qc) qs)) as HLneg.
  { split.
    - intros Hneg. destruct (decide (Exists (fun q => (q < 0)%Qc)
        (filter (fun q => (q <= 0)%Qc) qs))) as [|Hno]; [done|].
      apply not_Exists_Forall in Hno; [|intros q; apply _].
      assert (0 <= L)%Qc as Hge.
      { apply qsum_nonneg. eapply Forall_impl; [exact Hno|].
        intros q Hq. by apply Qcnot_lt_le. }
      exfalso. qc2q. lra.
    - intros Hex. apply qsum_neg; [|done].
      apply Forall_forall. intros q Hq.
      by apply list_elem_of_filter in Hq as [? _]. }
  assert (loss = if decide (L < 0)%Qc then Fin (- L) else Fin 0%Qc) as Hloss.
  { subst loss. rewrite HL. unfold fabs. destruct (decide (L < 0)%Qc) as [Hn|Hn].
    - by rewrite bool_decide_eq_true_2.
    - rewrite bool_decide_eq_false_2 by done. f_equal.
      apply Qcle_antisym; [done | by apply Qcnot_lt_le]. }
  subst gains. rewrite HW, Hloss. clear Hloss.
  split_and!.
  - rewrite Hlose, <- HLneg, Hpf. intros Hn. by rewrite decide_False.
  - intros Hex. apply Hlose, HLneg in Hex.
    rewrite Hpf, !decide_True by done. split.
    + unfold fgtb. rewrite ofZ_0. apply fltb_fin_true. qc2q. lra.
    + symmetry. apply fdiv_fin. intros H0. qc2q. lra.
  - intros Hex. rewrite Hpf. destruct (decide (L < 0)%Qc) as [Hn|Hn].
    + symmetry. apply fdiv_fin. intros H0. qc2q. lra.
    + assert (0 < W)%Qc as HWpos.
      { apply qsum_pos; [|by eapply winning_Exists].
        apply Forall_forall. intros q Hq.
        apply list_elem_of_filter in Hq as [? _]. by apply Qclt_le_weak. }
      unfold fdiv. rewrite decide_True by done. unfold qsign.
      apply Qcgt_alt in HWpos. by rewrite HWpos.
  - intros Hex. apply Hlose, HLneg in Hex.
    by rewrite Hpf, decide_True.
  - rewrite Hlose, <- HLneg, Hpf. by destruct (decide (L < 0)%Qc).
Qed.

End ProfitFactor.

Lemma profit_factor_characterisation_witness :
  fgtb (fabs (pd_sum (backtest_engine.pnl_value <$>
                        backtest_engine.losses
                          [trade_with_pnl (ofZ 5); trade_with_pnl (ofZ 0);
                           trade_with_pnl (ofZ (-2))]))) (ofZ 0) = true /\
  backtest_engine.profit_factor
    [trade_with_pnl (ofZ 5); trade_with_pnl (ofZ 0);
     trade_with_pnl (ofZ (-2))]
  = fdiv (pd_sum (backtest_engine.pnl_value <$>
                    backtest_engine.wins
                      [trade_with_pnl (ofZ 5); trade_with_pnl (ofZ 0);
                       trade_with_pnl (ofZ (-2))]))
         (fabs (pd_sum (backtest_engine.pnl_value <$>
                          backtest_engine.losses
                            [trade_with_pnl (ofZ 5); trade_with_pnl (ofZ 0);
                             trade_with_pnl (ofZ (-2))]))).
Proof.
  apply (profit_factor_characterisation
           [trade_with_pnl (ofZ 5); trade_with_pnl (ofZ 0);
            trade_with_pnl (ofZ (-2))]).
  - repeat constructor.
  - exists (trade_with_pnl (ofZ (-2))). split; [|reflexivity].
    apply list_elem_of_In. simpl. tauto.
Defined.

(** C4 as stated fails on a list whose only trade broke even: the profit
    factor is +infinity although there is no winning trade, and it is
    not the quotient of the two sums (0/0 is not-a-number). *)
Lemma profit_factor_break_even_counterexample :
  backtest_engine.profit_factor [trade_with_pnl (ofZ 0)] = PInf /\
  backtest_engine.wins [trade_with_pnl (ofZ 0)] = [] /\
  fdiv (pd_sum (backtest_engine.pnl_value <$>
                  backtest_engine.wins [trade_with_pnl (ofZ 0)]))
       (fabs (pd_sum (backtest_engine.pnl_value <$>
                  backtest_engine.losses [trade_with_pnl (ofZ 0)]))) = NaN.
Proof. split_and!; vm_compute; reflexivity. Qed.

Section ProfitFactorRounding.
Import PrimFloat.

(** On binary64 floats the quotient over a positive loss can overflow: a
    gain of 1e200 over a loss of 1e-200 gives a profit factor of
    +infinity although a trade was closed at a loss. *)
Lemma profit_factor_overflow_binary64 :
  PrimFloat.ltb 0%float 0x1.4e718d7d7625ap+664%float = true /\
  PrimFloat.ltb (PrimFloat.opp 0x1.87e92154ef7acp-665%float) 0%float = true /\
  PrimFloat.is_finite (PrimFloat.opp 0x1.87e92154ef7acp-665%float) = true /\
  backtest_engine.binary64.profit_factor
    0x1.4e718d7d7625ap+664%float (PrimFloat.opp 0x1.87e92154ef7acp-665%float)
  = PrimFloat.infinity.
Proof. repeat split; vm_compute; reflexivity. Qed.

End ProfitFactorRounding.

(** ** Statistics of an empty run (claim C9) *)
Section EmptyStats.
Import backtest_engine.

(** C9, as amended.  With an empty trade list or an empty equity curve
    the calculator returns a complete record instead of raising: no
    trades, zero total return, drawdown, ratios, win rate, profit factor
    and average P&Ls, no exit reasons, and a final capital equal to the
    initial one.  The benchmark field is not zeroed: it is the benchmark
    return rounded to two places (a whole number of hundredths less than
    one hundredth away from it; 0.0 only when none is given), and the
    duration is the distance between the two dates (0 when one is
    missing). *)
Theorem calculate_stats_empty_input (np_sqrt : num -> num) {P : Type}
    (trades : list (trade P)) (equity : series) (C : num)
    (s e : option Z) (bh : option num) :
  trades = [] \/ equity = [] ->
  exists st, calculate_stats np_sqrt trades equity C s e bh = Ok st /\
    Total_Trades st = 0%nat /\
    Total_Return_pct st = ofZ 0 /\ Max_Drawdown_pct st = ofZ 0 /\
    Sharpe_Ratio_ann st = ofZ 0 /\ Sortino_Ratio_ann st = ofZ 0 /\
    Win_Rate_pct st = ofZ 0 /\ Profit_Factor st = ofZ 0 /\
    Avg_Trade_PnL_pct st = ofZ 0 /\ Avg_Win_PnL_pct st = ofZ 0 /\
    Avg_Loss_PnL_pct st = ofZ 0 /\
    Exit_Reason_Counts st = ∅ /\
    Initial_Capital st = fmt_money C /\ Final_Capital st = Initial_Capital st /\
    Start_Period st = s /\ End_Period st = e /\
    Duration_days st =
      match s, e with Some a, Some b => (b - a)%Z | _, _ => 0%Z end /\
    match bh with
    | Some r => rounded_to_hundredths r (Buy_and_Hold_pct st)
    | None => Buy_and_Hold_pct st = ofZ 0
    end.
Proof.
  intros Hempty. exists (empty_stats C s e bh). split.
  - destruct Hempty as [-> | ->]; [done|]. by destruct trades.
  - split_and!; try done.
    destruct bh as [r|]; [|done]. apply round2_rounded.
Qed.

Lemma calculate_stats_empty_input_witness :
  exists st,
    calculate_stats (fun x => x) ([] : list (trade unit))
      [(0%Z, ofZ 1000); (86400%Z, ofZ 1010)] (ofZ 1000)
      (Some 0%Z) (Some 1%Z) (Some (ofZ 1)) = Ok st /\
    Total_Trades st = 0%nat /\
    Total_Return_pct st = ofZ 0 /\ Max_Drawdown_pct st = ofZ 0 /\
    Sharpe_Ratio_ann st = ofZ 0 /\ Sortino_Ratio_ann st = ofZ 0 /\
    Win_Rate_pct st = ofZ 0 /\ Profit_Factor st = ofZ 0 /\
    Avg_Trade_PnL_pct st = ofZ 0 /\ Avg_Win_PnL_pct st = ofZ 0 /\
    Avg_Loss_PnL_pct st = ofZ 0 /\
    Exit_Reason_Counts st = ∅ /\
    Initial_Capital st = fmt_money (ofZ 1000) /\
    Final_Capital st = Initial_Capital st /\
    Start_Period st = Some 0%Z /\ End_Period st = Some 1%Z /\
    Duration_days st = (1 - 0)%Z /\
    rounded_to_hundredths (ofZ 1) (Buy_and_Hold_pct st).
Proof.
  apply (calculate_stats_empty_input (fun x => x) ([] : list (trade unit))
           [(0%Z, ofZ 1000); (86400%Z, ofZ 1010)] (ofZ 1000)
           (Some 0%Z) (Some 1%Z) (Some (ofZ 1))).
  left. reflexivity.
Defined.

(** C9 as stated fails on the benchmark field: with a benchmark return
    of 5 (and no trade) the record reports a buy-and-hold return of 5,
    not 0, and a duration of 10 days. *)
Lemma empty_stats_benchmark_counterexample :
  exists st,
    calculate_stats (fun x => x) ([] : list (trade unit)) [] (ofZ 1000)
      (Some 0%Z) (Some 10%Z) (Some (ofZ 5)) = Ok st /\
    Buy_and_Hold_pct st = ofZ 5 /\ ofZ 5 <> ofZ 0 /\
    Duration_days st = 10%Z.
Proof.
  eexists. split; [reflexivity|]. split_and!; [compute_done..|reflexivity].
Qed.

End EmptyStats.

(** ** Order of the exit checks (claim C1) *)
Section ExitOrder.
Import base_strategy backtest_engine.

Lemma exit_checks_take_profit strat i price posn :
  take_profit_hit strat i price posn ->
  exit_checks strat i price posn = (Some "Take Profit", posn).
Proof.
  intros (tp & Htp & Ht & Hge). unfold exit_checks. by rewrite Htp, Ht, Hge.
Qed.

Lemma exit_checks_no_take_profit strat i price posn :
  ~ take_profit_hit strat i price posn ->
  exit_checks strat i price posn =
    let trailed := update_trailing_stop strat i price posn in
    if fleb price (stop_price trailed) then (Some "Stop Loss", trailed)
    else (get_exit_signal strat i trailed, trailed).
Proof.
  intros Hno. unfold exit_checks.
  destruct (get_take_profit_price strat i posn) as [tp|] eqn:Htp.
  - destruct (truthy tp && fgeb price tp) eqn:Hc.
    + exfalso. apply Hno. exists tp. by apply andb_prop in Hc as [? ?].
    + simpl. by destruct (fleb price _).
  - simpl. by destruct (fleb price _).
Qed.

(** The trade log after a candle on which a position is open. *)
Lemma generic_step_trades strat df start st i :
  in_pos (pos st) = true ->
  trades (generic_step strat df start st i) =
    let price := close (df !!! i) in
    let '(reason, posn) := exit_checks strat i price (pos st) in
    if str_truthy reason then
      trades st ++
      [ {| trade_position := posn;
           exit_time := ts (df !!! i);
           exit_price := price;
           pnl_percent :=
             if fgtb (value posn) (ofZ 0)
             then fmul (fdiv (fsub (fmul (qty posn) price) (value posn))
                             (value posn)) (ofZ 100)
             else ofZ 0;
           pnl_value := fsub (fmul (qty posn) price) (value posn);
           exit_reason := default "" reason |} ]
    else trades st.
Proof.
  intros Hin. unfold generic_step. rewrite Hin. cbn zeta.
  destruct (exit_checks strat i (close (df !!! i)) (pos st)) as [reason posn].
  destruct (str_truthy reason); cbn [in_pos flat negb];
    repeat match goal with
           | |- context [if ?c then _ else _] => destruct c
           end; reflexivity.
Qed.

(** C1.  On every candle with an open position the exit checks run in a
    fixed order.  If the take-profit condition holds (the strategy names
    a take-profit price and close >= it), exactly one trade is recorded
    and its reason is "Take Profit", whatever the stop and the strategy
    signal say, and the trailing stop is not updated; otherwise the
    trailing stop is updated and, if close <= stop, the one recorded
    trade has reason "Stop Loss", whatever the strategy signal says; only
    when neither fired does the strategy's own exit signal decide whether
    a trade is recorded, and under which reason. *)
Theorem exit_check_priority (strat : strategy) (df : list candle)
    (start : nat) (st : gstate) (i : nat) :
  in_pos (pos st) = true ->
  let price := close (df !!! i) in
  let st' := generic_step strat df start st i in
  let trailed := update_trailing_stop strat i price (pos st) in
  (take_profit_hit strat i price (pos st) ->
     exists t, trades st' = trades st ++ [t] /\
       exit_reason t = "Take Profit" /\ trade_position t = pos st) /\
  (~ take_profit_hit strat i price (pos st) ->
   stop_hit strat i price (pos st) ->
     exists t, trades st' = trades st ++ [t] /\
       exit_reason t = "Stop Loss" /\ trade_position t = trailed) /\
  (~ take_profit_hit strat i price (pos st) ->
   ~ stop_hit strat i price (pos st) ->
     match get_exit_signal strat i trailed with
     | Some reason =>
         if decide (reason = "") then trades st' = trades st
         else exists t, trades st' = trades st ++ [t] /\
                exit_reason t = reason /\ trade_position t = trailed
     | None => trades st' = trades st
     end).
Proof.
  intros Hin price st' trailed. subst st'.
  rewrite (generic_step_trades _ _ _ _ _ Hin). fold price. cbn zeta.
  split_and!.
  - intros Htp. rewrite (exit_checks_take_profit _ _ _ _ Htp). simpl.
    eexists. split; [reflexivity|]. done.
  - intros Hno Hstop. rewrite (exit_checks_no_take_profit _ _ _ _ Hno).
    cbn zeta. fold trailed. unfold stop_hit in Hstop. fold trailed in Hstop.
    rewrite Hstop. simpl. eexists. split; [reflexivity|]. done.
  - intros Hno Hnostop. rewrite (exit_checks_no_take_profit _ _ _ _ Hno).
    cbn zeta. fold trailed. unfold stop_hit in Hnostop. fold trailed in Hnostop.
    apply not_true_is_false in Hnostop. rewrite Hnostop.
    destruct (get_exit_signal strat i trailed) as [reason|]; [|done].
    simpl. destruct (decide (reason = "")) as [->|Hne].
    + done.
    + rewrite bool_decide_eq_false_2 by done. simpl.
      eexists. split; [reflexivity|]. done.
Qed.

End ExitOrder.

Lemma exit_check_priority_witness :
  exists t,
    backtest_engine.trades
      (backtest_engine.generic_step fixed_tp_strategy
         (flat_candles 1 (ofZ 115)) 0
         (backtest_engine.GState (ofZ 0) (open_position (ofZ 100) (ofZ 120))
            [] [ofZ 1000]) 0) = [] ++ [t] /\
    backtest_engine.exit_reason t = "Take Profit" /\
    backtest_engine.trade_position t = open_position (ofZ 100) (ofZ 120).
Proof.
  apply (exit_check_priority fixed_tp_strategy (flat_candles 1 (ofZ 115)) 0
           (backtest_engine.GState (ofZ 0) (open_position (ofZ 100) (ofZ 120))
              [] [ofZ 1000]) 0 eq_refl).
  exists (fadd (ofZ 100) (ofZ 10)). split; [reflexivity|].
  split; vm_compute; reflexivity.
Defined.

(** ** The effective start index (claim C2) *)
Section StartIndex.
Import base_strategy backtest_engine.

(** The index the three runners start from. *)
Lemma get_start_index_spec (df : list candle) (cfg : config) :
  let requested :=
    Z.of_nat (searchsorted_left (ts <$> df) (BACKTEST_START_DATE cfg)) in
  let warmup := default 200%Z (TECHNICAL_WARMUP_PERIOD cfg) in
  let effective := Z.max warmup requested in
  ((Z.of_nat (length df) <= effective)%Z ->
     _get_start_index df cfg =
       (None, [NotEnoughData effective (length df)])) /\
  ((effective < Z.of_nat (length df))%Z ->
     (_get_start_index df cfg).1 = Some effective).
Proof.
  intros requested warmup effective. unfold _get_start_index.
  fold requested warmup effective. split; intros H.
  - by rewrite bool_decide_eq_true_2.
  - by rewrite bool_decide_eq_false_2 by lia.
Qed.

(** C2, as amended.  Every simulation mode starts from
    max(requested start index, warm-up length).  When that index meets
    or exceeds the series length the run does not raise: it prints one
    warning naming the required index and the data length, and returns
    the empty result (no statistics, no trades, empty curves), never a
    partial one; otherwise the start index is exactly that maximum. *)
Theorem insufficient_data_empty_result (np_sqrt : num -> num)
    (df : list candle) (cfg : config) (strat : strategy)
    {M : Type} (lstrat : legacy_strategy M) (memory : M)
    {St T : Type} (cstrat : continuous_strategy St T) :
  let requested :=
    Z.of_nat (searchsorted_left (ts <$> df) (BACKTEST_START_DATE cfg)) in
  let warmup := default 200%Z (TECHNICAL_WARMUP_PERIOD cfg) in
  let effective := Z.max warmup requested in
  ((Z.of_nat (length df) <= effective)%Z ->
     let warning := [NotEnoughData effective (length df)] in
     run_generic_backtest np_sqrt df strat cfg = (Ok empty_output, warning) /\
     run_legacy_backtest np_sqrt df lstrat memory cfg
       = (Ok empty_output, warning) /\
     run_continuous_backtest np_sqrt df cstrat cfg
       = (Ok empty_output, warning)) /\
  ((effective < Z.of_nat (length df))%Z ->
     (_get_start_index df cfg).1 = Some effective /\
     (warmup <= effective)%Z /\ (requested <= effective)%Z).
Proof.
  intros requested warmup effective.
  destruct (get_start_index_spec df cfg) as [Hshort Hlong].
  fold requested warmup effective in Hshort, Hlong. split.
  - intros Hlen warning. specialize (Hshort Hlen).
    unfold run_generic_backtest, run_legacy_backtest, run_continuous_backtest.
    by rewrite Hshort.
  - intros Hlen. split; [by apply Hlong | lia].
Qed.

End StartIndex.

(** C2 as stated fails in that no error reaches the caller: with three
    candles and a warm-up of five the generic run returns normally, with
    the empty result, and the two sizes appear only in the printed
    warning. *)
Lemma insufficient_data_counterexample :
  backtest_engine.run_generic_backtest (fun x => x)
    (flat_candles 3 (ofZ 100)) base_strategy.default_strategy
    (config_with 0 (Some 5%Z))
    = (Ok backtest_engine.empty_output, [NotEnoughData 5 3]) /\
  ~ raised (Ok (backtest_engine.empty_output
                  (T := backtest_engine.trade base_strategy.position))).
Proof.
  split; [vm_compute; reflexivity|]. by intros [e He].
Qed.

(** ** The trailing stop of the legacy mode (claim C8) *)
Section TrailingStop.
Import backtest_engine dynamic_momentum_optimizer.

Lemma fltb_trans (a b c : num) :
  fltb a b = true -> fltb b c = true -> fltb a c = true.
Proof.
  destruct a as [x| | |], b as [y| | |], c as [z| | |]; simpl; try done.
  rewrite !bool_decide_eq_true. apply Qclt_trans.
Qed.

Lemma not_lowered_refl (a : num) : not_lowered a a.
Proof. by left. Qed.

Lemma not_lowered_trans (a b c : num) :
  not_lowered a b -> not_lowered b c -> not_lowered a c.
Proof.
  intros [-> | Hab] [-> | Hbc]; unfold not_lowered; eauto using fltb_trans.
Qed.

(** The update either returns the position untouched or replaces its
    stop, and nothing else, by the candidate. *)
Lemma update_trailing_stop_cases cfg inds i price posn :
  update_trailing_stop cfg inds i price posn = posn \/
  exists atr_len atr_array a,
    (exists f s mult, l_params posn = Some (f, s, atr_len, mult) /\
       let candidate := fsub price (fmul a mult) in
       fgtb (fsub price (entry posn))
            (fmul (fmul a mult) (TRAIL_TRIGGER_MULT cfg)) = true /\
       fgtb candidate (stop posn) = true /\
       update_trailing_stop cfg inds i price posn =
         LPosition (l_in_pos posn) (entry posn) candidate (l_qty posn)
           (l_value posn) (l_params posn) (l_entry_time posn)) /\
    inds !! indicator_key "atr" atr_len = Some atr_array /\
    atr_array !! i = Some a.
Proof.
  unfold update_trailing_stop.
  destruct (l_params posn) as [[[[f s] atr_len] mult]|] eqn:Hp; [|by left].
  destruct (inds !! indicator_key "atr" atr_len) as [atr_array|] eqn:Ha;
    [|by left].
  case_bool_decide as Hi; [|by left].
  destruct (isnan (atr_array !!! i)) eqn:Hnan; [by left|]. cbn [negb].
  destruct (fgtb (fsub price (entry posn)) _) eqn:Hgain; [|by left].
  destruct (fgtb (fsub price _) (stop posn)) eqn:Hnew; [|by left].
  right. exists atr_len, atr_array, (atr_array !!! i). split_and!.
  - exists f, s, mult. by split_and!.
  - done.
  - by apply list_lookup_lookup_total_lt.
Qed.

Lemma update_trailing_stop_not_lowered cfg inds i price posn :
  not_lowered (stop posn) (stop (update_trailing_stop cfg inds i price posn)).
Proof.
  destruct (update_trailing_stop_cases cfg inds i price posn)
    as [-> | (atr_len & arr & a & (f & s & mult & _ & _ & Hnew & ->) & _)].
  - apply not_lowered_refl.
  - right. exact Hnew.
Qed.

Lemma update_trailing_stop_keeps cfg inds i price posn :
  let posn' := update_trailing_stop cfg inds i price posn in
  l_in_pos posn' = l_in_pos posn /\ entry posn' = entry posn /\
  l_qty posn' = l_qty posn /\ l_value posn' = l_value posn /\
  l_params posn' = l_params posn /\ l_entry_time posn' = l_entry_time posn.
Proof.
  cbn zeta.
  destruct (update_trailing_stop_cases cfg inds i price posn)
    as [-> | (atr_len & arr & a & (f & s & mult & _ & _ & _ & ->) & _)];
    by split_and!.
Qed.

(** What the update does to the stop, given the volatility reading. *)
Lemma update_trailing_stop_spec cfg inds i price posn f s atr_len mult arr a :
  l_params posn = Some (f, s, atr_len, mult) ->
  inds !! indicator_key "atr" atr_len = Some arr ->
  arr !! i = Some a ->
  let candidate := fsub price (fmul a mult) in
  let raise :=
    fgtb (fsub price (entry posn))
         (fmul (fmul a mult) (TRAIL_TRIGGER_MULT cfg))
    && fgtb candidate (stop posn) in
  stop (update_trailing_stop cfg inds i price posn) =
    if raise then candidate else stop posn.
Proof.
  intros Hp Ha Hi candidate raise. subst raise candidate.
  unfold update_trailing_stop. rewrite Hp, Ha.
  rewrite bool_decide_eq_true_2 by (by eapply lookup_lt_Some).
  rewrite (list_lookup_total_correct _ _ _ Hi).
  destruct a as [q| | |]; cbn [isnan negb].
  4: { cbn [fmul fsub fneg fadd fgtb fltb]. by destruct (fsub price (entry posn)). }
  all: destruct (fgtb (fsub price (entry posn)) _); cbn [andb]; [|done..].
  all: by destruct (fgtb (fsub price _) (stop posn)).
Qed.

Lemma trail_through_app cfg inds posn c1 c2 :
  trail_through cfg inds posn (c1 ++ c2) =
  trail_through cfg inds (trail_through cfg inds posn c1) c2.
Proof. unfold trail_through. apply foldl_app. Qed.

Lemma trail_through_not_lowered cfg inds posn candles :
  not_lowered (stop posn) (stop (trail_through cfg inds posn candles)).
Proof.
  revert posn. induction candles as [|c candles IH]; intros posn.
  - apply not_lowered_refl.
  - eapply not_lowered_trans; [|apply IH].
    apply update_trailing_stop_not_lowered.
Qed.

(** The stop carried by the scorer never goes down while in position. *)
Lemma score_step_not_lowered fma sma atr close mult trail st i st' :
  s_in_pos st = true ->
  score_step fma sma atr close mult trail st i = Ok st' ->
  not_lowered (s_stop st) (s_stop st').
Proof.
  intros Hin. unfold score_step. rewrite Hin. cbn [negb andb].
  intros H.
  repeat match type of H with
         | (mbind _ ?r) = _ => destruct r; cbn [mbind result_bind] in H; [|done]
         | (if ?c then _ else _) = _ => destruct c eqn:?
         | Ok _ = Ok _ => injection H as <-
         end; try apply not_lowered_refl; cbn [s_stop];
    repeat match goal with
           | |- context [if ?c then _ else _] => destruct c eqn:?
           end;
    first [apply not_lowered_refl | right; assumption].
Qed.

Lemma app_singleton_neq {A} (l : list A) (x : A) : l ++ [x] <> l.
Proof.
  intros H. apply (f_equal length) in H. rewrite length_app in H.
  simpl in H. lia.
Qed.

(** A candle of the legacy loop that closes no trade on an open
    position leaves the position the trailing-stop update returned. *)
Lemma legacy_step_keeps_open {M : Type} (strat : legacy_strategy M)
    (df : list candle) (reopt : Z) (numpy : bool) (start : nat)
    (st st' : lstate M) (i : nat) :
  (forall m j p posn,
     l_in_pos (l_update_trailing_stop strat m j p posn) = l_in_pos posn) ->
  l_in_pos (l_pos st) = true ->
  legacy_step strat df reopt numpy start st i = Ok st' ->
  l_trades st' = l_trades st ->
  l_pos st' =
    l_update_trailing_stop strat (l_memory st') i (close (df !!! i)) (l_pos st).
Proof.
  intros Hkeep Hin Hstep Htrades. unfold legacy_step in Hstep.
  rewrite Hin in Hstep. cbn zeta in Hstep.
  destruct (int_mod numpy _ reopt) as [r|]; [|done].
  cbn [mbind result_bind] in Hstep.
  set (memory := if bool_decide _ then _ else _) in Hstep.
  destruct memory as [m|]; [|done]. cbn [mbind result_bind] in Hstep.
  destruct (l_get_exit_signal strat m i _ _) as [reason|]; [|done].
  cbn [mbind result_bind] in Hstep.
  destruct (str_truthy reason).
  - exfalso.
    match type of Hstep with
    | (mbind _ ?r) = _ => destruct r as [[[mem c] p]|]
    end; cbn [mbind result_bind] in Hstep; [|done].
    injection Hstep as <-. cbn [l_trades] in Htrades.
    by apply app_singleton_neq in Htrades.
  - rewrite Hkeep, Hin in Hstep. cbn [negb mbind result_bind] in Hstep.
    by injection Hstep as <-.
Qed.

(** The stop the scoring kernel carries after an index on an open
    position: unchanged when one of the five indicator readings is
    not-a-number, else moved by the same rule as in the strategy
    object. *)
Lemma score_step_stop_rule fma sma atr close mult trail st i
    f_i s_i f_p s_p a price :
  s_in_pos st = true ->
  nb_get fma i = Ok f_i -> nb_get sma i = Ok s_i ->
  nb_get fma (i - 1) = Ok f_p -> nb_get sma (i - 1) = Ok s_p ->
  nb_get atr i = Ok a -> nb_get close i = Ok price ->
  exists st', score_step fma sma atr close mult trail st i = Ok st' /\
    s_stop st' =
      if isnan f_i || isnan s_i || isnan f_p || isnan s_p || isnan a
      then s_stop st
      else if fgtb (fsub price (s_entry st)) (fmul (fmul a mult) trail)
              && fgtb (fsub price (fmul a mult)) (s_stop st)
           then fsub price (fmul a mult) else s_stop st.
Proof.
  intros Hin Hfi Hsi Hfp Hsp Ha Hp. unfold score_step.
  rewrite Hfi. cbn [mbind result_bind]. destruct (isnan f_i); [eauto|].
  rewrite Hsi. cbn [mbind result_bind]. destruct (isnan s_i); [eauto|].
  rewrite Hfp. cbn [mbind result_bind]. destruct (isnan f_p); [eauto|].
  rewrite Hsp. cbn [mbind result_bind]. destruct (isnan s_p); [eauto|].
  rewrite Ha. cbn [mbind result_bind]. destruct (isnan a); [eauto|].
  rewrite Hp, Hin. cbn [mbind result_bind negb andb orb].
  set (stop' := if fgtb (fsub price (s_entry st)) _ then _ else _).
  assert (stop' =
          if fgtb (fsub price (s_entry st)) (fmul (fmul a mult) trail)
             && fgtb (fsub price (fmul a mult)) (s_stop st)
          then fsub price (fmul a mult) else s_stop st) as <-.
  { subst stop'. by destruct (fgtb (fsub price (s_entry st)) _). }
  destruct (fltb price stop' || _); [|eauto].
  eexists. split; [reflexivity|]. by destruct (fgtb _ (ofZ 0)).
Qed.

(** C8.  The trailing-stop update of the self-reoptimizing mode raises
    the stop to price - atr * multiplier exactly when the unrealized
    gain exceeds atr * multiplier * trigger factor and the candidate is
    above the current stop; no update lowers the stop, so over every
    sequence of updates on an open position the stop only stays or
    rises.  The back-test loop applies exactly this update at every
    candle on which the open position is kept, and the scoring kernel
    moves its own stop by the same rule at every index whose readings
    are defined and leaves it alone at the others. *)
Theorem trailing_stop_ratchet :
  (forall cfg inds i price posn f s atr_len mult arr a,
     l_params posn = Some (f, s, atr_len, mult) ->
     inds !! indicator_key "atr" atr_len = Some arr ->
     arr !! i = Some a ->
     stop (update_trailing_stop cfg inds i price posn) =
       if fgtb (fsub price (entry posn))
               (fmul (fmul a mult) (TRAIL_TRIGGER_MULT cfg))
          && fgtb (fsub price (fmul a mult)) (stop posn)
       then fsub price (fmul a mult) else stop posn) /\
  (forall cfg inds i price posn,
     not_lowered (stop posn)
       (stop (update_trailing_stop cfg inds i price posn))) /\
  (forall cfg inds posn earlier later,
     not_lowered (stop (trail_through cfg inds posn earlier))
       (stop (trail_through cfg inds posn (earlier ++ later)))) /\
  (forall R random_random random_choice np_argsort df reopt numpy start
          st st' i,
     l_in_pos (l_pos st) = true ->
     legacy_step (as_legacy_strategy R random_random random_choice np_argsort)
       df reopt numpy start st i = Ok st' ->
     l_trades st' = l_trades st ->
     l_pos st' =
       update_trailing_stop (opt_config R (l_memory st'))
         (indicators R (l_memory st')) i (close (df !!! i)) (l_pos st) /\
     l_in_pos (l_pos st') = true /\
     not_lowered (stop (l_pos st)) (stop (l_pos st'))) /\
  (forall fma sma atr close mult trail st i f_i s_i f_p s_p a price,
     s_in_pos st = true ->
     nb_get fma i = Ok f_i -> nb_get sma i = Ok s_i ->
     nb_get fma (i - 1) = Ok f_p -> nb_get sma (i - 1) = Ok s_p ->
     nb_get atr i = Ok a -> nb_get close i = Ok price ->
     exists st', score_step fma sma atr close mult trail st i = Ok st' /\
       s_stop st' =
         (if isnan f_i || isnan s_i || isnan f_p || isnan s_p || isnan a
          then s_stop st
          else if fgtb (fsub price (s_entry st)) (fmul (fmul a mult) trail)
                  && fgtb (fsub price (fmul a mult)) (s_stop st)
               then fsub price (fmul a mult) else s_stop st) /\
       not_lowered (s_stop st) (s_stop st')).
Proof.
  split_and!.
  - intros. by eapply update_trailing_stop_spec.
  - apply update_trailing_stop_not_lowered.
  - intros. rewrite trail_through_app. apply trail_through_not_lowered.
  - intros R rr rc argsort df reopt numpy start st st' i Hin Hstep Htrades.
    pose proof (legacy_step_keeps_open
                  (as_legacy_strategy R rr rc argsort)
                  df reopt numpy start st st' i) as Hk.
    specialize (Hk ltac:(intros; apply update_trailing_stop_keeps)
                  Hin Hstep Htrades).
    rewrite Hk. cbn [as_legacy_strategy l_update_trailing_stop].
    split; [done|]. split.
    + by rewrite (proj1 (update_trailing_stop_keeps _ _ _ _ _)).
    + apply update_trailing_stop_not_lowered.
  - intros fma sma atr close mult trail st i f_i s_i f_p s_p a price
      Hin Hfi Hsi Hfp Hsp Ha Hp.
    destruct (score_step_stop_rule fma sma atr close mult trail st i
                f_i s_i f_p s_p a price Hin Hfi Hsi Hfp Hsp Ha Hp)
      as (st' & Hst & Hrule).
    exists st'. split_and!; [done..|].
    by eapply score_step_not_lowered.
Qed.

End TrailingStop.

Lemma trailing_stop_ratchet_witness :
  backtest_engine.stop
    (dynamic_momentum_optimizer.update_trailing_stop
       (config_with 0 None) example_indicators 1 (ofZ 105) example_lposition)
  = if fgtb (fsub (ofZ 105) (ofZ 100))
            (fmul (fmul (ofZ 1) (ofZ 2)) (ofZ 1))
       && fgtb (fsub (ofZ 105) (fmul (ofZ 1) (ofZ 2))) (ofZ 90)
    then fsub (ofZ 105) (fmul (ofZ 1) (ofZ 2)) else ofZ 90.
Proof.
  apply (proj1 trailing_stop_ratchet (config_with 0 None) example_indicators
           1%nat (ofZ 105) example_lposition 10%Z 90%Z 10%Z (ofZ 2)
           [ofZ 1; ofZ 1; ofZ 1] (ofZ 1)); reflexivity.
Defined.

(** ** The parameter scorer (claim C6) *)
Section Scorer.
Import backtest_engine dynamic_momentum_optimizer.

Lemma py_index_in_range {A} (l : list A) (i : Z) :
  (- Z.of_nat (length l) <= i < Z.of_nat (length l))%Z ->
  exists x, py_index l i = Some x /\ x ∈ l.
Proof.
  intros Hi. unfold py_index. case_bool_decide as H0.
  - destruct (lookup_lt_is_Some_2 l (Z.to_nat i)) as [x Hx]; [lia|].
    exists x. split; [done|]. by eapply list_elem_of_lookup_2.
  - rewrite bool_decide_eq_true_2 by lia.
    destruct (lookup_lt_is_Some_2 l (Z.to_nat (Z.of_nat (length l) + i)))
      as [x Hx]; [lia|].
    exists x. split; [done|]. by eapply list_elem_of_lookup_2.
Qed.

Lemma mapM_result_Forall2 {A B : Type} (f : A -> result B)
    (P : A -> B -> Prop) (l : list A) :
  Forall (fun x => exists y, f x = Ok y /\ P x y) l ->
  exists ys, mapM f l = Ok ys /\ Forall2 P l ys.
Proof.
  induction 1 as [|x l (y & Hy & HP) _ (ys & Hys & HF)]; simpl.
  - exists []. by split.
  - exists (y :: ys). rewrite Hy. cbn [mbind result_bind].
    rewrite Hys. cbn [mbind result_bind]. split; [done|]. by constructor.
Qed.

(** The phase of the simplified system that the locals of the kernel
    stand for. *)
Definition phase_of (st : score_state) : crossover_system.phase :=
  if s_in_pos st then crossover_system.Long (s_entry st) (s_stop st)
  else crossover_system.Flat.

Lemma nb_get_at_index (l : list num) (i : Z) :
  (- Z.of_nat (length l) <= i < Z.of_nat (length l))%Z ->
  nb_get l i = Ok (crossover_system.at_index l i).
Proof.
  intros Hi. destruct (py_index_in_range l i Hi) as (x & Hx & _).
  unfold nb_get, crossover_system.at_index. by rewrite Hx.
Qed.

(** One index of the kernel against one step of the simplified system:
    the kernel returns, its position is the system's phase, and the
    return of a closed trade went to the accumulator of its sign. *)
Lemma score_step_simulates fma sma atr close mult trail st i :
  length fma = length close -> length sma = length close ->
  length atr = length close ->
  (- Z.of_nat (length close) <= i - 1)%Z ->
  (i < Z.of_nat (length close))%Z ->
  exists st', score_step fma sma atr close mult trail st i = Ok st' /\
    let '(ph, closed) :=
      crossover_system.step mult trail (phase_of st)
        (crossover_system.reading_at fma sma atr close i) in
    phase_of st' = ph /\
    gp st' = foldl fadd (gp st)
               (filter (fun x => fgtb x (ofZ 0) = true) (option_list closed)) /\
    gl st' = foldl fadd (gl st)
               (fneg <$> filter (fun x => fgtb x (ofZ 0) = false)
                           (option_list closed)).
Proof.
  intros Hf Hs Ha Hlo Hhi.
  unfold score_step, crossover_system.step, crossover_system.undefined,
    crossover_system.reading_at.
  cbn [crossover_system.fast_now crossover_system.slow_now
       crossover_system.fast_before crossover_system.slow_before
       crossover_system.atr_now].
  rewrite (nb_get_at_index fma i) by lia. cbn [mbind result_bind].
  destruct (isnan (crossover_system.at_index fma i)); cbn [orb]; [eauto|].
  rewrite (nb_get_at_index sma i) by lia. cbn [mbind result_bind].
  destruct (isnan (crossover_system.at_index sma i)); cbn [orb]; [eauto|].
  rewrite (nb_get_at_index fma (i - 1)) by lia. cbn [mbind result_bind].
  destruct (isnan (crossover_system.at_index fma (i - 1))); cbn [orb]; [eauto|].
  rewrite (nb_get_at_index sma (i - 1)) by lia. cbn [mbind result_bind].
  destruct (isnan (crossover_system.at_index sma (i - 1))); cbn [orb]; [eauto|].
  rewrite (nb_get_at_index atr i) by lia. cbn [mbind result_bind].
  destruct (isnan (crossover_system.at_index atr i)); cbn [orb]; [eauto|].
  rewrite (nb_get_at_index close i) by lia. cbn [mbind result_bind].
  unfold crossover_system.bullish_cross, crossover_system.bearish_cross,
    crossover_system.trailed_stop, crossover_system.atr_stop, phase_of.
  cbn [crossover_system.fast_now crossover_system.slow_now
       crossover_system.fast_before crossover_system.slow_before
       crossover_system.atr_now crossover_system.price_now].
  set (price := crossover_system.at_index close i).
  set (a := crossover_system.at_index atr i).
  set (gold := fltb _ _ && fgtb _ _).
  set (death := fgtb _ _ && fltb _ _).
  destruct (s_in_pos st) eqn:Hin; cbn [negb andb].
  - set (stop1 := if fgtb (fsub price (s_entry st)) _ then _ else _).
    set (stop2 := if fgtb (fsub price (s_entry st)) _ && _ then _ else _).
    assert (stop1 = stop2) as ->.
    { subst stop1 stop2. by destruct (fgtb (fsub price (s_entry st)) _). }
    destruct (fltb price stop2 || death).
    + eexists. split; [reflexivity|].
      set (pnl := fdiv _ _). change (option_list (Some pnl)) with [pnl].
      destruct (fgtb pnl (ofZ 0)) eqn:Hpos; cbn [gp gl s_in_pos].
      * rewrite filter_cons_True by done.
        rewrite filter_cons_False by congruence.
        by rewrite !filter_nil.
      * rewrite filter_cons_False by congruence.
        rewrite filter_cons_True by done.
        by rewrite !filter_nil.
    + eexists. split; [reflexivity|]. done.
  - destruct gold.
    + eexists. split; [reflexivity|]. done.
    + eexists. split; [reflexivity|]. cbn [s_in_pos]. by rewrite Hin.
Qed.

(** The loop of the kernel over a list of indices inside the arrays, from
    any state: what it adds to the two accumulators are the returns of
    the trades the simplified system closes from the state's phase. *)
Lemma score_loop_simulates fma sma atr close mult trail (l : list Z) :
  length fma = length close -> length sma = length close ->
  length atr = length close ->
  Forall (fun i => (- Z.of_nat (length close) <= i - 1)%Z /\
                   (i < Z.of_nat (length close))%Z) l ->
  forall st,
  exists st', loopM (score_step fma sma atr close mult trail) st l = Ok st' /\
    let rets :=
      crossover_system.returns mult trail (phase_of st)
        (crossover_system.reading_at fma sma atr close <$> l) in
    gp st' = foldl fadd (gp st)
               (filter (fun x => fgtb x (ofZ 0) = true) rets) /\
    gl st' = foldl fadd (gl st)
               (fneg <$> filter (fun x => fgtb x (ofZ 0) = false) rets).
Proof.
  intros Hf Hs Ha Hl. induction Hl as [|i l [Hi1 Hi2] _ IH]; intros st.
  - exists st. by split.
  - destruct (score_step_simulates fma sma atr close mult trail st i
                Hf Hs Ha Hi1 Hi2) as (st1 & Hst1 & Hsim).
    cbn [loopM]. rewrite Hst1. cbn [mbind result_bind].
    destruct (IH st1) as (st' & Hst' & Hgp & Hgl).
    exists st'. split; [done|].
    rewrite fmap_cons. cbn [crossover_system.returns].
    destruct (crossover_system.step _ _ _ _) as [ph closed].
    destruct Hsim as (Hph & Hgp1 & Hgl1).
    cbn zeta. rewrite Hph in Hgp, Hgl.
    rewrite !filter_app, fmap_app, !foldl_app, <- Hgp1, <- Hgl1. done.
Qed.

(** The last line of the kernel, on the accumulators. *)
Lemma final_score_cases (st : score_state) :
  (fgtb (gl st) (ofZ 0) = true -> final_score st = fdiv (gp st) (gl st)) /\
  (fgtb (gl st) (ofZ 0) = false -> fgtb (gp st) (ofZ 0) = true ->
   final_score st = fmul (gp st) (ofZ 1000)) /\
  (fgtb (gl st) (ofZ 0) = false -> fgtb (gp st) (ofZ 0) = false ->
   final_score st = ofZ 0).
Proof.
  unfold final_score. split_and!.
  - by intros ->.
  - by intros -> ->.
  - by intros -> ->.
Qed.

Lemma score_tuple_simulates fma sma atr close mult start end_ trail :
  length fma = length close -> length sma = length close ->
  length atr = length close ->
  (- Z.of_nat (length close) <= start)%Z ->
  (end_ <= Z.of_nat (length close))%Z ->
  exists st,
    score_loop fma sma atr close mult start end_ trail = Ok st /\
    let rets :=
      crossover_system.returns mult trail crossover_system.Flat
        (crossover_system.readings fma sma atr close start end_) in
    gp st = crossover_system.gross_profit rets /\
    gl st = crossover_system.gross_loss rets.
Proof.
  intros Hf Hs Ha Hlo Hhi. unfold score_loop.
  destruct (score_loop_simulates fma sma atr close mult trail
              (seqZ (start + 1) (end_ - (start + 1))) Hf Hs Ha) with
    (st := score_init) as (st & Hst & Hgp & Hgl).
  { apply Forall_forall. intros i Hi. apply elem_of_seqZ in Hi. lia. }
  exists st. split; [done|]. done.
Qed.

(** C6, as amended.  Over every index range inside the arrays the scorer
    returns one score per tuple of the grid, and the score of a tuple is
    determined by the trades the simplified crossover system closes on
    the tuple's indicator arrays inside the range: with the gross profit
    the sum of their positive fractional returns and the gross loss the
    sum of the others with the sign reversed, the score is the quotient
    of the two when the gross loss is positive; when it is not and the
    gross profit is positive, a thousand times the gross profit (not a
    fixed constant); and zero otherwise. *)
Theorem score_is_profit_over_loss (fma_g sma_g atr_g : list Z)
    (mult_g : list num) (fma_a sma_a atr_a : list (list num))
    (close : list num) (start end_ : Z) (trail : num) :
  length mult_g = length fma_g -> length fma_a = length fma_g ->
  length sma_a = length fma_g -> length atr_a = length fma_g ->
  Forall (fun row => length row = length close) fma_a ->
  Forall (fun row => length row = length close) sma_a ->
  Forall (fun row => length row = length close) atr_a ->
  (- Z.of_nat (length close) <= start)%Z ->
  (end_ <= Z.of_nat (length close))%Z ->
  exists scores,
    _score_params_numba fma_g sma_g atr_g mult_g fma_a sma_a atr_a close
      start end_ trail = Ok scores /\
    length scores = length fma_g /\
    forall k fma sma atr mult,
      fma_a !! k = Some fma -> sma_a !! k = Some sma ->
      atr_a !! k = Some atr -> mult_g !! k = Some mult ->
      let rets :=
        crossover_system.returns mult trail crossover_system.Flat
          (crossover_system.readings fma sma atr close start end_) in
      let profit := crossover_system.gross_profit rets in
      let loss := crossover_system.gross_loss rets in
      exists score,
        scores !! k = Some score /\
        (fgtb loss (ofZ 0) = true -> score = fdiv profit loss) /\
        (fgtb loss (ofZ 0) = false -> fgtb profit (ofZ 0) = true ->
         score = fmul profit (ofZ 1000)) /\
        (fgtb loss (ofZ 0) = false -> fgtb profit (ofZ 0) = false ->
         score = ofZ 0).
Proof.
  intros Hm Hfa Hsa Haa Hfr Hsr Har Hlo Hhi.
  unfold _score_params_numba.
  set (body := fun k : nat => _).
  destruct (mapM_result_Forall2 body
    (fun k score => forall fma sma atr mult,
       fma_a !! k = Some fma -> sma_a !! k = Some sma ->
       atr_a !! k = Some atr -> mult_g !! k = Some mult ->
       exists st, score_loop fma sma atr close mult start end_ trail = Ok st /\
         score = final_score st)
    (seq 0 (length fma_g))) as (scores & Hscores & Hall).
  { apply Forall_forall. intros k Hk. apply elem_of_seq in Hk.
    destruct (lookup_lt_is_Some_2 fma_a k) as [fma Hfma]; [lia|].
    destruct (lookup_lt_is_Some_2 sma_a k) as [sma Hsma]; [lia|].
    destruct (lookup_lt_is_Some_2 atr_a k) as [atr Hatr]; [lia|].
    destruct (lookup_lt_is_Some_2 mult_g k) as [mult Hmult]; [lia|].
    destruct (score_tuple_simulates fma sma atr close mult start end_ trail)
      as (st & Hst & _); try done.
    { exact (Forall_lookup_1 _ _ _ _ Hfr Hfma). }
    { exact (Forall_lookup_1 _ _ _ _ Hsr Hsma). }
    { exact (Forall_lookup_1 _ _ _ _ Har Hatr). }
    exists (final_score st). split.
    - subst body. cbn beta. rewrite Hfma, Hsma, Hatr, Hmult.
      cbn [of_option mbind result_bind]. unfold score_tuple.
      rewrite Hst. done.
    - intros fma' sma' atr' mult' ? ? ? ?. simplify_eq. eauto. }
  exists scores. split; [done|].
  pose proof (Forall2_length _ _ _ Hall) as Hlen. rewrite length_seq in Hlen.
  split; [done|].
  intros k fma sma atr mult Hfma Hsma Hatr Hmult. cbv zeta.
  assert (k < length fma_g)%nat as Hk.
  { apply lookup_lt_Some in Hfma. lia. }
  destruct (lookup_lt_is_Some_2 scores k) as [score Hscore]; [lia|].
  assert (seq 0 (length fma_g) !! k = Some k) as Hseq.
  { by apply lookup_seq. }
  destruct (Forall2_lookup_lr _ _ _ _ _ _ Hall Hseq Hscore
              fma sma atr mult Hfma Hsma Hatr Hmult)
    as (st & Hst & ->).
  destruct (score_tuple_simulates fma sma atr close mult start end_ trail)
    as (st' & Hst' & Hgp & Hgl); try done.
  { exact (Forall_lookup_1 _ _ _ _ Hfr Hfma). }
  { exact (Forall_lookup_1 _ _ _ _ Hsr Hsma). }
  { exact (Forall_lookup_1 _ _ _ _ Har Hatr). }
  rewrite Hst in Hst'. injection Hst' as <-.
  exists (final_score st). split; [done|].
  cbv zeta in Hgp, Hgl. rewrite <- Hgp, <- Hgl.
  apply final_score_cases.
Qed.

End Scorer.

Lemma score_is_profit_over_loss_witness :
  exists scores,
    dynamic_momentum_optimizer._score_params_numba [10%Z] [90%Z] [10%Z]
      [ofZ 1] [cross_fast] [cross_slow] [unit_atr]
      (ofZ <$> [10%Z; 10%Z; 11%Z]) 0 3 (ofZ 1) = Ok scores /\
    length scores = 1%nat /\
    forall k fma sma atr mult,
      [cross_fast] !! k = Some fma -> [cross_slow] !! k = Some sma ->
      [unit_atr] !! k = Some atr -> [ofZ 1] !! k = Some mult ->
      let rets :=
        crossover_system.returns mult (ofZ 1) crossover_system.Flat
          (crossover_system.readings fma sma atr
             (ofZ <$> [10%Z; 10%Z; 11%Z]) 0 3) in
      let profit := crossover_system.gross_profit rets in
      let loss := crossover_system.gross_loss rets in
      exists score,
        scores !! k = Some score /\
        (fgtb loss (ofZ 0) = true -> score = fdiv profit loss) /\
        (fgtb loss (ofZ 0) = false -> fgtb profit (ofZ 0) = true ->
         score = fmul profit (ofZ 1000)) /\
        (fgtb loss (ofZ 0) = false -> fgtb profit (ofZ 0) = false ->
         score = ofZ 0).
Proof.
  apply (score_is_profit_over_loss [10%Z] [90%Z] [10%Z] [ofZ 1]
           [cross_fast] [cross_slow] [unit_atr]
           (ofZ <$> [10%Z; 10%Z; 11%Z]) 0 3 (ofZ 1));
    [reflexivity | reflexivity | reflexivity | reflexivity
    | repeat constructor | repeat constructor | repeat constructor
    | simpl; lia | simpl; lia].
Defined.

(** C6 as stated fails where it calls the score without losses a
    constant: two runs that both end with no gross loss and a positive
    gross profit score 100 and 500, a thousand times their profits of
    1/10 and 1/2. *)
Lemma score_without_loss_counterexample :
  dynamic_momentum_optimizer.score_tuple cross_fast cross_slow unit_atr
    (ofZ <$> [10%Z; 10%Z; 11%Z]) (ofZ 1) 0 3 (ofZ 1) = Ok (ofZ 100) /\
  dynamic_momentum_optimizer.score_tuple cross_fast cross_slow unit_atr
    (ofZ <$> [10%Z; 10%Z; 15%Z]) (ofZ 1) 0 3 (ofZ 1) = Ok (ofZ 500) /\
  (dynamic_momentum_optimizer.gl <$>
     dynamic_momentum_optimizer.score_loop cross_fast cross_slow unit_atr
       (ofZ <$> [10%Z; 10%Z; 11%Z]) (ofZ 1) 0 3 (ofZ 1)) = Ok (ofZ 0) /\
  (dynamic_momentum_optimizer.gl <$>
     dynamic_momentum_optimizer.score_loop cross_fast cross_slow unit_atr
       (ofZ <$> [10%Z; 10%Z; 15%Z]) (ofZ 1) 0 3 (ofZ 1)) = Ok (ofZ 0) /\
  ofZ 100 <> ofZ 500.
Proof. split_and!; compute_done. Qed.

(** ** The grid strategy (claims C3 and C10) *)
Section Grid.
Import strategy_library.

Lemma ofZ_nonzero (z : Z) : z <> 0%Z -> Q2Qc (inject_Z z) <> 0%Qc.
Proof.
  intros Hz Heq. apply Qc_eq_iff in Heq. rewrite !this_Q2Qc in Heq.
  apply Hz. unfold Qeq in Heq. simpl in Heq. lia.
Qed.

Lemma checked_div_ofZ (x : num) (z : Z) :
  z <> 0%Z -> checked_div x (ofZ z) = Ok (fdiv x (ofZ z)).
Proof.
  intros Hz. unfold checked_div.
  destruct (feqb (ofZ z) (ofZ 0)) eqn:Heq; [|done].
  apply feqb_fin_true in Heq. by apply ofZ_nonzero in Heq.
Qed.

(** C10, as amended.  In exact arithmetic, initialising the grid
    back-test with capital [C > 0] at an effective start index [s >= 1]
    whose previous candle closed at a positive price, with a non-zero
    grid count, converts half the capital at that close: the cash is
    C/2, the base-asset quantity is (C/2) / close[s-1], and the equity
    curve consists of one point, cash + quantity * close[s-1], worth
    exactly C and stamped with the time of candle s-1. *)
Theorem grid_init_splits_capital (p : grid_params) (C P : Qc) (s : nat)
    (data : list candle) (c0 : candle) :
  (1 <= s)%nat ->
  data !! (s - 1)%nat = Some c0 ->
  close c0 = Fin P -> (0 < P)%Qc -> (0 < C)%Qc ->
  p_GQ_GRID_MAX_GRIDS p <> 0%Z ->
  exists st,
    init_continuous_backtest p (Fin C) (Z.of_nat s) data = Ok st /\
    cash st = Fin (C / Q2Qc 2) /\
    base_asset_qty st = Fin (C / Q2Qc 2 / P) /\
    equity_curve st = [(ts c0, Fin C)].
Proof.
  intros Hs Hc0 Hclose HP HC Hmax. unfold init_continuous_backtest.
  assert (py_index data (Z.of_nat s - 1) = Some c0) as ->.
  { unfold py_index. rewrite bool_decide_eq_true_2 by lia.
    by replace (Z.to_nat (Z.of_nat s - 1)) with (s - 1)%nat by lia. }
  cbn [of_option mbind result_bind].
  rewrite checked_div_ofZ by done. cbn [mbind result_bind].
  eexists. split; [reflexivity|]. cbn [cash base_asset_qty equity_curve].
  rewrite Hclose.
  assert (fdiv (Fin C) (ofZ 2) = Fin (C / Q2Qc 2)) as ->.
  { unfold ofZ. by rewrite fdiv_fin. }
  assert (P <> 0%Qc) as HP0 by (by apply not_eq_sym, Qclt_not_eq).
  rewrite fdiv_fin by done. split_and!; [done..|].
  cbn [fmul fadd]. do 3 f_equal. qc2q. field. by qc2q.
Qed.

Lemma grid_init_splits_capital_witness :
  exists st,
    init_continuous_backtest example_grid_params (Fin (Q2Qc 1000)) 1
      example_grid_data = Ok st /\
    cash st = Fin (Q2Qc 1000 / Q2Qc 2) /\
    base_asset_qty st = Fin (Q2Qc 1000 / Q2Qc 2 / Q2Qc 100) /\
    equity_curve st = [(0%Z, Fin (Q2Qc 1000))].
Proof.
  apply (grid_init_splits_capital example_grid_params (Q2Qc 1000) (Q2Qc 100)
           1 example_grid_data
           (Candle 0 (ofZ 100) (ofZ 100) (ofZ 100) (ofZ 100) (ofZ 1)));
    [lia | reflexivity | reflexivity | reflexivity | reflexivity | done].
Defined.

Lemma size_insert_le (m : gmap num bool) (k : num) (v : bool) :
  (size (<[k:=v]> m) <= S (size m))%nat.
Proof. rewrite map_size_insert. destruct (m !! k); simpl; lia. Qed.

Lemma size_delete_present (m : gmap num bool) (k : num) :
  is_Some (m !! k) -> S (size (delete k m)) = size m.
Proof.
  intros Hk. rewrite map_size_delete_Some by done.
  pose proof (map_size_ne_0_lookup_2 m k Hk). lia.
Qed.

Lemma place_orders_size next price n (m : gmap num bool) :
  (size (place_orders next price n m) <= size m + n)%nat.
Proof.
  revert price m. induction n as [|n IH]; intros price m; simpl; [lia|].
  etrans; [apply IH|]. pose proof (size_insert_le m price true). lia.
Qed.

Lemma levels_of_elem (m : gmap num bool) (k : num) :
  k ∈ levels_of m <-> is_Some (m !! k).
Proof. unfold levels_of. by rewrite elem_of_elements, elem_of_dom. Qed.

Lemma levels_of_NoDup (m : gmap num bool) : NoDup (levels_of m).
Proof. unfold levels_of. apply NoDup_elements. Qed.

Lemma replenish_size (m : gmap num bool) (pick : option num) (f : num -> num) :
  (size (match pick with Some k => <[f k := true]> m | None => m end)
   <= S (size m))%nat.
Proof. destruct pick; [apply size_insert_le | lia]. Qed.

Lemma replenish_keeps (m : gmap num bool) (pick : option num)
    (f : num -> num) (k : num) :
  is_Some (m !! k) ->
  is_Some ((match pick with Some k' => <[f k' := true]> m | None => m end) !! k).
Proof.
  intros Hk. destruct pick as [k'|]; [|done].
  destruct (decide (f k' = k)) as [->|Hne].
  - rewrite lookup_insert_eq. eauto.
  - by rewrite lookup_insert_ne.
Qed.

(** One buy fill: the buy side does not grow, the sell side grows by at
    most one level, no trade is closed, and every other buy level stays
    pending. *)
Lemma buy_fill_effect (self : grid) (level : num) :
  is_Some (buy_orders self !! level) ->
  let self' := buy_fill self level in
  (size (buy_orders self') <= size (buy_orders self))%nat /\
  (size (sell_orders self') <= S (size (sell_orders self)))%nat /\
  trades self' = trades self /\
  (forall k, k <> level -> is_Some (buy_orders self !! k) ->
             is_Some (buy_orders self' !! k)).
Proof.
  intros Hin. cbn zeta. unfold buy_fill.
  destruct (fltb (cash self) (quote_qty_per_grid self)); [by split_and!; try lia|].
  cbn [buy_orders sell_orders trades]. split_and!.
  - pose proof (size_delete_present _ _ Hin).
    pose proof (replenish_size (delete level (buy_orders self))
                  (list_min (levels_of (delete level (buy_orders self))))
                  (fun k => fdiv k (grid_spacing_factor self))).
    cbn beta in *. lia.
  - apply size_insert_le.
  - done.
  - intros k Hne Hk. apply replenish_keeps with (f := fun k => fdiv k _).
    by rewrite lookup_delete_ne.
Qed.

(** One sell fill: the sell side does not grow, and the buy side grows
    by at most the one trade the fill closes. *)
Lemma sell_fill_effect (now : Z) (self : grid) (level : num) :
  is_Some (sell_orders self !! level) ->
  let self' := sell_fill now self level in
  (size (sell_orders self') <= size (sell_orders self))%nat /\
  (size (buy_orders self') + length (trades self)
     <= size (buy_orders self) + length (trades self'))%nat /\
  (length (trades self) <= length (trades self'))%nat /\
  (forall k, k <> level -> is_Some (sell_orders self !! k) ->
             is_Some (sell_orders self' !! k)).
Proof.
  intros Hin. cbn zeta. unfold sell_fill.
  destruct (fltb (base_asset_qty self) _); [by split_and!; try lia|].
  cbn [buy_orders sell_orders trades]. rewrite length_app. cbn [length].
  split_and!.
  - pose proof (size_delete_present _ _ Hin).
    pose proof (replenish_size (delete level (sell_orders self))
                  (list_max (levels_of (delete level (sell_orders self))))
                  (fun k => fmul k (grid_spacing_factor self))).
    cbn beta in *. lia.
  - pose proof (size_insert_le (buy_orders self)
                  (fdiv level (grid_spacing_factor self)) true). lia.
  - lia.
  - intros k Hne Hk. apply replenish_keeps with (f := fun k => fmul k _).
    by rewrite lookup_delete_ne.
Qed.

Lemma buy_loop_effect (levels : list num) (self : grid) :
  NoDup levels ->
  Forall (fun k => is_Some (buy_orders self !! k)) levels ->
  let self' := foldl buy_fill self levels in
  (size (buy_orders self') <= size (buy_orders self))%nat /\
  (size (sell_orders self') <= size (sell_orders self) + length levels)%nat /\
  trades self' = trades self.
Proof.
  revert self. induction levels as [|k levels IH]; intros self Hnd Hall.
  - cbn. split_and!; [lia..|done].
  - apply NoDup_cons in Hnd as [Hk Hnd].
    apply Forall_cons in Hall as [Hin Hall].
    destruct (buy_fill_effect self k Hin) as (Hb & Hs & Ht & Hkeep).
    destruct (IH (buy_fill self k) Hnd) as (Hb' & Hs' & Ht').
    { apply Forall_forall. intros k' Hk'. apply Hkeep.
      - intros ->. done.
      - by apply (proj1 (Forall_forall _ _) Hall). }
    cbn [foldl length]. cbn zeta in *. split_and!; [lia | lia | congruence].
Qed.

Lemma sell_loop_effect (now : Z) (levels : list num) (self : grid) :
  NoDup levels ->
  Forall (fun k => is_Some (sell_orders self !! k)) levels ->
  let self' := foldl (sell_fill now) self levels in
  (size (sell_orders self') <= size (sell_orders self))%nat /\
  (size (buy_orders self') + length (trades self)
     <= size (buy_orders self) + length (trades self'))%nat /\
  (length (trades self) <= length (trades self'))%nat.
Proof.
  revert self. induction levels as [|k levels IH]; intros self Hnd Hall.
  - cbn. split_and!; lia.
  - apply NoDup_cons in Hnd as [Hk Hnd].
    apply Forall_cons in Hall as [Hin Hall].
    destruct (sell_fill_effect now self k Hin) as (Hs & Hb & Ht & Hkeep).
    destruct (IH (sell_fill now self k) Hnd) as (Hs' & Hb' & Ht').
    { apply Forall_forall. intros k' Hk'. apply Hkeep.
      - intros ->. done.
      - by apply (proj1 (Forall_forall _ _) Hall). }
    cbn [foldl]. cbn zeta in *. split_and!; lia.
Qed.

Lemma sorted_NoDup (l : list num) : NoDup l -> NoDup (sorted l).
Proof. unfold sorted. by rewrite merge_sort_Permutation. Qed.

Lemma sorted_elem (l : list num) (k : num) : k ∈ sorted l <-> k ∈ l.
Proof. unfold sorted. by rewrite merge_sort_Permutation. Qed.

Lemma sorted_length (l : list num) : length (sorted l) = length l.
Proof. unfold sorted. by rewrite merge_sort_Permutation. Qed.

Lemma init_levels_bound (p : grid_params) (C : num) (s : Z)
    (data : list candle) (st : grid) :
  init_continuous_backtest p C s data = Ok st ->
  max_grids st = p_GQ_GRID_MAX_GRIDS p /\
  (Z.of_nat (pending_levels st) <= Z.max 0 (max_grids st))%Z.
Proof.
  unfold init_continuous_backtest.
  destruct (py_index data (s - 1)) as [c|]; [|done].
  cbn [of_option mbind result_bind].
  destruct (checked_div _ _) as [q|]; [|done]. cbn [mbind result_bind].
  intros [= <-]. cbn [max_grids]. split; [done|].
  unfold pending_levels. cbn [buy_orders sell_orders].
  set (mg := p_GQ_GRID_MAX_GRIDS p).
  match goal with
  | |- context [size (place_orders ?f ?x (Z.to_nat (mg / 2)) ∅)] =>
      pose proof (place_orders_size f x (Z.to_nat (mg / 2)) ∅) as Hb
  end.
  match goal with
  | |- context [size (place_orders ?f ?x (Z.to_nat (mg - mg / 2)) ∅)] =>
      pose proof (place_orders_size f x (Z.to_nat (mg - mg / 2)) ∅) as Hs
  end.
  rewrite map_size_empty in Hb, Hs.
  pose proof (Z.mul_div_le mg 2 ltac:(lia)).
  pose proof (Z.mul_succ_div_gt mg 2 ltac:(lia)).
  lia.
Qed.

Lemma process_candle_levels (self : grid) (i : nat) :
  let self' := process_candle self i in
  (pending_levels self' + length (trades self)
   <= pending_levels self
      + length (filled_buys self (low (data self !!! i)))
      + length (trades self'))%nat.
Proof.
  cbn zeta. unfold process_candle, pending_levels.
  cbn [buy_orders sell_orders trades].
  set (c := data self !!! i).
  set (bl := reverse (sorted (filled_buys self (low c)))).
  destruct (buy_loop_effect bl self) as (Hb & Hs & Ht).
  { subst bl. rewrite reverse_Permutation.
    apply sorted_NoDup, NoDup_filter, levels_of_NoDup. }
  { apply Forall_forall. intros k Hk. subst bl.
    apply elem_of_reverse, sorted_elem, list_elem_of_filter in Hk as [_ Hk].
    by apply levels_of_elem. }
  assert (length bl = length (filled_buys self (low c))) as Hlen.
  { subst bl. by rewrite length_reverse, sorted_length. }
  set (self1 := foldl buy_fill self bl) in *.
  set (sl := sorted (filled_sells self1 (high c))).
  destruct (sell_loop_effect (ts c) sl self1) as (Hs' & Hb' & Ht').
  { subst sl. apply sorted_NoDup, NoDup_filter, levels_of_NoDup. }
  { apply Forall_forall. intros k Hk. subst sl.
    apply sorted_elem, list_elem_of_filter in Hk as [_ Hk].
    by apply levels_of_elem. }
  cbn zeta in *. rewrite Ht in Hb'. lia.
Qed.

(** How the ladder grows.  A buy fill (remove the filled buy level, add
    the matching sell level one spacing factor above, replenish the low
    end of the buy ladder) leaves the buy side no larger and adds at most
    one sell level; a sell fill symmetrically adds at most one buy level.
    After a candle the number of pending levels is at most the number
    before, plus the buy levels the candle's low reached, plus the trades
    the candle closed: nothing trims the ladder back to its set-up
    size. *)
Lemma grid_levels_grow_with_fills :
  (forall p C s data st,
     init_continuous_backtest p C s data = Ok st ->
     max_grids st = p_GQ_GRID_MAX_GRIDS p /\
     (Z.of_nat (pending_levels st) <= Z.max 0 (max_grids st))%Z) /\
  (forall self level,
     is_Some (buy_orders self !! level) ->
     (size (buy_orders (buy_fill self level)) <= size (buy_orders self))%nat /\
     (size (sell_orders (buy_fill self level))
        <= S (size (sell_orders self)))%nat) /\
  (forall now self level,
     is_Some (sell_orders self !! level) ->
     (size (sell_orders (sell_fill now self level))
        <= size (sell_orders self))%nat /\
     (size (buy_orders (sell_fill now self level))
        <= S (size (buy_orders self)))%nat) /\
  (forall self i,
     (pending_levels (process_candle self i) + length (trades self)
      <= pending_levels self
         + length (filled_buys self (low (data self !!! i)))
         + length (trades (process_candle self i)))%nat).
Proof.
  split_and!.
  - apply init_levels_bound.
  - intros self level Hin.
    destruct (buy_fill_effect self level Hin) as (? & ? & _). by split.
  - intros now self level Hin.
    destruct (sell_fill_effect now self level Hin) as (Hs & Hb & Ht & _).
    split; [done|]. cbn zeta in *.
    assert (length (trades (sell_fill now self level))
            <= S (length (trades self)))%nat; [|lia].
    unfold sell_fill. destruct (fltb _ _); [lia|].
    cbn [trades]. rewrite length_app. cbn. lia.
  - apply process_candle_levels.
Qed.

End Grid.

(** C3.  The code does not keep the bound.  The ladder is set up with at
    most max_grid_count distinct pending levels (buy side plus sell
    side), but the first fill already exceeds that number: a ladder of
    four levels, 1% apart, opened at 100 holds four pending levels after
    set-up and five after a candle whose low of 99 fills the upper buy
    level, because the buy side is replenished to its full size while
    the matching sell level is added. *)
Theorem grid_levels_exceed_max_grids :
  (forall p C s data st,
     strategy_library.init_continuous_backtest p C s data = Ok st ->
     strategy_library.max_grids st = strategy_library.p_GQ_GRID_MAX_GRIDS p /\
     (Z.of_nat (pending_levels st)
      <= Z.max 0 (strategy_library.max_grids st))%Z) /\
  (fun st => (strategy_library.max_grids st, pending_levels st,
              pending_levels (strategy_library.process_candle st 1)))
    <$> strategy_library.init_continuous_backtest example_grid_params
          (ofZ 1000) 1 example_grid_data
  = Ok (4%Z, 4%nat, 5%nat).
Proof. split; [apply init_levels_bound | compute_done]. Qed.

(** ** The portfolio curve of the report (claim C5) *)
Section Aggregator.

Import engine_runner.

Implicit Types (s d : series) (t lo : Z) (C : num) (idx : list Z).

Lemma filter_all {A} (P : A -> Prop) `{!forall x, Decision (P x)} (l : list A) :
  Forall P l -> filter P l = l.
Proof. induction 1; [done|]. rewrite filter_cons_True by done. by f_equal. Qed.

Lemma filter_none {A} (P : A -> Prop) `{!forall x, Decision (P x)} (l : list A) :
  Forall (fun x => ~ P x) l -> filter P l = [].
Proof. induction 1; [done|]. by rewrite filter_cons_False. Qed.

Lemma filter_agree {A} (P Q : A -> Prop)
    `{!forall x, Decision (P x), !forall x, Decision (Q x)} (l : list A) :
  (forall x, x ∈ l -> P x <-> Q x) -> filter P l = filter Q l.
Proof.
  induction l as [|x l IH]; intros Hl; [done|].
  assert (filter P l = filter Q l) as Hrec.
  { apply IH. intros y Hy. apply Hl. by right. }
  destruct (decide (P x)) as [Hp|Hp].
  - rewrite !filter_cons_True; [by f_equal | by apply Hl; [left|] | done].
  - rewrite !filter_cons_False; [done | | done].
    intros Hq. apply Hp, Hl; [left | done].
Qed.

(** *** Reading a curve *)

Lemma delta_fst C s : fst <$> delta C s = fst <$> s.
Proof. unfold delta. rewrite <- list_fmap_compose. by apply list_fmap_ext. Qed.

Lemma delta_elem C s p :
  p ∈ delta C s <-> exists q, q ∈ s /\ p = (q.1, fsub q.2 C).
Proof.
  unfold delta. rewrite list_elem_of_fmap.
  split; intros (q & H1 & H2); exists q; by split.
Qed.

Lemma last_value_delta C s t :
  last_value (delta C s) t = (fun v => fsub v C) <$> last_value s t.
Proof.
  unfold last_value, delta.
  assert (filter (fun p : Z * num => (p.1 <= t)%Z)
            ((fun p : Z * num => (p.1, fsub p.2 C)) <$> s)
          = (fun p : Z * num => (p.1, fsub p.2 C))
              <$> filter (fun p : Z * num => (p.1 <= t)%Z) s) as ->.
  { induction s as [|p s IH]; [done|]. rewrite fmap_cons.
    destruct (decide (p.1 <= t)%Z).
    - rewrite !filter_cons_True by done. rewrite fmap_cons. by f_equal.
    - by rewrite !filter_cons_False. }
  rewrite fmap_last. by destruct (last _).
Qed.

Lemma last_value_elem s t v :
  StronglySorted (fun p q : Z * num => (p.1 < q.1)%Z) s ->
  (t, v) ∈ s -> last_value s t = Some v.
Proof.
  intros Hs (s1 & s2 & ->)%list_elem_of_split.
  apply StronglySorted_app in Hs as (H12 & _ & H2).
  apply StronglySorted_cons in H2 as [H2 _].
  unfold last_value. rewrite filter_app, filter_cons_True by (simpl; lia).
  rewrite (filter_none _ s2).
  - by rewrite last_snoc.
  - eapply Forall_impl; [exact H2|]. simpl. lia.
Qed.

Lemma last_value_none s lo :
  (forall p, p ∈ s -> (lo < p.1)%Z) -> last_value s lo = None.
Proof.
  intros Hlo. unfold last_value. rewrite filter_none; [done|].
  apply Forall_forall. intros p Hp. specialize (Hlo p Hp). lia.
Qed.

Lemma last_value_agree s t t' :
  (forall p, p ∈ s -> (p.1 <= t)%Z <-> (p.1 <= t')%Z) ->
  last_value s t = last_value s t'.
Proof. intros H. unfold last_value. by rewrite (filter_agree _ _ s H). Qed.

Lemma last_value_is_value s t v :
  last_value s t = Some v -> v ∈ snd <$> s.
Proof.
  unfold last_value. destruct (last _) as [p|] eqn:Hl; [|done].
  intros [= <-]. apply last_Some_elem_of, list_elem_of_filter in Hl as [_ Hp].
  apply list_elem_of_fmap. by exists p.
Qed.

Lemma value_at_elem s t v :
  StronglySorted (fun p q : Z * num => (p.1 < q.1)%Z) s ->
  (t, v) ∈ s -> value_at s t = v.
Proof.
  induction 1 as [|[t' v'] s Hs IH Hlt]; intros Hel; [by inv Hel|].
  simpl. apply elem_of_cons in Hel as [[= <- <-] | Hel].
  - by rewrite bool_decide_eq_true_2.
  - rewrite bool_decide_eq_false_2; [by apply IH|].
    intros ->. rewrite Forall_forall in Hlt. specialize (Hlt _ Hel).
    simpl in Hlt. lia.
Qed.

Lemma value_at_absent s t : t ∉ fst <$> s -> value_at s t = NaN.
Proof.
  induction s as [|[t' v'] s IH]; [done|]. rewrite fmap_cons. simpl.
  intros Hn. apply not_elem_of_cons in Hn as [Hne Hn].
  rewrite bool_decide_eq_false_2 by done. by apply IH.
Qed.

(** *** One column of the joined table *)

Lemma ffill_column d :
  StronglySorted (fun p q : Z * num => (p.1 < q.1)%Z) d ->
  Forall (fun p : Z * num => isnan p.2 = false) d ->
  forall idx L lo,
    StronglySorted Z.lt idx ->
    Forall (Z.lt lo) idx ->
    (forall p, p ∈ d -> (p.1 <= lo)%Z \/ p.1 ∈ idx) ->
    L = default NaN (last_value d lo) ->
    ffill_from L (value_at d <$> idx)
    = (fun t => default NaN (last_value d t)) <$> idx.
Proof.
  intros Hd Hnn. induction idx as [|t idx IH]; intros L lo Hidx Hlo Hcl HL.
  { done. }
  apply StronglySorted_cons in Hidx as [Hlt Hidx].
  apply Forall_cons in Hlo as [Hlo _].
  rewrite !fmap_cons. cbn [ffill_from]. cbv zeta.
  assert ((if isnan (value_at d t) then L else value_at d t)
          = default NaN (last_value d t)) as ->.
  { destruct (decide (t ∈ fst <$> d)) as [Hin|Hout].
    - apply list_elem_of_fmap in Hin as ([t' v] & Ht & Hp).
      simpl in Ht. subst t'.
      rewrite (value_at_elem d t v Hd Hp), (last_value_elem d t v Hd Hp).
      rewrite Forall_forall in Hnn. specialize (Hnn _ Hp). simpl in Hnn.
      by rewrite Hnn.
    - rewrite (value_at_absent d t Hout). simpl. rewrite HL. f_equal.
      apply last_value_agree. intros p Hp.
      destruct (Hcl p Hp) as [Hle | Hin]; [lia|].
      apply elem_of_cons in Hin as [Heq | Hin].
      + exfalso. apply Hout, list_elem_of_fmap. by exists p.
      + rewrite Forall_forall in Hlt. specialize (Hlt _ Hin). lia. }
  f_equal. apply (IH _ t); [done | done | | done].
  intros p Hp. destruct (Hcl p Hp) as [Hle | Hin]; [left; lia|].
  apply elem_of_cons in Hin as [Heq | Hin]; [left; lia | by right].
Qed.

Lemma delta_sorted C s :
  StronglySorted (fun p q : Z * num => (p.1 < q.1)%Z) s ->
  StronglySorted (fun p q : Z * num => (p.1 < q.1)%Z) (delta C s).
Proof. unfold delta. by apply StronglySorted_fmap. Qed.

Lemma fsub_fin (x y : num) :
  is_fin x = true -> is_fin y = true -> is_fin (fsub x y) = true.
Proof. by destruct x, y. Qed.

Lemma is_fin_not_nan (x : num) : is_fin x = true -> isnan x = false.
Proof. by destruct x. Qed.

Lemma delta_not_nan C s :
  all_finite (snd <$> s) -> is_fin C = true ->
  Forall (fun p : Z * num => isnan p.2 = false) (delta C s).
Proof.
  intros Hs HC. apply Forall_forall. intros p (q & Hq & ->)%delta_elem.
  simpl. apply is_fin_not_nan, fsub_fin; [|done].
  unfold all_finite in Hs. rewrite Forall_forall in Hs. apply Hs.
  apply list_elem_of_fmap. by exists q.
Qed.

Lemma carried_delta_fin C s t :
  all_finite (snd <$> s) -> is_fin C = true ->
  is_fin (carried_delta C s t) = true.
Proof.
  intros Hs HC. unfold carried_delta.
  destruct (last_value s t) as [v|] eqn:Hv; [|done].
  apply fsub_fin; [|done].
  unfold all_finite in Hs. rewrite Forall_forall in Hs.
  by apply Hs, (last_value_is_value s t).
Qed.

(** A curve's column after [ffill().fillna(0)]: at every row the curve's
    latest value up to that row, less the capital; zero above the curve's
    first row. *)
Lemma filled_column C s idx :
  well_formed_curve s -> is_fin C = true ->
  StronglySorted Z.lt idx ->
  (forall p, p ∈ s -> p.1 ∈ idx) ->
  fillna0 (ffill (value_at (delta C s) <$> idx))
  = (fun t => carried_delta C s t) <$> idx.
Proof.
  intros [Hs Hfin] HC Hidx Hmem.
  assert (forall p, p ∈ delta C s -> p.1 ∈ idx) as Hmem'.
  { intros p (q & Hq & ->)%delta_elem. simpl. by apply Hmem. }
  destruct idx as [|t0 idx]; [done|].
  unfold ffill.
  rewrite (ffill_column (delta C s) (delta_sorted C s Hs)
             (delta_not_nan C s Hfin HC) (t0 :: idx) NaN (t0 - 1)%Z Hidx).
  - unfold fillna0. rewrite <- list_fmap_compose.
    apply list_fmap_ext. intros _ t _. simpl.
    rewrite last_value_delta. unfold carried_delta.
    destruct (last_value s t) as [v|] eqn:Hv; [|done]. simpl.
    assert (is_fin (fsub v C) = true) as Hf.
    { apply fsub_fin; [|done].
      unfold all_finite in Hfin. rewrite Forall_forall in Hfin.
      by apply Hfin, (last_value_is_value s t). }
    by rewrite (is_fin_not_nan _ Hf).
  - apply StronglySorted_cons in Hidx as [Hlt _].
    constructor; [lia|]. eapply Forall_impl; [exact Hlt|]. simpl. lia.
  - intros p Hp. right. by apply Hmem'.
  - rewrite last_value_none; [done|]. intros p Hp.
    apply StronglySorted_cons in Hidx as [Hlt _].
    rewrite Forall_forall in Hlt.
    apply Hmem', elem_of_cons in Hp as [-> | Hp]; [lia|].
    specialize (Hlt _ Hp). lia.
Qed.

(** *** The row index *)

Lemma StronglySorted_le_lt (l : list Z) :
  StronglySorted Z.le l -> NoDup l -> StronglySorted Z.lt l.
Proof.
  induction 1 as [|x l Hl IH Hx]; intros Hnd; [constructor|].
  apply NoDup_cons in Hnd as [Hx' Hnd]. constructor; [by apply IH|].
  rewrite Forall_forall in Hx. apply Forall_forall. intros y Hy.
  specialize (Hx y Hy). assert (x <> y) by (by intros ->). lia.
Qed.

Lemma union_index_sorted (curves : list series) :
  StronglySorted Z.lt (union_index curves).
Proof.
  unfold union_index. apply StronglySorted_le_lt.
  - apply StronglySorted_merge_sort; apply _.
  - rewrite merge_sort_Permutation. apply NoDup_remove_dups.
Qed.

Lemma union_index_elem (curves : list series) t :
  t ∈ union_index curves <-> exists s, s ∈ curves /\ t ∈ fst <$> s.
Proof.
  unfold union_index.
  rewrite merge_sort_Permutation, elem_of_remove_dups, list_elem_of_In.
  rewrite in_concat. split.
  - intros (l & Hl & Ht). apply list_elem_of_In in Hl, Ht.
    apply list_elem_of_fmap in Hl as (s & -> & Hs). by exists s.
  - intros (s & Hs & Ht). exists (fst <$> s).
    split; apply list_elem_of_In; [|done].
    apply list_elem_of_fmap. by exists s.
Qed.

Lemma union_index_delta (curves : list series) C :
  union_index (delta C <$> curves) = union_index curves.
Proof.
  unfold union_index. do 3 f_equal. rewrite <- list_fmap_compose.
  apply list_fmap_ext. intros _ s _. apply delta_fst.
Qed.

Lemma pd_sum_all_finite (l : list num) : all_finite l -> pd_sum l = np_sum l.
Proof.
  intros Hl. unfold pd_sum. rewrite filter_all; [done|].
  eapply Forall_impl; [exact Hl|]. apply is_fin_not_nan.
Qed.

(** *** The aggregated curve *)

Lemma aggregate_rows (curves : list series) C total :
  Forall well_formed_curve curves -> is_fin C = true ->
  _aggregate_curves curves C total
  = (fun t => (t, fadd (np_sum ((fun s => carried_delta C s t) <$> curves))
                    total)) <$> union_index curves.
Proof.
  intros Hwf HC. unfold _aggregate_curves.
  destruct curves as [|s0 cs] eqn:Hcurves; [done|].
  rewrite <- Hcurves in *. clear Hcurves s0 cs.
  cbv zeta. rewrite union_index_delta.
  rewrite <- (imap_const
    (fun t => (t, fadd (np_sum ((fun s => carried_delta C s t) <$> curves))
                    total)) (union_index curves)).
  apply imap_ext. intros j t Hj. unfold const.
  do 2 f_equal. rewrite <- !list_fmap_compose.
  rewrite (list_fmap_ext _ (fun s => carried_delta C s t) curves).
  - apply pd_sum_all_finite, Forall_fmap, Forall_forall. intros s Hs.
    rewrite Forall_forall in Hwf. destruct (Hwf s Hs) as [_ Hfin].
    by apply carried_delta_fin.
  - intros i s Hs.
    change (fillna0 (ffill (value_at (delta C s) <$> union_index curves))
              !!! j = carried_delta C s t).
    rewrite (filled_column C s (union_index curves)).
    + apply list_lookup_total_correct. by rewrite list_lookup_fmap, Hj.
    + exact (Forall_lookup_1 _ _ _ _ Hwf Hs).
    + done.
    + apply union_index_sorted.
    + intros p Hp. apply union_index_elem. exists s. split.
      * by eapply list_elem_of_lookup_2.
      * apply list_elem_of_fmap. by exists p.
Qed.

(** *** After a curve has ended *)

Lemma curve_ends_last s t v :
  StronglySorted (fun p q : Z * num => (p.1 < q.1)%Z) s ->
  last s = Some (t, v) -> forall p, p ∈ s -> (p.1 <= t)%Z.
Proof.
  intros Hs [s' ->]%last_Some p Hp.
  apply StronglySorted_app in Hs as (Hlt & _ & _).
  apply elem_of_app in Hp as [Hp | ->%list_elem_of_singleton]; [|done].
  specialize (Hlt p (t, v) Hp). simpl in Hlt.
  assert (p.1 < t)%Z; [|lia]. apply Hlt. by left.
Qed.

Lemma carried_delta_after_last C s t v t' :
  well_formed_curve s -> last s = Some (t, v) -> (t <= t')%Z ->
  carried_delta C s t' = fsub v C.
Proof.
  intros [Hs _] Hlast Hle. unfold carried_delta, last_value.
  rewrite filter_all; [by rewrite Hlast|].
  apply Forall_forall. intros p Hp.
  pose proof (curve_ends_last s t v Hs Hlast p Hp). lia.
Qed.

Lemma last_of_sorted (l : list Z) (x : Z) :
  StronglySorted Z.lt l -> x ∈ l -> (forall y, y ∈ l -> (y <= x)%Z) ->
  last l = Some x.
Proof.
  intros Hl Hx Hmax. destruct l as [|z l _] using rev_ind; [by inv Hx|].
  rewrite last_snoc. f_equal.
  apply StronglySorted_app in Hl as (Hlt & _ & _).
  assert (z <= x)%Z as Hzx.
  { apply Hmax, elem_of_app. right. by left. }
  apply elem_of_app in Hx as [Hx | ->%list_elem_of_singleton]; [|done].
  assert (x < z)%Z; [|lia]. apply Hlt; [done | by left].
Qed.

Lemma two_curves_final_value s1 s2 t1 t2 :
  well_formed_curve s1 -> well_formed_curve s2 ->
  last s1 = Some (t1, ofZ 1100) -> last s2 = Some (t2, ofZ 900) ->
  last (portfolio_equity [s1; s2] (ofZ 1000))
  = Some (Z.max t1 t2, ofZ 2000).
Proof.
  intros Hw1 Hw2 Hl1 Hl2. unfold portfolio_equity. cbv zeta.
  assert (Forall well_formed_curve [s1; s2]) as Hwf.
  { apply Forall_cons. split; [done|]. by apply Forall_singleton. }
  rewrite (aggregate_rows [s1; s2] (ofZ 1000) _ Hwf eq_refl).
  rewrite fmap_last.
  rewrite (last_of_sorted _ (Z.max t1 t2) (union_index_sorted _)).
  - simpl.
    rewrite (carried_delta_after_last _ s1 t1 (ofZ 1100)) by (done || lia).
    rewrite (carried_delta_after_last _ s2 t2 (ofZ 900)) by (done || lia).
    reflexivity.
  - apply union_index_elem.
    destruct (Z.max_spec t1 t2) as [[_ ->] | [_ ->]].
    + exists s2. split; [by right; left|].
      apply list_elem_of_fmap. exists (t2, ofZ 900).
      split; [done | by apply last_Some_elem_of].
    + exists s1. split; [by left|].
      apply list_elem_of_fmap. exists (t1, ofZ 1100).
      split; [done | by apply last_Some_elem_of].
  - intros y (s & Hs & Hy)%union_index_elem.
    apply list_elem_of_fmap in Hy as (p & -> & Hp).
    apply elem_of_cons in Hs as [-> | Hs].
    { pose proof (curve_ends_last s1 t1 _ (proj1 Hw1) Hl1 p Hp). lia. }
    apply list_elem_of_singleton in Hs as ->.
    pose proof (curve_ends_last s2 t2 _ (proj1 Hw2) Hl2 p Hp). lia.
Qed.

(** C5.  For equity curves with strictly increasing timestamps and
    defined values, and a defined per-test capital C, the portfolio curve
    of the report has one point for every timestamp that occurs in some
    curve, in ascending order, and its value there is the sum over the
    curves of (the curve's latest value at or before that timestamp,
    less C) plus N times C; a curve contributes zero before its own
    first timestamp, and from its last timestamp on it contributes its
    last value less C.  For any two such curves that end at 1100 and at
    900, with C = 1000, the last point of the portfolio curve lies at the
    later of the two end dates and is worth exactly 2000; so it is for
    the curves 1000, 1050, 1100 over three days and 1000, 900 over the
    first two of them. *)
Theorem portfolio_curve_sums_carried_deltas :
  (forall (curves : list series) C,
     Forall well_formed_curve curves -> is_fin C = true ->
     portfolio_equity curves C
     = (fun t => (t, portfolio_value curves C t)) <$> union_index curves /\
     StronglySorted Z.lt (union_index curves) /\
     (forall t, t ∈ union_index curves
                <-> exists s, s ∈ curves /\ t ∈ fst <$> s)) /\
  (forall C s t v t',
     well_formed_curve s -> last s = Some (t, v) -> (t <= t')%Z ->
     carried_delta C s t' = fsub v C) /\
  (forall s1 s2 t1 t2,
     well_formed_curve s1 -> well_formed_curve s2 ->
     last s1 = Some (t1, ofZ 1100) -> last s2 = Some (t2, ofZ 900) ->
     last (portfolio_equity [s1; s2] (ofZ 1000))
     = Some (Z.max t1 t2, ofZ 2000)) /\
  last (portfolio_equity [curve_up; curve_down] (ofZ 1000))
  = Some (172800%Z, ofZ 2000).
Proof.
  split_and!.
  - intros curves C Hwf HC. split_and!.
    + unfold portfolio_equity. cbv zeta. by rewrite aggregate_rows.
    + apply union_index_sorted.
    + apply union_index_elem.
  - apply carried_delta_after_last.
  - apply two_curves_final_value.
  - by vm_compute.
Qed.

End Aggregator.

Lemma portfolio_curve_sums_carried_deltas_witness :
  engine_runner.portfolio_equity [curve_up; curve_down] (ofZ 1000)
  = (fun t => (t, portfolio_value [curve_up; curve_down] (ofZ 1000) t))
      <$> engine_runner.union_index [curve_up; curve_down].
Proof.
  apply (proj1 portfolio_curve_sums_carried_deltas).
  - repeat constructor; simpl; lia.
  - reflexivity.
Defined.

(** ** The opening equity of the grid in binary64 (claim C10) *)
Section GridRounding.

Import PrimFloat.

(** C10 as stated does not survive rounding: with a capital of 1000.1
    (the float 0x1.f40cccccccccdp+9) and a close of 0.03 (the float
    0x1.eb851eb851eb8p-6) the cash is 500.05, the quantity
    16668.333333333336, and the first equity point 1000.1000000000001,
    one unit in the last place above the capital. *)
Lemma grid_init_equity_rounding_counterexample :
  strategy_library.binary64.initial_equity
    0x1.f40cccccccccdp+9 0x1.eb851eb851eb8p-6
  = 0x1.f40cccccccccep+9%float /\
  PrimFloat.eqb
    (strategy_library.binary64.initial_equity
       0x1.f40cccccccccdp+9 0x1.eb851eb851eb8p-6)
    0x1.f40cccccccccdp+9 = false /\
  PrimFloat.ltb 0 0x1.f40cccccccccdp+9 = true /\
  PrimFloat.ltb 0 0x1.eb851eb851eb8p-6 = true.
Proof. repeat split; vm_compute; reflexivity. Qed.

End GridRounding.

(** ** Sums of rationals *)
Section RationalSums.









End RationalSums.

(** ** Windows and means *)
Section WindowsAndMeans.
Import indicators.

Lemma length_window (arr : list num) (w i : nat) :
  (w <= i + 1)%nat -> (i < length arr)%nat -> length (window arr w i) = w.
Proof. intros Hw Hi. unfold window. rewrite length_take, length_drop. lia. Qed.



End WindowsAndMeans.

(** ** The rolling slope *)
Section RollingSlope.
Import indicators.

(** An invariant indexed by the loop counter, for a loop that may raise. *)
Lemma loopM_seq_inv {S : Type} (P : nat -> S -> Prop)
    (f : S -> nat -> result S) (k m : nat) (s : S) :
  P k s ->
  (forall i s, (k <= i < k + m)%nat -> P i s ->
     exists s', f s i = Ok s' /\ P (Datatypes.S i) s') ->
  exists s', loopM f s (seq k m) = Ok s' /\ P (k + m)%nat s'.
Proof.
  revert k s. induction m as [|m IH]; intros k s H0 Hstep; simpl.
  - exists s. by rewrite Nat.add_0_r.
  - destruct (Hstep k s ltac:(lia) H0) as (s1 & -> & H1).
    cbn [mbind result_bind].
    replace (k + Datatypes.S m)%nat with (Datatypes.S k + m)%nat by lia.
    apply IH; [done|]. intros i s' Hi. apply Hstep. lia.
Qed.

Lemma feqb_nonzero (d : Qc) : d <> 0%Qc -> feqb (Fin d) (ofZ 0) = false.
Proof.
  intros Hd. unfold feqb. apply bool_decide_eq_false_2.
  intros [= H]. by apply Hd.
Qed.

(** For a window of two or more the denominator is a non-zero number. *)
Lemma slope_denom (w : nat) :
  (2 <= w)%nat ->
  exists d, fdiv (ofZ (Z.of_nat w * (Z.of_nat w ^ 2 - 1))) (ofZ 12) = Fin d /\
            d <> 0%Qc.
Proof.
  intros Hw. set (z := (Z.of_nat w * (Z.of_nat w ^ 2 - 1))%Z).
  assert (0 < z)%Z as Hz by (subst z; nia).
  unfold ofZ. eexists. split.
  - apply fdiv_fin. by intros [= H].
  - apply not_eq_sym, Qclt_not_eq. qc2q.
    apply Qlt_shift_div_l; [reflexivity|].
    rewrite Qmult_0_l. change 0%Q with (inject_Z 0). by rewrite <- Zlt_Qlt.
Qed.

End RollingSlope.

(** ** The rolling slope on a poisoned input and with a window of one *)
Section RollingSlopeCases.
Import indicators.

(** *** A not-a-number entry in the first window *)

Lemma fadd_nan_r (x : num) : fadd x NaN = NaN.
Proof. by destruct x. Qed.

Lemma foldl_fadd_nan (l : list num) : foldl fadd NaN l = NaN.
Proof. induction l as [|x l IH]; [done|]. simpl. apply IH. Qed.

Lemma np_sum_nan (l : list num) : NaN ∈ l -> np_sum l = NaN.
Proof.
  unfold np_sum. generalize (ofZ 0).
  induction l as [|x l IH]; intros a Hin; [by inv Hin|].
  simpl. apply elem_of_cons in Hin as [<- | Hin].
  - rewrite fadd_nan_r. apply foldl_fadd_nan.
  - by apply IH.
Qed.

Lemma initial_sum_xy_nan (arr : list num) (w : nat) :
  (w <= length arr)%nat -> NaN ∈ take w arr ->
  loopM (fun s k => a ← nb_get arr (Z.of_nat k);
                    Ok (fadd s (fmul a (ofnat k))))
        (ofZ 0) (seq 0 w)
  = Ok NaN.
Proof.
  intros Hw Hin. apply list_elem_of_lookup_1 in Hin as [k0 Hk0].
  apply lookup_take_Some in Hk0 as [Hk0 Hlt].
  destruct (loopM_seq_inv (fun i s => (k0 < i)%nat -> s = NaN)
    (fun s k => a ← nb_get arr (Z.of_nat k);
                Ok (fadd s (fmul a (ofnat k)))) 0 w (ofZ 0))
    as (s' & -> & Hs'); [lia| |by rewrite Hs' by lia].
  intros i s Hi Hs.
  destruct (lookup_lt_is_Some_2 arr i) as [x Hx]; [lia|].
  assert (nb_get arr (Z.of_nat i) = Ok x) as ->.
  { unfold nb_get, py_index. rewrite bool_decide_eq_true_2 by lia.
    by rewrite Nat2Z.id, Hx. }
  cbn [mbind result_bind]. eexists. split; [reflexivity|].
  intros Hlt'. destruct (decide (i = k0)) as [->|Hne].
  - rewrite Hk0 in Hx. injection Hx as <-. cbn [fmul]. apply fadd_nan_r.
  - by rewrite Hs by lia.
Qed.

(** What the main loop maintains once the sums are poisoned. *)
Definition poisoned_inv (n i : nat) (st : slope_state) : Prop :=
  length (slope_out st) = n /\ sum_y st = NaN /\ sum_xy st = NaN /\
  forall j, (j < i)%nat -> slope_out st !! j = Some NaN.

Lemma slope_step_poisoned (arr : list num) (w i : nat) (denom : num)
    (st : slope_state) :
  (i < length arr)%nat ->
  poisoned_inv (length arr) i st ->
  poisoned_inv (length arr) (S i) (slope_step arr w denom st i).
Proof.
  intros Hi (Hlen & Hsy & Hsxy & Hout). unfold slope_step, poisoned_inv.
  rewrite Hsy, Hsxy.
  assert ((if bool_decide (w <= i)%nat then
             (fadd NaN (fsub (arr !!! i) (arr !!! (i - w)%nat)),
              fadd (fsub NaN (fsub NaN (arr !!! (i - w)%nat)))
                   (fmul (arr !!! i) (ofnat (w - 1))))
           else (NaN, NaN)) = (NaN, NaN)) as ->.
  { by case_bool_decide. }
  cbn [sum_y sum_xy slope_out]. rewrite length_insert.
  split_and!; [done..|].
  intros j Hj. destruct (decide (j = i)) as [->|Hne].
  - by rewrite list_lookup_insert_eq by lia.
  - rewrite list_lookup_insert_ne by lia. apply Hout. lia.
Qed.

Lemma rolling_slope_poisoned (junk : nat -> num) (arr : list num) (w : nat) :
  (2 <= w <= length arr)%nat -> NaN ∈ take w arr ->
  _rolling_slope_numba junk arr w = Ok (replicate (length arr) NaN).
Proof.
  intros [Hw Hn] Hin. unfold _rolling_slope_numba.
  destruct (slope_denom w Hw) as (d & Hd & Hd0).
  rewrite Hd, (feqb_nonzero d Hd0).
  rewrite (initial_sum_xy_nan arr w Hn Hin). cbn [mbind result_bind].
  rewrite (np_sum_nan _ Hin). f_equal.
  destruct w as [|w1]; [lia|]. cbn [Nat.sub]. rewrite Nat.sub_0_r.
  pose proof (foldl_seq_inv (poisoned_inv (length arr))
                (slope_step arr (S w1) (Fin d)) w1 (length arr - w1)
                (SlopeState NaN NaN
                   (fill_nan w1 (np_empty junk (length arr))))) as Hloop.
  replace (w1 + (length arr - w1))%nat with (length arr) in Hloop by lia.
  destruct Hloop as (Hlen & _ & _ & Hout).
  - unfold poisoned_inv. cbn [sum_y sum_xy slope_out].
    rewrite length_fill_nan, length_np_empty. split_and!; [done..|].
    intros j Hj. apply lookup_fill_nan; [done|].
    rewrite length_np_empty. lia.
  - intros i st Hi Hinv. apply slope_step_poisoned; [lia | done].
  - apply list_eq. intros j.
    destruct (decide (j < length arr)%nat) as [Hlt|Hge].
    + rewrite Hout by done. symmetry. by apply lookup_replicate_2.
    + rewrite !lookup_ge_None_2; [done | rewrite length_replicate; lia | lia].
Qed.

(** X5.  A single not-a-number entry among the first [w] inputs poisons the
    running sums for good: every entry of the rolling slope is
    not-a-number, however many defined inputs follow. *)
Theorem rolling_slope_never_recovers (junk : nat -> num) (arr : list num)
    (w : nat) :
  (2 <= w <= length arr)%nat -> NaN ∈ take w arr ->
  exists out, _rolling_slope_numba junk arr w = Ok out /\
    length out = length arr /\ Forall (fun x => x = NaN) out.
Proof.
  intros Hw Hin. rewrite (rolling_slope_poisoned junk arr w Hw Hin).
  eexists. split; [reflexivity|]. rewrite length_replicate. split; [done|].
  apply Forall_forall. by intros x [-> _]%elem_of_replicate.
Qed.

(** X6.  With a window of one (or zero) the denominator is zero and the
    kernel returns its output buffer as the allocator left it: for
    [w = 1] no entry of the result was ever written. *)
Theorem rolling_slope_window_one (junk : nat -> num) (arr : list num) :
  _rolling_slope_numba junk arr 1 = Ok (junk <$> seq 0 (length arr)) /\
  _rolling_slope_numba junk arr 0
  = Ok (replicate (length arr - 1) NaN
        ++ drop (length arr - 1) (junk <$> seq 0 (length arr))).
Proof.
  unfold _rolling_slope_numba.
  assert (feqb (fdiv (ofZ (Z.of_nat 1 * (Z.of_nat 1 ^ 2 - 1))) (ofZ 12))
               (ofZ 0) = true) as -> by (by vm_compute).
  assert (feqb (fdiv (ofZ (Z.of_nat 0 * (Z.of_nat 0 ^ 2 - 1))) (ofZ 12))
               (ofZ 0) = true) as -> by (by vm_compute).
  split.
  - unfold fill_nan, np_empty. by rewrite drop_0.
  - unfold fill_nan, np_empty. rewrite length_fmap, length_seq.
    by replace ((length arr - 1) `min` length arr)%nat
         with (length arr - 1)%nat by lia.
Qed.

(** X7.  The slope indicator the factory builds for a period of two or more
    is the slope of the SMA of the close, warm-up markers included: it
    is not-a-number at every index. *)
Theorem slope_indicator_is_all_nan (junk_sma junk_slope : nat -> num)
    (close : list num) (inds : gmap string (list num)) (p : nat) :
  (2 <= p <= length close)%nat -> all_finite close ->
  (forall sma, inds !! indicator_key "sma" (Z.of_nat p) = Some sma ->
     exists junk0, _sma_numba junk0 close p = Ok sma) ->
  exists inds',
    slope_branch junk_sma junk_slope close inds p = Ok inds' /\
    inds' !! indicator_key "slope" (Z.of_nat p)
    = Some (replicate (length close) NaN).
Proof.
  intros Hp Hfin Hsma. unfold slope_branch.
  assert (exists inds1 sma junk0,
    match inds !! indicator_key "sma" (Z.of_nat p) with
    | Some _ => Ok inds
    | None => sma ← _sma_numba junk_sma close p;
              Ok (<[indicator_key "sma" (Z.of_nat p) := sma]> inds)
    end = Ok inds1 /\
    inds1 !! indicator_key "sma" (Z.of_nat p) = Some sma /\
    _sma_numba junk0 close p = Ok sma) as (inds1 & sma & junk0 & -> & Hk & Hs).
  { destruct (inds !! indicator_key "sma" (Z.of_nat p)) as [sma|] eqn:Hk.
    - destruct (Hsma sma eq_refl) as [junk0 Hj]. by exists inds, sma, junk0.
    - destruct (sma_defined junk_sma close p) as (sma & Hs & _); [lia|done|].
      exists (<[indicator_key "sma" (Z.of_nat p) := sma]> inds), sma, junk_sma.
      rewrite Hs. cbn [mbind result_bind].
      by rewrite lookup_insert_eq. }
  cbn [mbind result_bind]. rewrite Hk. cbn [of_option mbind result_bind].
  destruct (sma_defined junk0 close p) as (sma' & Hs' & Hlen & Hnan & _);
    [lia|done|].
  rewrite Hs in Hs'. injection Hs' as <-.
  rewrite (rolling_slope_poisoned junk_slope sma p).
  - cbn [mbind result_bind]. eexists. split; [reflexivity|].
    by rewrite lookup_insert_eq, Hlen.
  - lia.
  - apply (list_elem_of_lookup_2 _ 0%nat), lookup_take_Some.
    split; [apply Hnan|]; lia.
Qed.

End RollingSlopeCases.

Lemma rolling_slope_never_recovers_witness :
  exists out,
    indicators._rolling_slope_numba (fun _ => ofZ 0)
      [NaN; ofZ 1; ofZ 2; ofZ 3; ofZ 4] 2 = Ok out /\
    length out = 5%nat /\ Forall (fun x => x = NaN) out.
Proof.
  apply (rolling_slope_never_recovers (fun _ => ofZ 0)
           [NaN; ofZ 1; ofZ 2; ofZ 3; ofZ 4] 2).
  - simpl. lia.
  - simpl. by left.
Defined.

Lemma slope_indicator_is_all_nan_witness :
  exists inds',
    indicators.slope_branch (fun _ => ofZ 0) (fun _ => ofZ 0)
      [ofZ 1; ofZ 2; ofZ 4; ofZ 8] ∅ 2 = Ok inds' /\
    inds' !! indicator_key "slope" 2 = Some (replicate 4 NaN).
Proof.
  apply (slope_indicator_is_all_nan (fun _ => ofZ 0) (fun _ => ofZ 0)
           [ofZ 1; ofZ 2; ofZ 4; ofZ 8] ∅ 2).
  - simpl. lia.
  - repeat constructor.
  - intros sma Hs. by rewrite lookup_empty in Hs.
Defined.

(** ** The relative strength index *)
Section Rsi.
Import indicators.












End Rsi.


(** ** The average true range *)
Section Atr.
Import indicators.

Lemma max_step_Fin (a b : Qc) :
  exists m, max_step (Fin a) (Fin b) = Fin m /\ (a <= m)%Qc /\ (b <= m)%Qc /\
            (m = a \/ m = b).
Proof.
  unfold max_step, fgtb. simpl. case_bool_decide as Hab.
  - exists b. split_and!; [done | by apply Qclt_le_weak | apply Qcle_refl | by right].
  - exists a. split_and!; [done | apply Qcle_refl | by apply Qcnot_lt_le | by left].
Qed.

Lemma min_step_Fin (a b : Qc) :
  exists m, min_step (Fin a) (Fin b) = Fin m /\ (m <= a)%Qc /\ (m <= b)%Qc /\
            (m = a \/ m = b).
Proof.
  unfold min_step. simpl. case_bool_decide as Hab.
  - exists b. split_and!; [done | by apply Qclt_le_weak | apply Qcle_refl | by right].
  - exists a. split_and!; [done | apply Qcle_refl | by apply Qcnot_lt_le | by left].
Qed.







End Atr.


(** ** Rolling extremes and the Donchian channel *)
Section RollingExtremes.
Import indicators.

Lemma foldl_max_step (a : Qc) (qs : list Qc) :
  exists m, foldl max_step (Fin a) (Fin <$> qs) = Fin m /\
    m ∈ a :: qs /\ Forall (fun q => (q <= m)%Qc) (a :: qs).
Proof.
  revert a. induction qs as [|q qs IH]; intros a.
  - exists a. split; [done|]. split; [by left|].
    constructor; [apply Qcle_refl | constructor].
  - rewrite fmap_cons. cbn [foldl].
    destruct (max_step_Fin a q) as (m1 & -> & Ha & Hq & Hor).
    destruct (IH m1) as (m & -> & Hin & Hall).
    exists m. split; [done|].
    apply Forall_cons in Hall as [Hm1 Hall]. split.
    + apply elem_of_cons in Hin as [-> | Hin].
      * destruct Hor as [-> | ->]; [by left | right; by left].
      * right; by right.
    + constructor; [by eapply Qcle_trans|].
      constructor; [by eapply Qcle_trans | done].
Qed.

Lemma foldl_min_step (a : Qc) (qs : list Qc) :
  exists m, foldl min_step (Fin a) (Fin <$> qs) = Fin m /\
    m ∈ a :: qs /\ Forall (fun q => (m <= q)%Qc) (a :: qs).
Proof.
  revert a. induction qs as [|q qs IH]; intros a.
  - exists a. split; [done|]. split; [by left|].
    constructor; [apply Qcle_refl | constructor].
  - rewrite fmap_cons. cbn [foldl].
    destruct (min_step_Fin a q) as (m1 & -> & Ha & Hq & Hor).
    destruct (IH m1) as (m & -> & Hin & Hall).
    exists m. split; [done|].
    apply Forall_cons in Hall as [Hm1 Hall]. split.
    + apply elem_of_cons in Hin as [-> | Hin].
      * destruct Hor as [-> | ->]; [by left | right; by left].
      * right; by right.
    + constructor; [by eapply Qcle_trans|].
      constructor; [by eapply Qcle_trans | done].
Qed.

(** The largest entry of a non-empty array of defined numbers: one of
    its entries, and none is larger. *)
Lemma np_max_spec (l : list num) :
  l <> [] -> all_finite l ->
  exists m, np_max l = Ok (Fin m) /\ Fin m ∈ l /\
    forall q, Fin q ∈ l -> (q <= m)%Qc.
Proof.
  intros Hne Hl. destruct (all_finite_inv l Hl) as [[|a qs] ->]; [done|].
  rewrite fmap_cons. unfold np_max.
  destruct (foldl_max_step a qs) as (m & -> & Hin & Hall).
  exists m. split; [done|]. split.
  - change (Fin a :: (Fin <$> qs)) with (Fin <$> (a :: qs)).
    apply list_elem_of_fmap. by exists m.
  - intros q Hq.
    change (Fin a :: (Fin <$> qs)) with (Fin <$> (a :: qs)) in Hq.
    apply list_elem_of_fmap in Hq as (q' & [= <-] & Hq').
    rewrite Forall_forall in Hall. by apply Hall.
Qed.

Lemma np_min_spec (l : list num) :
  l <> [] -> all_finite l ->
  exists m, np_min l = Ok (Fin m) /\ Fin m ∈ l /\
    forall q, Fin q ∈ l -> (m <= q)%Qc.
Proof.
  intros Hne Hl. destruct (all_finite_inv l Hl) as [[|a qs] ->]; [done|].
  rewrite fmap_cons. unfold np_min.
  destruct (foldl_min_step a qs) as (m & -> & Hin & Hall).
  exists m. split; [done|]. split.
  - change (Fin a :: (Fin <$> qs)) with (Fin <$> (a :: qs)).
    apply list_elem_of_fmap. by exists m.
  - intros q Hq.
    change (Fin a :: (Fin <$> qs)) with (Fin <$> (a :: qs)) in Hq.
    apply list_elem_of_fmap in Hq as (q' & [= <-] & Hq').
    rewrite Forall_forall in Hall. by apply Hall.
Qed.

Lemma window_nonempty (arr : list num) (w i : nat) :
  (1 <= w <= i + 1)%nat -> (i < length arr)%nat -> window arr w i <> [].
Proof.
  intros Hw Hi H0. apply (f_equal length) in H0.
  rewrite length_window in H0 by lia. simpl in H0. lia.
Qed.

Lemma window_finite (arr : list num) (w i : nat) :
  all_finite arr -> all_finite (window arr w i).
Proof. intros H. unfold window. by apply Forall_take, Forall_drop. Qed.


(** What the loop of a rolling reduction maintains; [R m win] says what
    the entry [m] is to its window. *)
Definition rolling_inv (R : Qc -> list num -> Prop) (arr : list num)
    (w i : nat) (out : list num) : Prop :=
  length out = length arr /\
  (forall j, (j < w - 1)%nat -> (j < length arr)%nat -> out !! j = Some NaN) /\
  (forall j, (w - 1 <= j < i)%nat ->
     exists m, out !! j = Some (Fin m) /\ R m (window arr w j)).

Lemma rolling_loop (R : Qc -> list num -> Prop)
    (reduce : list num -> result num) (junk : nat -> num) (arr : list num)
    (w1 : nat) :
  all_finite arr ->
  (forall l, l <> [] -> all_finite l ->
     exists m, reduce l = Ok (Fin m) /\ R m l) ->
  exists out,
    loopM (rolling_step reduce arr (S w1))
      (fill_nan w1 (np_empty junk (length arr)))
      (seq w1 (length arr - w1)) = Ok out /\
    length out = length arr /\
    (forall j, (j < w1)%nat -> (j < length arr)%nat -> out !! j = Some NaN) /\
    (forall i, (w1 <= i < length arr)%nat ->
       exists m, out !! i = Some (Fin m) /\ R m (window arr (S w1) i)).
Proof.
  intros Hfin Hred.
  destruct (loopM_seq_inv (rolling_inv R arr (S w1))
              (rolling_step reduce arr (S w1)) w1 (length arr - w1)
              (fill_nan w1 (np_empty junk (length arr))))
    as (out & Hout & Hlen & Hnan & Hval).
  - unfold rolling_inv. rewrite length_fill_nan, length_np_empty.
    split_and!; [done| |].
    + intros j Hj Hjn. apply lookup_fill_nan; [lia|].
      by rewrite length_np_empty.
    + intros j Hj. lia.
  - intros i out Hi (Hlen & Hnan & Hval). unfold rolling_step.
    destruct (Hred (window arr (S w1) i)) as (m & -> & Hm).
    { apply window_nonempty; lia. }
    { by apply window_finite. }
    cbn [mbind result_bind]. eexists. split; [reflexivity|].
    unfold rolling_inv. rewrite length_insert. split_and!; [done| |].
    + intros j Hj Hjn. rewrite list_lookup_insert_ne by lia. by apply Hnan.
    + intros j Hj. destruct (decide (j = i)) as [->|Hne].
      * rewrite list_lookup_insert_eq by lia. eauto.
      * rewrite list_lookup_insert_ne by lia. apply Hval. lia.
  - exists out. split; [done|]. split; [done|]. split.
    + intros j Hj Hjn. apply Hnan; [lia | done].
    + intros i Hi. apply Hval.
      destruct (decide (w1 <= length arr)%nat); lia.
Qed.

(** X10.  The rolling maximum and minimum of defined numbers, for any window
    of one or more: the warm-up entries are not-a-number; every later
    entry is an entry of its window that no entry of the window exceeds
    (falls below).  With more window than data nothing is computed and
    no error is raised: the result is not-a-number throughout. *)
Theorem rolling_extremes_of_window (junk : nat -> num) (arr : list num)
    (w : nat) :
  (1 <= w)%nat -> all_finite arr ->
  exists hi lo,
    _rolling_max_numba junk arr w = Ok hi /\
    _rolling_min_numba junk arr w = Ok lo /\
    length hi = length arr /\ length lo = length arr /\
    (forall j, (j < w - 1)%nat -> (j < length arr)%nat ->
       hi !! j = Some NaN /\ lo !! j = Some NaN) /\
    (forall i, (w - 1 <= i < length arr)%nat ->
       exists M m, hi !! i = Some (Fin M) /\ lo !! i = Some (Fin m) /\
         Fin M ∈ window arr w i /\ Fin m ∈ window arr w i /\
         forall q, Fin q ∈ window arr w i -> (m <= q)%Qc /\ (q <= M)%Qc).
Proof.
  intros Hw Hfin. destruct w as [|w1]; [lia|].
  unfold _rolling_max_numba, _rolling_min_numba.
  destruct (rolling_loop
              (fun m l => Fin m ∈ l /\ forall q, Fin q ∈ l -> (q <= m)%Qc)
              np_max junk arr w1 Hfin np_max_spec)
    as (hi & -> & Hlh & Hnh & Hvh).
  destruct (rolling_loop
              (fun m l => Fin m ∈ l /\ forall q, Fin q ∈ l -> (m <= q)%Qc)
              np_min junk arr w1 Hfin np_min_spec)
    as (lo & -> & Hll & Hnl & Hvl).
  exists hi, lo. cbn [Nat.sub]. rewrite Nat.sub_0_r.
  split_and!; [done..| |].
  - intros j Hj Hjn. split; [by apply Hnh | by apply Hnl].
  - intros i Hi.
    destruct (Hvh i Hi) as (M & HM & HMin & HMax).
    destruct (Hvl i Hi) as (m & Hm & Hmin' & Hmin).
    exists M, m. split_and!; [done..|].
    intros q Hq. split; [by apply Hmin | by apply HMax].
Qed.

End RollingExtremes.

Lemma rolling_extremes_of_window_witness :
  exists hi lo,
    indicators._rolling_max_numba (fun _ => ofZ 0) [ofZ 3; ofZ 1; ofZ 2] 2
      = Ok hi /\
    indicators._rolling_min_numba (fun _ => ofZ 0) [ofZ 3; ofZ 1; ofZ 2] 2
      = Ok lo /\
    length hi = 3%nat /\ length lo = 3%nat /\
    (forall j, (j < 2 - 1)%nat -> (j < 3)%nat ->
       hi !! j = Some NaN /\ lo !! j = Some NaN) /\
    (forall i, (2 - 1 <= i < 3)%nat ->
       exists M m, hi !! i = Some (Fin M) /\ lo !! i = Some (Fin m) /\
         Fin M ∈ indicators.window [ofZ 3; ofZ 1; ofZ 2] 2 i /\
         Fin m ∈ indicators.window [ofZ 3; ofZ 1; ofZ 2] 2 i /\
         forall q, Fin q ∈ indicators.window [ofZ 3; ofZ 1; ofZ 2] 2 i ->
           (m <= q)%Qc /\ (q <= M)%Qc).
Proof.
  apply (rolling_extremes_of_window (fun _ => ofZ 0) [ofZ 3; ofZ 1; ofZ 2] 2).
  - lia.
  - repeat constructor.
Defined.

(** ** The Donchian channel *)
Section Donchian.
Import indicators.

Lemma string_app_inj_l (s a b : string) : s +:+ a = s +:+ b -> a = b.
Proof.
  induction s as [|c s IH]; simpl; [done|].
  intros [= H]. by apply IH.
Qed.


End Donchian.


(** ** Moving averages on not-a-number and on non-negative input *)
Section MovingAveragePoison.
Import indicators.

(** What the running-sum loop maintains once a not-a-number entry at
    index [k] was met: the running sum is lost, and so is every cell
    written from there on. *)
Definition sma_poison_inv (n w1 k i : nat) (st : num * list num) : Prop :=
  length st.2 = n /\
  ((k < i)%nat -> st.1 = NaN) /\
  forall j, (k <= j)%nat -> (w1 <= j < i)%nat -> st.2 !! j = Some NaN.

Lemma sma_step_poison (arr : list num) (w1 k i : nat) (st : num * list num) :
  arr !! k = Some NaN -> (S w1 <= i < length arr)%nat ->
  sma_poison_inv (length arr) w1 k i st ->
  sma_poison_inv (length arr) w1 k (S i) (sma_step arr (S w1) st i).
Proof.
  intros Hk Hi (Hlen & Hsum & Hout). unfold sma_step, sma_poison_inv.
  cbn [fst snd]. rewrite length_insert.
  assert ((k <= i)%nat ->
          fadd st.1 (fsub (arr !!! i) (arr !!! (i - S w1)%nat)) = NaN) as Hnan.
  { intros Hle. destruct (decide (k = i)) as [->|Hne].
    - rewrite (list_lookup_total_correct _ _ _ Hk). cbn [fsub fadd].
      apply fadd_nan_r.
    - by rewrite Hsum by lia. }
  split_and!.
  - done.
  - intros Hlt. apply Hnan. lia.
  - intros j Hkj Hj. destruct (decide (j = i)) as [->|Hne].
    + rewrite list_lookup_insert_eq by lia. by rewrite Hnan.
    + rewrite list_lookup_insert_ne by lia. apply Hout; lia.
Qed.

Lemma sma_poisoned (junk : nat -> num) (arr : list num) (w k : nat) :
  (1 <= w <= length arr)%nat -> arr !! k = Some NaN ->
  exists out, _sma_numba junk arr w = Ok out /\
    length out = length arr /\
    forall i, (k <= i)%nat -> (w - 1 <= i < length arr)%nat ->
      out !! i = Some NaN.
Proof.
  intros [Hw Hn] Hk. destruct w as [|w1]; [lia|].
  unfold _sma_numba. rewrite bool_decide_eq_false_2 by lia.
  eexists. split; [reflexivity|].
  set (init := (_, _)).
  pose proof (foldl_seq_inv (sma_poison_inv (length arr) w1 k)
                (sma_step arr (S w1)) (S w1) (length arr - S w1) init) as Hloop.
  replace (S w1 + (length arr - S w1))%nat with (length arr) in Hloop by lia.
  destruct Hloop as (Hlen & _ & Hout).
  - assert ((k < S w1)%nat -> np_sum (take (S w1) arr) = NaN) as Hsum.
    { intros Hlt. apply np_sum_nan, (list_elem_of_lookup_2 _ k).
      apply lookup_take_Some. split; [done | lia]. }
    subst init. unfold sma_poison_inv. cbn [fst snd].
    rewrite length_insert, length_fill_nan, length_np_empty. split_and!.
    + done.
    + done.
    + intros j Hkj Hj. assert (j = w1) as -> by lia.
      rewrite list_lookup_insert_eq
        by (rewrite length_fill_nan, length_np_empty; lia).
      by rewrite Hsum by lia.
  - intros i st Hi Hinv. apply sma_step_poison; [done | lia | done].
  - split; [done|]. intros i Hki Hi. apply Hout; lia.
Qed.

(** The same for the smoothing loop of the EMA, which reads its own
    previous cell. *)
Definition ema_poison_inv (n w1 k i : nat) (out : list num) : Prop :=
  length out = n /\
  forall j, (k <= j)%nat -> (w1 <= j < i)%nat -> out !! j = Some NaN.

Lemma ema_step_poison (arr : list num) (m : num) (w1 k i : nat)
    (out : list num) :
  arr !! k = Some NaN -> (S w1 <= i < length arr)%nat ->
  ema_poison_inv (length arr) w1 k i out ->
  ema_poison_inv (length arr) w1 k (S i) (ema_step arr m out i).
Proof.
  intros Hk Hi (Hlen & Hout). unfold ema_step, ema_poison_inv.
  rewrite decide_False by lia. rewrite length_insert. split; [done|].
  intros j Hkj Hj. destruct (decide (j = i)) as [->|Hne].
  - rewrite list_lookup_insert_eq by lia. f_equal.
    destruct (decide (k = i)) as [->|Hki].
    + rewrite (list_lookup_total_correct _ _ _ Hk). cbn [fsub fadd fmul].
      done.
    + rewrite (list_lookup_total_correct _ (i - 1)%nat NaN)
        by (apply Hout; lia).
      apply fadd_nan_r.
  - rewrite list_lookup_insert_ne by lia. apply Hout; lia.
Qed.

Lemma ema_poisoned (junk : nat -> num) (arr : list num) (w k : nat) :
  (1 <= w <= length arr)%nat -> arr !! k = Some NaN ->
  exists out, _ema_numba junk arr w = Ok out /\
    length out = length arr /\
    forall i, (k <= i)%nat -> (w - 1 <= i < length arr)%nat ->
      out !! i = Some NaN.
Proof.
  intros [Hw Hn] Hk. destruct w as [|w1]; [lia|].
  unfold _ema_numba. rewrite bool_decide_eq_false_2 by lia.
  eexists. split; [reflexivity|].
  set (m := fdiv _ _). set (init := <[w1:=_]> _).
  pose proof (foldl_seq_inv (ema_poison_inv (length arr) w1 k)
                (ema_step arr m) (S w1) (length arr - S w1) init) as Hloop.
  replace (S w1 + (length arr - S w1))%nat with (length arr) in Hloop by lia.
  destruct Hloop as (Hlen & Hout).
  - subst init. unfold ema_poison_inv.
    rewrite length_insert, length_fill_nan, length_np_empty. split; [done|].
    intros j Hkj Hj. assert (j = w1) as -> by lia.
    rewrite list_lookup_insert_eq
      by (rewrite length_fill_nan, length_np_empty; lia).
    f_equal. unfold np_mean. rewrite np_sum_nan; [done|].
    apply (list_elem_of_lookup_2 _ k), lookup_take_Some. split; [done | lia].
  - intros i out Hi Hinv. apply ema_step_poison; [done | lia | done].
  - split; [done|]. intros i Hki Hi. apply Hout; lia.
Qed.

(** X1.  The simple moving average never recovers from a not-a-number
    input.  The entry is added to the running sum and never leaves it:
    from the index of the entry on (and from the end of the warm-up on)
    every entry of the result is not-a-number, also where the window no
    longer holds the bad input. *)
Theorem sma_never_recovers (junk : nat -> num) (arr : list num) (w k : nat) :
  (1 <= w <= length arr)%nat -> arr !! k = Some NaN ->
  exists out, _sma_numba junk arr w = Ok out /\
    length out = length arr /\
    forall i, (k <= i)%nat -> (w - 1 <= i < length arr)%nat ->
      out !! i = Some NaN.
Proof. apply sma_poisoned. Qed.

(** X4.  The exponential moving average never recovers from a
    not-a-number input either: each entry is computed from the one
    before, so from the index of the bad input on (and from the end of
    the warm-up on) every entry of the result is not-a-number. *)
Theorem ema_never_recovers (junk : nat -> num) (arr : list num) (w k : nat) :
  (1 <= w <= length arr)%nat -> arr !! k = Some NaN ->
  exists out, _ema_numba junk arr w = Ok out /\
    length out = length arr /\
    forall i, (k <= i)%nat -> (w - 1 <= i < length arr)%nat ->
      out !! i = Some NaN.
Proof. apply ema_poisoned. Qed.




End MovingAveragePoison.

Lemma sma_never_recovers_witness :
  exists out,
    indicators._sma_numba (fun _ => ofZ 0)
      [ofZ 1; NaN; ofZ 2; ofZ 4; ofZ 8] 2 = Ok out /\
    length out = 5%nat /\
    forall i, (1 <= i)%nat -> (2 - 1 <= i < 5)%nat -> out !! i = Some NaN.
Proof.
  apply (sma_never_recovers (fun _ => ofZ 0)
           [ofZ 1; NaN; ofZ 2; ofZ 4; ofZ 8] 2 1).
  - simpl. lia.
  - reflexivity.
Defined.

Lemma ema_never_recovers_witness :
  exists out,
    indicators._ema_numba (fun _ => ofZ 0)
      [ofZ 1; NaN; ofZ 2; ofZ 4; ofZ 8] 2 = Ok out /\
    length out = 5%nat /\
    forall i, (1 <= i)%nat -> (2 - 1 <= i < 5)%nat -> out !! i = Some NaN.
Proof.
  apply (ema_never_recovers (fun _ => ofZ 0)
           [ofZ 1; NaN; ofZ 2; ofZ 4; ofZ 8] 2 1).
  - simpl. lia.
  - reflexivity.
Defined.


(** ** The signal line of the MACD *)
Section Macd.
Import indicators.

(** X3.  The signal line the factory stores for a MACD is not-a-number at
    every index, whatever the closes, as soon as the slow period is two
    or more: the MACD line starts with the warm-up markers of the slow
    EMA, and the EMA that smooths it into the signal line averages them
    into its first value and never recovers. *)
Theorem macd_signal_is_all_nan (junk_fast junk_slow junk_signal : nat -> num)
    (close : list num) (inds : gmap string (list num))
    (fast slow signal : nat) :
  (1 <= fast <= length close)%nat -> (2 <= slow <= length close)%nat ->
  (1 <= signal <= length close)%nat ->
  let key :=
    indicator_key
      (indicator_key (indicator_key "macd" (Z.of_nat fast)) (Z.of_nat slow))
      (Z.of_nat signal) in
  exists inds' macd_line,
    macd_branch junk_fast junk_slow junk_signal close inds fast slow signal
      = Ok inds' /\
    inds' !! (key +:+ "_macd") = Some macd_line /\
    length macd_line = length close /\
    inds' !! (key +:+ "_signal") = Some (replicate (length close) NaN).
Proof.
  intros Hf Hs Hg key. unfold macd_branch. fold key.
  destruct (ema_prefix junk_fast close fast Hf) as (ef & -> & Hlf & _).
  destruct (ema_prefix junk_slow close slow) as (es & -> & Hls & Hns); [lia|].
  cbn [mbind result_bind].
  set (macd_line := zip_with fsub ef es).
  assert (length macd_line = length close) as Hlm.
  { subst macd_line. rewrite length_zip_with. lia. }
  assert (macd_line !! 0%nat = Some NaN) as Hm0.
  { subst macd_line. rewrite lookup_zip_with.
    destruct (lookup_lt_is_Some_2 ef 0%nat) as [x ->]; [lia|].
    rewrite (Hns 0%nat) by lia. cbn [mbind option_bind].
    unfold fsub. cbn [fneg]. by rewrite fadd_nan_r. }
  destruct (ema_prefix junk_signal macd_line signal) as (sg & Hsg & Hlg & Hng);
    [lia|].
  destruct (ema_poisoned junk_signal macd_line signal 0) as (sg' & Hsg' & _ & Hpg);
    [lia | done |].
  rewrite Hsg in Hsg'. injection Hsg' as <-.
  rewrite Hsg. cbn [mbind result_bind].
  exists (<[key +:+ "_signal" := sg]> (<[key +:+ "_macd" := macd_line]> inds)),
    macd_line.
  split_and!; [done| |done|].
  - rewrite lookup_insert_ne by (intros [= H]%string_app_inj_l).
    by rewrite lookup_insert_eq.
  - rewrite lookup_insert_eq. f_equal. apply list_eq. intros j.
    destruct (decide (j < length close)%nat) as [Hlt|Hge].
    + rewrite lookup_replicate_2 by done.
      destruct (decide (j < signal - 1)%nat) as [Hw|Hw].
      * by apply Hng.
      * apply Hpg; lia.
    + rewrite !lookup_ge_None_2; [done | rewrite length_replicate; lia | lia].
Qed.

End Macd.

Lemma macd_signal_is_all_nan_witness :
  exists inds' macd_line,
    indicators.macd_branch (fun _ => ofZ 0) (fun _ => ofZ 0) (fun _ => ofZ 0)
      [ofZ 1; ofZ 2; ofZ 4; ofZ 8] ∅ 1 2 2 = Ok inds' /\
    inds' !! ("macd_1_2_2" +:+ "_macd") = Some macd_line /\
    length macd_line = 4%nat /\
    inds' !! ("macd_1_2_2" +:+ "_signal") = Some (replicate 4 NaN).
Proof.
  apply (macd_signal_is_all_nan (fun _ => ofZ 0) (fun _ => ofZ 0)
           (fun _ => ofZ 0) [ofZ 1; ofZ 2; ofZ 4; ofZ 8] ∅ 1 2 2);
    simpl; lia.
Defined.

(** ** Heikin-Ashi candles *)
Section HeikinAshiCandles.
Import indicators.






End HeikinAshiCandles.


(** ** The generic simulator as a whole *)
Section GenericRun.
Import base_strategy backtest_engine.
Variable np_sqrt : num -> num.

Lemma start_index_range (df : list candle) (cfg : config) (s : Z) :
  (_get_start_index df cfg).1 = Some s ->
  (0 <= s < Z.of_nat (length df))%Z /\
  _get_start_index df cfg
  = (Some s, [StartingAt s (date_of (ts (df !!! Z.to_nat s)))]).
Proof.
  unfold _get_start_index. case_bool_decide as Hn; [done|].
  simpl. intros [= <-]. split; [lia | done].
Qed.

Lemma calculate_stats_returns {P : Type} (trades_df : list (trade P))
    (equity_curve : series) (C : num) (s e : Z) (bh : num) :
  exists st, calculate_stats np_sqrt trades_df equity_curve C
               (Some s) (Some e) (Some bh) = Ok st /\
    Total_Trades st = (match equity_curve with
                       | [] => 0 | _ => length trades_df end)%nat /\
    (trades_df = [] -> st = empty_stats C (Some s) (Some e) (Some bh)).
Proof.
  unfold calculate_stats.
  destruct trades_df as [|t tr], equity_curve as [|p eq];
    (eexists; split; [reflexivity|done]).
Qed.

Lemma finish_run_returns {T : Type} (df : list candle) (start : nat)
    (C : num) (trades_df : list (trade T)) (equity_curve_s : series) :
  (start < length df)%nat ->
  exists st,
    finish_run np_sqrt df start C trades_df equity_curve_s
    = Ok (Output (Some st) trades_df equity_curve_s
            (bh_equity_of (close (df !!! start)) C (drop start df))) /\
    Total_Trades st = (match equity_curve_s with
                       | [] => 0 | _ => length trades_df end)%nat /\
    (trades_df = [] -> exists s e bh, st = empty_stats C s e bh).
Proof.
  intros Hs. unfold finish_run.
  destruct (drop start df) as [|c0 rows] eqn:Hdrop.
  { apply (f_equal length) in Hdrop. rewrite length_drop in Hdrop.
    simpl in Hdrop. lia. }
  rewrite fmap_cons. cbn [head fmap option_fmap option_map of_option].
  cbn [mbind result_bind].
  destruct (last (ts c0 :: (ts <$> rows))) as [e|] eqn:Hlast.
  2:{ by apply last_None in Hlast. }
  cbn [fmap option_fmap option_map of_option mbind result_bind].
  destruct (calculate_stats_returns trades_df equity_curve_s C
              (date_of (ts c0)) (date_of e)
              (bh_return_of (close (df !!! start))
                 (default NaN (last (close <$> df))))) as (st & -> & Hst & He).
  cbn [mbind result_bind]. exists st. split_and!; [done|done|].
  intros Ht. rewrite (He Ht). eauto.
Qed.

Lemma length_generic_step (strat : strategy) (df : list candle)
    (start : nat) (st : gstate) (i : nat) :
  length (equity_curve (generic_step strat df start st i))
  = length (equity_curve st).
Proof.
  unfold generic_step.
  repeat match goal with
         | |- context [let '(_, _) := ?x in _] => destruct x
         | |- context [if ?c then _ else _] => destruct c
         end; cbn [equity_curve]; apply length_insert.
Qed.

Lemma length_generic_state (strat : strategy) (df : list candle)
    (start : nat) (C : num) (k : nat) :
  length (equity_curve (generic_state_after strat df start C k))
  = (length df - start)%nat.
Proof.
  unfold generic_state_after.
  induction k as [|k IH] using nat_ind.
  - simpl. apply length_replicate.
  - rewrite seq_S, foldl_app. simpl. by rewrite length_generic_step.
Qed.

(** The run in terms of the state its loop reaches. *)
Lemma generic_run_output (df : list candle) (strat : strategy) (cfg : config)
    (s : Z) :
  (_get_start_index df cfg).1 = Some s ->
  let start := Z.to_nat s in
  let st := generic_state_after strat df start (INITIAL_CAPITAL cfg)
              (length df - start) in
  exists stats,
    run_generic_backtest np_sqrt df strat cfg
    = (Ok (Output (Some stats) (trades st)
             (zip (ts <$> drop start df) (equity_curve st))
             (bh_equity_of (close (df !!! start)) (INITIAL_CAPITAL cfg)
                (drop start df))),
       [StartingAt s (date_of (ts (df !!! start)))]) /\
    Total_Trades stats = length (trades st) /\
    (trades st = [] ->
     exists sd ed bh, stats = empty_stats (INITIAL_CAPITAL cfg) sd ed bh).
Proof.
  intros Hs start st. destruct (start_index_range df cfg s Hs) as [Hr Heq].
  unfold run_generic_backtest. rewrite Heq.
  rewrite bool_decide_eq_false_2 by lia. fold start.
  fold (generic_state_after strat df start (INITIAL_CAPITAL cfg)
          (length df - start)). fold st.
  destruct (finish_run_returns df start (INITIAL_CAPITAL cfg) (trades st)
              (zip (ts <$> drop start df) (equity_curve st)))
    as (stats & -> & Hst & He); [lia|].
  exists stats. split; [done|]. split; [|done]. rewrite Hst.
  destruct (zip _ _) eqn:Hz; [|done]. exfalso.
  apply (f_equal length) in Hz.
  rewrite length_zip, length_fmap, length_drop in Hz.
  subst st. rewrite length_generic_state in Hz. simpl in Hz. lia.
Qed.

(** X13.  Given a start index, the generic simulator returns (strategy
    callbacks that return, as the model has them): one equity point per
    candle from the start index on, stamped with that candle's time, and
    a buy-and-hold curve over exactly the same timestamps; the reported
    trade count is the length of the trade table. *)
Theorem generic_run_is_aligned (df : list candle) (strat : strategy)
    (cfg : config) (s : Z) :
  (_get_start_index df cfg).1 = Some s ->
  exists out stats,
    (run_generic_backtest np_sqrt df strat cfg).1 = Ok out /\
    out_stats out = Some stats /\
    Total_Trades stats = length (out_trades out) /\
    fst <$> out_equity out = ts <$> drop (Z.to_nat s) df /\
    fst <$> out_bh out = ts <$> drop (Z.to_nat s) df /\
    length (out_equity out) = (length df - Z.to_nat s)%nat.
Proof.
  intros Hs. destruct (generic_run_output df strat cfg s Hs) as (stats & -> & Hst & _).
  eexists _, stats. split; [reflexivity|]. cbn [out_stats out_trades out_equity out_bh].
  split_and!; [done | done | | |].
  - rewrite fst_zip; [done|].
    rewrite length_fmap, length_drop, length_generic_state. lia.
  - unfold bh_equity_of. destruct (fgtb _ _);
      rewrite <- list_fmap_compose; by apply list_fmap_ext.
  - rewrite length_zip, length_fmap, length_drop, length_generic_state. lia.
Qed.

End GenericRun.

Lemma generic_run_is_aligned_witness :
  exists out stats,
    (backtest_engine.run_generic_backtest (fun x => x)
       (flat_candles 3 (ofZ 100)) churn_strategy
       (config_with 0 (Some 1%Z))).1 = Ok out /\
    backtest_engine.out_stats out = Some stats /\
    backtest_engine.Total_Trades stats
    = length (backtest_engine.out_trades out) /\
    fst <$> backtest_engine.out_equity out
    = ts <$> drop (Z.to_nat 1) (flat_candles 3 (ofZ 100)) /\
    fst <$> backtest_engine.out_bh out
    = ts <$> drop (Z.to_nat 1) (flat_candles 3 (ofZ 100)) /\
    length (backtest_engine.out_equity out)
    = (length (flat_candles 3 (ofZ 100)) - Z.to_nat 1)%nat.
Proof.
  apply (generic_run_is_aligned (fun x => x) (flat_candles 3 (ofZ 100))
           churn_strategy (config_with 0 (Some 1%Z)) 1%Z).
  reflexivity.
Defined.

(** ** A run that never enters *)
Section IdleRun.
Import base_strategy backtest_engine.
Variable np_sqrt : num -> num.

Lemma idle_step (strat : strategy) (df : list candle) (start : nat)
    (C : num) (curve : list num) (i : nat) :
  (forall i, get_entry_signal strat i = false) \/ fgtb C (ofZ 0) = false ->
  generic_step strat df start (GState C flat [] curve) i
  = GState C flat [] (<[(i - start)%nat := C]> curve).
Proof.
  intros H. unfold generic_step. cbn [pos in_pos flat cash trades negb].
  destruct H as [H | H]; rewrite H; [done|].
  by rewrite andb_false_r.
Qed.

Lemma idle_state (strat : strategy) (df : list candle) (start : nat)
    (C : num) (k : nat) :
  (forall i, get_entry_signal strat i = false) \/ fgtb C (ofZ 0) = false ->
  generic_state_after strat df start C k
  = GState C flat [] (replicate (length df - start) C).
Proof.
  intros H. unfold generic_state_after.
  induction k as [|k IH]; [done|].
  rewrite seq_S, foldl_app, IH. simpl. rewrite idle_step by done.
  f_equal. destruct (decide (start + k - start < length df - start)%nat) as [Hlt|Hge].
  - apply list_insert_id. by apply lookup_replicate_2.
  - apply list_insert_ge. rewrite length_replicate. lia.
Qed.

(** X14.  A strategy whose entry signal never fires, or any strategy given a
    capital that is not positive, leaves the account untouched: the run
    returns no trade, every equity point is the initial capital and the
    statistics are those of the empty case (zero return, zero trades,
    final capital printed as the initial one). *)
Theorem idle_run_keeps_capital (df : list candle) (strat : strategy)
    (cfg : config) (s : Z) :
  (_get_start_index df cfg).1 = Some s ->
  (forall i, get_entry_signal strat i = false) \/
    fgtb (INITIAL_CAPITAL cfg) (ofZ 0) = false ->
  exists out sd ed bh,
    (run_generic_backtest np_sqrt df strat cfg).1 = Ok out /\
    out_trades out = [] /\
    snd <$> out_equity out
    = replicate (length df - Z.to_nat s) (INITIAL_CAPITAL cfg) /\
    out_stats out = Some (empty_stats (INITIAL_CAPITAL cfg) sd ed bh).
Proof.
  intros Hs Hidle.
  destruct (generic_run_output np_sqrt df strat cfg s Hs)
    as (stats & -> & _ & He).
  rewrite idle_state in * by done. cbn [trades equity_curve] in *.
  destruct (He eq_refl) as (sd & ed & bh & ->).
  eexists _, sd, ed, bh. split; [reflexivity|].
  cbn [out_trades out_equity out_stats]. split_and!; [done| |done].
  rewrite snd_zip; [done|].
  rewrite length_fmap, length_drop, length_replicate. lia.
Qed.

End IdleRun.

Lemma idle_run_keeps_capital_witness :
  exists out sd ed bh,
    (backtest_engine.run_generic_backtest (fun x => x)
       (candles_at [ofZ 100; ofZ 90; ofZ 120]) base_strategy.default_strategy
       (config_with 0 (Some 1%Z))).1 = Ok out /\
    backtest_engine.out_trades out = [] /\
    snd <$> backtest_engine.out_equity out
    = replicate (length (candles_at [ofZ 100; ofZ 90; ofZ 120]) - Z.to_nat 1)
        (INITIAL_CAPITAL (config_with 0 (Some 1%Z))) /\
    backtest_engine.out_stats out
    = Some (backtest_engine.empty_stats
              (INITIAL_CAPITAL (config_with 0 (Some 1%Z))) sd ed bh).
Proof.
  apply (idle_run_keeps_capital (fun x => x)
           (candles_at [ofZ 100; ofZ 90; ofZ 120])
           base_strategy.default_strategy (config_with 0 (Some 1%Z)) 1%Z).
  - reflexivity.
  - left. intros i. reflexivity.
Defined.

(** ** The books of the generic simulator *)
Section Books.
Import base_strategy backtest_engine.
Variable strat : strategy.
Variable df : list candle.
Variable start : nat.
Variable C : num.
Hypothesis Hstrat : only_moves_stop strat.

Lemma exit_checks_keeps (i : nat) (price : num) (p : position) :
  let p' := (exit_checks strat i price p).2 in
  in_pos p' = in_pos p /\ entry_price p' = entry_price p /\
  qty p' = qty p /\ value p' = value p /\ entry_time p' = entry_time p.
Proof using Hstrat.
  unfold exit_checks.
  destruct (get_take_profit_price strat i p) as [tp|]; cbn [str_truthy];
    repeat match goal with
           | |- context [if ?b then _ else _] => destruct b
           end; cbn [snd negb str_truthy]; try done; apply Hstrat.
Qed.

(** What the loop maintains: the account is held as cash when flat and
    as the value of the position otherwise, and every closed trade is
    booked against the account as the trades before it left it. *)
Definition books_inv (st : gstate) : Prop :=
  (if in_pos (pos st)
   then cash st = ofZ 0 /\
        value (pos st) = account C (trades st) /\
        fgtb (value (pos st)) (ofZ 0) = true /\
        qty (pos st) = fdiv (value (pos st)) (entry_price (pos st))
   else cash st = account C (trades st) /\ pos st = flat) /\
  forall j t, trades st !! j = Some t -> booked C (take j (trades st)) t.

(** Entering with all the cash keeps the books. *)
Lemma books_entry (tr : list (trade position)) (i : nat) (price : num)
    (curve : list num) (cash' : num) (posn : position) :
  (forall j t, tr !! j = Some t -> booked C (take j tr) t) ->
  (cash', posn) =
    (if get_entry_signal strat i && fgtb (account C tr) (ofZ 0) then
       let stop_price := get_stop_loss_price strat i price in
       if fltb stop_price price then
         (ofZ 0, Position true price stop_price
                   (fdiv (account C tr) price)
                   (account C tr) (Some (ts (df !!! i))))
       else (account C tr, flat)
     else (account C tr, flat)) ->
  books_inv (GState cash' posn tr curve).
Proof.
  intros Htr Heq. split; [|done]. cbn [trades pos cash].
  destruct (get_entry_signal strat i); cbn [andb] in Heq.
  2:{ by injection Heq as -> ->. }
  destruct (fgtb (account C tr) (ofZ 0)) eqn:Hpos.
  2:{ by injection Heq as -> ->. }
  cbn zeta in Heq. destruct (fltb _ price).
  2:{ by injection Heq as -> ->. }
  injection Heq as -> ->. by cbn [in_pos entry_price value qty].
Qed.

Lemma account_snoc (tr : list (trade position)) (t : trade position) :
  account C (tr ++ [t]) = fmul (qty (trade_position t)) (exit_price t).
Proof. unfold account. by rewrite last_snoc. Qed.

Lemma books_step (st : gstate) (i : nat) :
  books_inv st -> books_inv (generic_step strat df start st i).
Proof using Hstrat.
  intros [Hpos Htr]. unfold generic_step.
  set (price := close (df !!! i)).
  destruct (in_pos (pos st)) eqn:Hin.
  - destruct Hpos as (Hcash & Hval & Hgt & Hqty).
    pose proof (exit_checks_keeps i price (pos st)) as Hk.
    destruct (exit_checks strat i price (pos st)) as [reason posn].
    cbn [snd] in Hk. destruct Hk as (Hin' & Hentry' & Hqty' & Hval' & _).
    rewrite Hin in Hin'.
    destruct (str_truthy reason).
    + cbn [in_pos flat negb].
      set (t := Trade posn _ _ _ _ _).
      assert (Htr' : forall j t0, (trades st ++ [t]) !! j = Some t0 ->
                booked C (take j (trades st ++ [t])) t0).
      { intros j t0 Hj. apply lookup_app_Some in Hj as [Hj | [Hge Hj]].
        - rewrite take_app_le.
          2:{ apply lookup_lt_Some in Hj. lia. }
          by apply Htr.
        - apply list_lookup_singleton_Some in Hj as [Hj0 <-].
          assert (j = length (trades st)) as -> by lia.
          rewrite take_app_length. unfold booked, t.
          cbn [trade_position exit_price pnl_value pnl_percent].
          rewrite Hval', Hqty', Hentry', Hgt. by split_and!. }
      match goal with
      | |- books_inv (let '(_, _) := ?e in _) =>
          destruct e as [cash' posn'] eqn:Heq
      end.
      eapply (books_entry _ i price _ cash' posn' Htr').
      rewrite account_snoc. unfold t. cbn [trade_position exit_price].
      symmetry. exact Heq.
    + rewrite Hin'. cbn [negb]. rewrite Hin'.
      split; [|done]. cbn [trades pos cash]. rewrite Hin'.
      by rewrite Hval', Hqty', Hentry'.
  - destruct Hpos as [Hcash Hflat]. rewrite Hin. cbn [negb].
    rewrite Hcash, Hflat.
    match goal with
    | |- books_inv (let '(_, _) := ?e in _) =>
        destruct e as [cash' posn'] eqn:Heq
    end.
    eapply (books_entry _ i price _ cash' posn' Htr).
    symmetry. exact Heq.
Qed.

Lemma books_state (k : nat) :
  books_inv (generic_state_after strat df start C k).
Proof using Hstrat.
  unfold generic_state_after. induction k as [|k IH].
  - split; [done|]. intros j t Hj. done.
  - rewrite seq_S, foldl_app. cbn [foldl]. by apply books_step.
Qed.

Lemma generic_step_curve (st : gstate) (i : nat) :
  let st' := generic_step strat df start st i in
  equity_curve st'
  = <[(i - start)%nat :=
        if in_pos (pos st') then fmul (qty (pos st')) (close (df !!! i))
        else cash st']> (equity_curve st).
Proof.
  unfold generic_step.
  repeat match goal with
         | |- context [let '(_, _) := ?x in _] => destruct x
         | |- context [if ?b then _ else _] => destruct b eqn:?
         end; cbn [equity_curve pos cash in_pos qty flat] in *;
    try done; congruence.
Qed.

(** X15.  The books of the generic simulator balance at every candle.  With
    a strategy that only moves the stop of an open position: after any
    number of candles the account (the proceeds of the last closed trade,
    or the initial capital before the first) is held as cash when the
    simulator is flat; when a position is open the cash is zero, the
    account is the value of the position, a positive amount, and the
    quantity held is that value at the entry price.  The equity point of
    the last candle processed is the cash when flat and the quantity at
    that candle's close otherwise. *)
Theorem generic_books_balance (k : nat) :
  (start + k <= length df)%nat ->
  let st := generic_state_after strat df start C k in
  (if in_pos (pos st)
   then cash st = ofZ 0 /\
        value (pos st) = account C (trades st) /\
        fgtb (value (pos st)) (ofZ 0) = true /\
        qty (pos st) = fdiv (value (pos st)) (entry_price (pos st))
   else cash st = account C (trades st) /\ pos st = flat) /\
  forall k', k = S k' ->
    equity_curve st !! k'
    = Some (if in_pos (pos st)
            then fmul (qty (pos st)) (close (df !!! (start + k')%nat))
            else account C (trades st)).
Proof using Hstrat.
  intros Hk st. destruct (books_state k) as [Hpos _]. fold st in Hpos.
  split; [done|].
  intros k' ->. subst st. unfold generic_state_after in *.
  rewrite seq_S, foldl_app in *. cbn [foldl] in *.
  rewrite generic_step_curve.
  replace (start + k' - start)%nat with k' by lia.
  rewrite list_lookup_insert_eq.
  2:{ fold (generic_state_after strat df start C k').
      rewrite length_generic_state. lia. }
  f_equal. destruct (in_pos _); [done | by destruct Hpos].
Qed.

End Books.

(** X16.  Every trade of a generic run re-invests the whole account.  With
    a strategy that only moves the stop of an open position the run
    returns, and for each trade of its table: the value put in is
    positive and is the whole account as the trades before it left it
    (the proceeds of the previous trade, or the initial capital for the
    first); the quantity bought is that value at the entry price; the P&L
    is the quantity at the exit price less the value; and the percentage
    P&L is the P&L over the value, in percent. *)
Theorem generic_trades_compound (np_sqrt : num -> num)
    (strat : base_strategy.strategy) (df : list candle) (cfg : config)
    (s : Z) :
  only_moves_stop strat ->
  (backtest_engine._get_start_index df cfg).1 = Some s ->
  exists out,
    (backtest_engine.run_generic_backtest np_sqrt df strat cfg).1 = Ok out /\
    forall j t, backtest_engine.out_trades out !! j = Some t ->
      booked (INITIAL_CAPITAL cfg)
        (take j (backtest_engine.out_trades out)) t.
Proof.
  intros Hstrat Hs.
  destruct (generic_run_output np_sqrt df strat cfg s Hs)
    as (stats & -> & _).
  eexists. split; [reflexivity|]. cbn [backtest_engine.out_trades fst].
  destruct (books_state strat df (Z.to_nat s) (INITIAL_CAPITAL cfg) Hstrat
              (length df - Z.to_nat s)) as [_ Htr].
  exact Htr.
Qed.

Lemma generic_books_balance_witness :
  let st := generic_state_after churn_strategy
              (candles_at [ofZ 100; ofZ 110; ofZ 99; ofZ 120]) 1
              (ofZ 1000) 3 in
  (if base_strategy.in_pos (backtest_engine.pos st)
   then backtest_engine.cash st = ofZ 0 /\
        base_strategy.value (backtest_engine.pos st)
        = account (ofZ 1000) (backtest_engine.trades st) /\
        fgtb (base_strategy.value (backtest_engine.pos st)) (ofZ 0) = true /\
        base_strategy.qty (backtest_engine.pos st)
        = fdiv (base_strategy.value (backtest_engine.pos st))
            (base_strategy.entry_price (backtest_engine.pos st))
   else backtest_engine.cash st
        = account (ofZ 1000) (backtest_engine.trades st) /\
        backtest_engine.pos st = backtest_engine.flat) /\
  forall k', 3%nat = S k' ->
    backtest_engine.equity_curve st !! k'
    = Some (if base_strategy.in_pos (backtest_engine.pos st)
            then fmul (base_strategy.qty (backtest_engine.pos st))
                   (close (candles_at [ofZ 100; ofZ 110; ofZ 99; ofZ 120]
                           !!! (1 + k')%nat))
            else account (ofZ 1000) (backtest_engine.trades st)).
Proof.
  apply (generic_books_balance churn_strategy
           (candles_at [ofZ 100; ofZ 110; ofZ 99; ofZ 120]) 1 (ofZ 1000)).
  - intros i price p. done.
  - simpl. lia.
Defined.

Lemma generic_trades_compound_witness :
  exists out,
    (backtest_engine.run_generic_backtest (fun x => x)
       (candles_at [ofZ 100; ofZ 110; ofZ 99; ofZ 120]) churn_strategy
       (config_with 0 (Some 1%Z))).1 = Ok out /\
    forall j t, backtest_engine.out_trades out !! j = Some t ->
      booked (INITIAL_CAPITAL (config_with 0 (Some 1%Z)))
        (take j (backtest_engine.out_trades out)) t.
Proof.
  apply (generic_trades_compound (fun x => x) churn_strategy
           (candles_at [ofZ 100; ofZ 110; ofZ 99; ofZ 120])
           (config_with 0 (Some 1%Z)) 1%Z).
  - intros i price p. done.
  - reflexivity.
Defined.

(** ** The order of the trades in time *)
Section TradeTimes.
Import base_strategy backtest_engine.
Variable strat : strategy.
Variable df : list candle.
Variable start : nat.
Hypothesis Hstrat : only_moves_stop strat.
Hypothesis Hinc : increasing_time df.

Lemma StronglySorted_lookup_lt {A : Type} (R : A -> A -> Prop) (l : list A)
    (i j : nat) (x y : A) :
  StronglySorted R l -> l !! i = Some x -> l !! j = Some y -> (i < j)%nat ->
  R x y.
Proof.
  intros Hs. revert i j. induction Hs as [|a l Hs IH Hall]; intros i j Hi Hj Hij.
  - done.
  - destruct j as [|j]; [lia|]. destruct i as [|i].
    + injection Hi as <-. cbn in Hj.
      by apply (Forall_lookup_1 _ _ _ _ Hall Hj).
    + cbn in Hi, Hj. apply (IH i j); [done|done|lia].
Qed.

Lemma ts_increasing (i j : nat) :
  (i < j < length df)%nat -> (ts (df !!! i) < ts (df !!! j))%Z.
Proof using Hinc.
  intros [Hij Hj].
  destruct (lookup_lt_is_Some_2 df i ltac:(lia)) as [ci Hci].
  destruct (lookup_lt_is_Some_2 df j Hj) as [cj Hcj].
  rewrite (list_lookup_total_correct _ _ _ Hci),
    (list_lookup_total_correct _ _ _ Hcj).
  apply (StronglySorted_lookup_lt Z.lt (ts <$> df) i j); [done| | |done].
  - by rewrite list_lookup_fmap, Hci.
  - by rewrite list_lookup_fmap, Hcj.
Qed.

(** The exit time of the last trade of a table, [lo] for an empty one. *)
Fixpoint last_exit (lo : Z) (tr : list (trade position)) : Z :=
  match tr with
  | [] => lo
  | t :: tr' => last_exit (exit_time t) tr'
  end.

Lemma last_exit_snoc (lo : Z) (tr : list (trade position))
    (t : trade position) :
  last_exit lo (tr ++ [t]) = exit_time t.
Proof. revert lo. induction tr as [|t0 tr IH]; intros lo; [done|]. apply IH. Qed.

Lemma trades_in_sequence_snoc (lo : Z) (tr : list (trade position))
    (t : trade position) (te : Z) :
  trades_in_sequence lo tr ->
  entry_time (trade_position t) = Some te ->
  (last_exit lo tr <= te)%Z -> (te < exit_time t)%Z ->
  trades_in_sequence lo (tr ++ [t]).
Proof.
  revert lo. induction tr as [|t0 tr IH]; intros lo Hseq Hte Hlo Hlt.
  - cbn. split; [|done]. by exists te.
  - destruct Hseq as [H0 Hseq]. cbn. split; [done|]. by apply IH.
Qed.

Definition time_inv (i : nat) (st : gstate) : Prop :=
  let lo := ts (df !!! start) in
  trades_in_sequence lo (trades st) /\
  (forall j, (i <= j < length df)%nat ->
     (last_exit lo (trades st) <= ts (df !!! j))%Z) /\
  (in_pos (pos st) = true ->
   exists te, entry_time (pos st) = Some te /\
     (last_exit lo (trades st) <= te)%Z /\
     forall j, (i <= j < length df)%nat -> (te < ts (df !!! j))%Z).

(** The entry block, from a flat account. *)
Lemma time_entry (tr : list (trade position)) (i : nat) (curve : list num)
    (cash0 cash' : num) (p0 posn : position) :
  (start <= i < length df)%nat ->
  in_pos p0 = false ->
  trades_in_sequence (ts (df !!! start)) tr ->
  (forall j, (i <= j < length df)%nat ->
     (last_exit (ts (df !!! start)) tr <= ts (df !!! j))%Z) ->
  (cash', posn) =
    (if get_entry_signal strat i && fgtb cash0 (ofZ 0) then
       let stop_price := get_stop_loss_price strat i (close (df !!! i)) in
       if fltb stop_price (close (df !!! i)) then
         (ofZ 0, Position true (close (df !!! i)) stop_price
                   (fdiv cash0 (close (df !!! i))) cash0
                   (Some (ts (df !!! i))))
       else (cash0, p0)
     else (cash0, p0)) ->
  time_inv (S i) (GState cash' posn tr curve).
Proof using Hinc.
  intros Hi Hp0 Hseq Hlast Heq.
  assert (Hidle : (cash', posn) = (cash0, p0) ->
            time_inv (S i) (GState cash' posn tr curve)).
  { intros [= -> ->]. split_and!; cbn [trades pos]; [done| |congruence].
    intros j Hj. apply Hlast. lia. }
  destruct (get_entry_signal strat i && fgtb cash0 (ofZ 0));
    [|by apply Hidle].
  cbn zeta in Heq. destruct (fltb _ _); [|by apply Hidle].
  injection Heq as -> ->. split_and!; cbn [trades pos].
  - done.
  - intros j Hj. apply Hlast. lia.
  - intros _. exists (ts (df !!! i)). cbn [entry_time].
    split_and!; [done| |].
    + apply Hlast. lia.
    + intros j Hj. apply ts_increasing. lia.
Qed.

Lemma time_step (st : gstate) (i : nat) :
  (start <= i < length df)%nat ->
  time_inv i st -> time_inv (S i) (generic_step strat df start st i).
Proof using Hstrat Hinc.
  intros Hi (Hseq & Hlast & Hpos). unfold generic_step.
  destruct (in_pos (pos st)) eqn:Hin.
  - destruct (Hpos eq_refl) as (te & Hte & Hlo & Hlt).
    pose proof (exit_checks_keeps strat Hstrat i (close (df !!! i)) (pos st))
      as Hk.
    destruct (exit_checks strat i (close (df !!! i)) (pos st))
      as [reason posn].
    cbn [snd] in Hk. destruct Hk as (Hin' & _ & _ & _ & Htime).
    rewrite Hin in Hin'. rewrite Hte in Htime.
    destruct (str_truthy reason).
    + cbn [in_pos flat negb].
      set (t := Trade posn _ _ _ _ _).
      match goal with
      | |- time_inv _ (let '(_, _) := ?e in _) =>
          destruct e as [cash' posn'] eqn:Heq
      end.
      eapply (time_entry _ i _ _ cash' _ posn' Hi); [| | |symmetry; exact Heq].
      * done.
      * apply (trades_in_sequence_snoc _ _ t te); [done|done|done|].
        apply Hlt. lia.
      * intros j Hj. rewrite last_exit_snoc. cbn [t exit_time].
        destruct (decide (j = i)) as [->|Hne]; [lia|].
        apply Z.lt_le_incl, ts_increasing. lia.
    + rewrite Hin'. cbn [negb]. rewrite Hin'.
      split_and!; cbn [trades pos].
      * done.
      * intros j Hj. apply Hlast. lia.
      * intros _. exists te. split_and!; [done|done|].
        intros j Hj. apply Hlt. lia.
  - rewrite Hin. cbn [negb].
    match goal with
    | |- time_inv _ (let '(_, _) := ?e in _) =>
        destruct e as [cash' posn'] eqn:Heq
    end.
    by eapply (time_entry _ i _ _ cash' _ posn' Hi Hin Hseq Hlast).
Qed.

Lemma time_state (C : num) (k : nat) :
  (start + k <= length df)%nat ->
  time_inv (start + k) (generic_state_after strat df start C k).
Proof using Hstrat Hinc.
  unfold generic_state_after. induction k as [|k IH]; intros Hk.
  - split_and!; cbn [trades pos in_pos flat]; [done| |done].
    intros j Hj. cbn [last_exit].
    destruct (decide (j = start + 0)%nat) as [->|Hne].
    + by rewrite Nat.add_0_r.
    + apply Z.lt_le_incl, ts_increasing. lia.
  - rewrite seq_S, foldl_app. cbn [foldl].
    replace (start + S k)%nat with (S (start + k)) by lia.
    apply time_step; [lia|]. apply IH. lia.
Qed.

End TradeTimes.

(** X17.  The trades of a generic run follow one another in time.  With a
    strategy that only moves the stop of an open position and a table
    whose timestamps strictly increase, the run returns and in its trade
    table every trade is closed strictly after it was entered (never on
    its entry candle), is entered no earlier than the previous trade was
    closed, and the first is entered no earlier than the start candle. *)
Theorem generic_trades_in_sequence (np_sqrt : num -> num)
    (strat : base_strategy.strategy) (df : list candle) (cfg : config)
    (s : Z) :
  only_moves_stop strat ->
  increasing_time df ->
  (backtest_engine._get_start_index df cfg).1 = Some s ->
  exists out,
    (backtest_engine.run_generic_backtest np_sqrt df strat cfg).1 = Ok out /\
    trades_in_sequence (ts (df !!! Z.to_nat s))
      (backtest_engine.out_trades out).
Proof.
  intros Hstrat Hinc Hs.
  destruct (generic_run_output np_sqrt df strat cfg s Hs)
    as (stats & -> & _).
  eexists. split; [reflexivity|]. cbn [backtest_engine.out_trades].
  destruct (start_index_range df cfg s Hs) as [Hr _].
  by destruct (time_state strat df (Z.to_nat s) Hstrat Hinc
                 (INITIAL_CAPITAL cfg) (length df - Z.to_nat s))
    as (Hseq & _); [lia|].
Qed.


Lemma generic_trades_in_sequence_witness :
  exists out,
    (backtest_engine.run_generic_backtest (fun x => x)
       (candles_at [ofZ 100; ofZ 110; ofZ 99; ofZ 120]) churn_strategy
       (config_with 0 (Some 1%Z))).1 = Ok out /\
    trades_in_sequence
      (ts (candles_at [ofZ 100; ofZ 110; ofZ 99; ofZ 120] !!! Z.to_nat 1))
      (backtest_engine.out_trades out).
Proof.
  apply (generic_trades_in_sequence (fun x => x) churn_strategy
           (candles_at [ofZ 100; ofZ 110; ofZ 99; ofZ 120])
           (config_with 0 (Some 1%Z)) 1%Z).
  - intros i price p. done.
  - repeat (constructor; [|repeat constructor; done]). constructor.
  - reflexivity.
Defined.

(** ** The start index and the start date *)
Section StartDate.
Import backtest_engine.

Lemma searchsorted_left_before (l : list Z) (x : Z) (j : nat) (t : Z) :
  (j < searchsorted_left l x)%nat -> l !! j = Some t -> (t < x)%Z.
Proof.
  revert j. induction l as [|a l IH]; intros j Hj Hl; [done|].
  cbn in Hj. case_bool_decide as Ha; [|lia].
  destruct j as [|j]; [by injection Hl as <-|].
  apply (IH j); [lia|done].
Qed.

Lemma searchsorted_left_from (l : list Z) (x : Z) (j : nat) (t : Z) :
  StronglySorted Z.le l ->
  (searchsorted_left l x <= j)%nat -> l !! j = Some t -> (x <= t)%Z.
Proof.
  intros Hs. revert j. induction Hs as [|a l Hs IH Hall]; intros j Hj Hl; [done|].
  cbn in Hj. case_bool_decide as Ha.
  - destruct j as [|j]; [lia|]. apply (IH j); [lia|done].
  - destruct j as [|j]; [injection Hl as <-; lia|].
    cbn in Hl. pose proof (Forall_lookup_1 _ _ _ _ Hall Hl). lia.
Qed.

Lemma searchsorted_left_length (l : list Z) (x : Z) :
  (searchsorted_left l x <= length l)%nat.
Proof. induction l as [|a l IH]; cbn; [lia|]. case_bool_decide; lia. Qed.

(** X18.  On a table in time order, the index the runners start from skips the
    warm-up candles and every candle before the configured start date,
    and no more than that: every candle from it on is at or after the
    start date, and when it lies beyond the warm-up (and beyond the first
    candle) the candle just before it is before the start date. *)
Theorem start_index_respects_start_date (df : list candle) (cfg : config)
    (s : Z) :
  ordered_time df ->
  (_get_start_index df cfg).1 = Some s ->
  let warmup := default 200%Z (TECHNICAL_WARMUP_PERIOD cfg) in
  (warmup <= s < Z.of_nat (length df))%Z /\
  (forall j, (Z.to_nat s <= j < length df)%nat ->
     (BACKTEST_START_DATE cfg <= ts (df !!! j))%Z) /\
  ((Z.max 0 warmup < s)%Z ->
   (ts (df !!! (Z.to_nat s - 1)%nat) < BACKTEST_START_DATE cfg)%Z).
Proof.
  intros Hord Hs warmup. unfold _get_start_index in Hs. fold warmup in Hs.
  set (r := searchsorted_left (ts <$> df) (BACKTEST_START_DATE cfg)) in *.
  case_bool_decide as Hn; [done|]. cbn in Hs. injection Hs as <-.
  split; [lia|]. split.
  - intros j Hj.
    destruct (lookup_lt_is_Some_2 df j ltac:(lia)) as [cd Hcd].
    rewrite (list_lookup_total_correct _ _ _ Hcd).
    apply (searchsorted_left_from (ts <$> df) _ j); [done|fold r; lia|].
    by rewrite list_lookup_fmap, Hcd.
  - intros Hw. assert (Hmax : Z.max warmup (Z.of_nat r) = Z.of_nat r) by lia.
    rewrite Hmax, Nat2Z.id.
    destruct (lookup_lt_is_Some_2 df (r - 1)%nat ltac:(lia)) as [cd Hcd].
    rewrite (list_lookup_total_correct _ _ _ Hcd).
    apply (searchsorted_left_before (ts <$> df) _ (r - 1)); [fold r; lia|].
    by rewrite list_lookup_fmap, Hcd.
Qed.

End StartDate.

Lemma start_index_respects_start_date_witness :
  let df := candles_at [ofZ 100; ofZ 110; ofZ 99; ofZ 120] in
  let cfg := config_with 7000 (Some 1%Z) in
  let warmup := default 200%Z (TECHNICAL_WARMUP_PERIOD cfg) in
  (warmup <= 2 < Z.of_nat (length df))%Z /\
  (forall j, (Z.to_nat 2 <= j < length df)%nat ->
     (BACKTEST_START_DATE cfg <= ts (df !!! j))%Z) /\
  ((Z.max 0 warmup < 2)%Z ->
   (ts (df !!! (Z.to_nat 2 - 1)%nat) < BACKTEST_START_DATE cfg)%Z).
Proof.
  apply (start_index_respects_start_date
           (candles_at [ofZ 100; ofZ 110; ofZ 99; ofZ 120])
           (config_with 7000 (Some 1%Z)) 2%Z).
  - repeat (constructor; [|repeat constructor; done]). constructor.
  - reflexivity.
Defined.

(** ** Ranges and counts of the statistics *)
Section StatsRanges.
Import backtest_engine.
Variable np_sqrt : num -> num.
Context {P : Type}.

Lemma round_half_even_bounds (q : Q) (a b : Z) :
  (inject_Z a <= q)%Q -> (q <= inject_Z b)%Q ->
  (a <= round_half_even q <= b)%Z.
Proof.
  intros Ha Hb.
  pose proof (Qfloor_le q) as Hfl. pose proof (Qlt_floor q) as Hfu.
  assert (Hfa : (a <= Qfloor q)%Z).
  { rewrite <- (Qfloor_Z a). by apply Qfloor_resp_le. }
  assert (Hfb : (Qfloor q <= b)%Z).
  { rewrite <- (Qfloor_Z b). by apply Qfloor_resp_le. }
  assert (Hstep : (1 # 2 <= q - inject_Z (Qfloor q))%Q -> (Qfloor q + 1 <= b)%Z).
  { intros Hhalf. destruct (Z.eq_dec (Qfloor q) b) as [Heq|Hne]; [|lia].
    rewrite Heq in Hhalf. lra. }
  unfold round_half_even.
  destruct (Qcompare_spec (q - inject_Z (Qfloor q)) (1 # 2)) as [He|Hl|Hg].
  - destruct (Z.even (Qfloor q)); [lia|].
    split; [lia|]. apply Hstep. rewrite He. apply Qle_refl.
  - lia.
  - split; [lia|]. apply Hstep. by apply Qlt_le_weak.
Qed.

Lemma round2_percentage (q : Qc) :
  (0 <= q)%Qc -> (q <= Q2Qc (inject_Z 100))%Qc -> is_percentage (round2 (Fin q)).
Proof.
  intros H0 H100. rewrite round2_fin. eexists. split; [reflexivity|].
  destruct (round_half_even_bounds (this q * 100) 0 10000) as [Hlo Hhi].
  { qc2q. change (inject_Z 0) with 0%Q. lra. }
  { qc2q. change (inject_Z 100) with 100%Q in H100.
    change (inject_Z 10000) with 10000%Q. lra. }
  rewrite Zle_Qle in Hlo. rewrite Zle_Qle in Hhi.
  change (inject_Z 0) with 0%Q in Hlo.
  change (inject_Z 10000) with 10000%Q in Hhi.
  split; qc2q; change (inject_Z 100) with 100%Q.
  - apply Qle_shift_div_l; lra.
  - apply Qle_shift_div_r; lra.
Qed.

Lemma count_total_insert (m : gmap string nat) (r : string) :
  count_total (<[r := S (default 0%nat (m !! r))]> m) = S (count_total m).
Proof.
  unfold count_total.
  assert (Hcomm : forall (j1 j2 : string) (z1 z2 y : nat),
            (z1 + (z2 + y) = z2 + (z1 + y))%nat) by (intros; lia).
  destruct (m !! r) as [k|] eqn:Hr; cbn [default].
  - rewrite <- (insert_delete_eq m r (S k)).
    rewrite map_fold_insert_L; [|intros; apply Hcomm; done|by rewrite lookup_delete_eq].
    rewrite <- (insert_delete_id m r k Hr) at 2.
    rewrite (map_fold_insert_L _ _ r k);
      [|intros; apply Hcomm; done|by rewrite lookup_delete_eq].
    lia.
  - rewrite map_fold_insert_L; [lia|intros; apply Hcomm; done|done].
Qed.

Lemma count_total_value_counts (l : list string) :
  count_total (value_counts l) = length l.
Proof.
  induction l as [|r l IH]; [done|].
  cbn [value_counts foldr length]. fold (value_counts l).
  by rewrite count_total_insert, IH.
Qed.

Lemma value_counts_lookup (l : list string) (r : string) :
  default 0%nat (value_counts l !! r) = length (filter (fun x => x = r) l).
Proof.
  induction l as [|x l IH]; [done|].
  cbn [value_counts foldr]. fold (value_counts l).
  rewrite filter_cons. destruct (decide (x = r)) as [->|Hne].
  - rewrite lookup_insert_eq. cbn [default length]. by rewrite IH.
  - by rewrite lookup_insert_ne.
Qed.

Lemma length_wins_le (trades : list (trade P)) :
  (length (wins trades) <= length trades)%nat.
Proof. unfold wins. apply length_filter. Qed.

Lemma win_rate_percentage (trades : list (trade P)) :
  trades <> [] ->
  is_percentage
    (round2 (fmul (fdiv (ofnat (length (wins trades)))
                     (ofnat (length trades))) (ofZ 100))).
Proof.
  intros Hne. assert (Hn : length trades <> 0%nat) by by destruct trades.
  pose proof (length_wins_le trades) as Hle.
  unfold ofnat at 1, ofZ at 1. unfold ofnat, ofZ.
  rewrite fdiv_fin by by apply ofnat_nonzero. cbn [fmul].
  pose proof (ofnat_pos _ Hn) as Hpos.
  assert (Hw : (0 <= Q2Qc (inject_Z (Z.of_nat (length (wins trades)))))%Qc).
  { qc2q. change 0%Q with (inject_Z 0). rewrite <- Zle_Qle. lia. }
  assert (Hwn : (Q2Qc (inject_Z (Z.of_nat (length (wins trades))))
                 <= Q2Qc (inject_Z (Z.of_nat (length trades))))%Qc).
  { qc2q. rewrite <- Zle_Qle. lia. }
  apply round2_percentage.
  - qc2q. change (inject_Z 100) with 100%Q.
    apply Qmult_le_0_compat; [|lra]. apply Qle_shift_div_l; lra.
  - qc2q. change (inject_Z 100) with 100%Q.
    assert (inject_Z (Z.of_nat (length (wins trades)))
            / inject_Z (Z.of_nat (length trades)) <= 1)%Q.
    { apply Qle_shift_div_r; lra. }
    lra.
Qed.

(** X19.  The counts of the statistics agree with the trade table.  Whenever
    [calculate_stats] returns: the exit-reason counts add up to the
    reported number of trades, the win rate is a percentage between 0
    and 100, and, when trades are reported, the count of each exit
    reason is the number of trades closed for that reason. *)
Theorem stats_counts_are_consistent (trades : list (trade P))
    (equity : series) (C : num) (sd ed : option Z) (bh : option num)
    (st : stats) :
  calculate_stats np_sqrt trades equity C sd ed bh = Ok st ->
  count_total (Exit_Reason_Counts st) = Total_Trades st /\
  is_percentage (Win_Rate_pct st) /\
  (Total_Trades st <> 0%nat ->
   Total_Trades st = length trades /\
   forall r, default 0%nat (Exit_Reason_Counts st !! r)
             = length (filter (fun t => exit_reason t = r) trades)).
Proof.
  unfold calculate_stats.
  assert (Hzero : is_percentage (ofZ 0)).
  { exists 0%Qc. split; [done|]. split; [done|]. qc2q.
    change (inject_Z 100) with 100%Q. lra. }
  destruct trades as [|t tr] eqn:Ht, equity as [|p eq];
    try (intros [= <-]; cbn; split_and!; [done..|by intros ?]).
  rewrite <- Ht. destruct sd as [s|], ed as [e|], bh as [b|]; cbn; try done.
  intros [= <-]. cbn.
  split_and!.
  - rewrite count_total_value_counts. by rewrite length_fmap.
  - apply win_rate_percentage. by rewrite Ht.
  - intros _. split; [done|]. intros r. rewrite value_counts_lookup.
    clear. induction trades as [|t trades IH]; [done|].
    rewrite fmap_cons, !filter_cons.
    destruct (decide (exit_reason t = r)); cbn [length]; by rewrite IH.
Qed.

(** A drawdown: a finite fraction above -1 and at most 0. *)
Definition is_drawdown (d : num) : Prop :=
  exists q : Qc, d = Fin q /\ (- (1) < q)%Qc /\ (q <= 0)%Qc.

Lemma cummax_from_positive (l : list num) (m : option num) :
  (m = None \/ exists mk : Qc, m = Some (Fin mk) /\ (0 < mk)%Qc) ->
  Forall (fun x => exists q : Qc, x = Fin q /\ (0 < q)%Qc) l ->
  Forall2 (fun x p => exists q pk : Qc,
             x = Fin q /\ p = Fin pk /\ (0 < q)%Qc /\ (q <= pk)%Qc)
    l (cummax_from m l).
Proof.
  intros Hm Hl. revert m Hm.
  induction Hl as [|x l (q & -> & Hq) Hl IH]; intros m Hm; [constructor|].
  cbn [cummax_from isnan].
  destruct Hm as [-> | (mk & -> & Hmk)].
  - constructor.
    + exists q, q. split_and!; [done|done|done|]. apply Qcle_refl.
    + apply IH. right. by exists q.
  - unfold fmax. cbn [fltb]. case_bool_decide as Hlt.
    + constructor.
      * exists q, q. split_and!; [done|done|done|]. apply Qcle_refl.
      * apply IH. right. by exists q.
    + constructor.
      * exists q, mk. split_and!; [done|done|done|]. by apply Qcnot_lt_le.
      * apply IH. right. by exists mk.
Qed.

Lemma drawdowns_in_range (values peak : list num) :
  Forall2 (fun x p => exists q pk : Qc,
             x = Fin q /\ p = Fin pk /\ (0 < q)%Qc /\ (q <= pk)%Qc)
    values peak ->
  Forall is_drawdown (zip_with (fun e p => fdiv (fsub e p) p) values peak).
Proof.
  induction 1 as [|x p values peak (q & pk & -> & -> & Hq & Hle) _ IH];
    [constructor|].
  cbn [zip_with]. constructor; [|done].
  assert (Hpk : (0 < pk)%Qc) by (qc2q; lra).
  cbn [fsub fneg fadd]. rewrite fdiv_fin.
  2:{ intros H0. rewrite H0 in Hpk. by apply Qclt_not_eq in Hpk. }
  eexists. split; [reflexivity|]. split; qc2q.
  - apply Qlt_shift_div_l; [done|]. change (this (Q2Qc 1)) with 1%Q. lra.
  - apply Qle_shift_div_r; [done|]. lra.
Qed.

Lemma dropna_drawdowns (l : list num) :
  Forall is_drawdown l -> dropna l = l.
Proof.
  intros Hl. unfold dropna. induction Hl as [|x l (q & -> & _) _ IH]; [done|].
  rewrite filter_cons_True by done. by rewrite IH.
Qed.

Lemma foldl_fmin_drawdown (l : list num) (x : num) :
  is_drawdown x -> Forall is_drawdown l -> is_drawdown (foldl fmin x l).
Proof.
  intros Hx Hl. revert x Hx. induction Hl as [|y l Hy _ IH]; intros x Hx; [done|].
  cbn [foldl]. apply IH. unfold fmin. by destruct (fltb y x).
Qed.

Lemma max_drawdown_percentage (d : num) :
  is_drawdown d -> is_percentage (round2 (fabs (fmul d (ofZ 100)))).
Proof.
  intros (q & -> & Hlo & Hhi). unfold ofZ. cbn [fmul fabs].
  case_bool_decide as Hneg; apply round2_percentage; qc2q;
    change (inject_Z 100) with 100%Q in *;
    change (this (Q2Qc 1)) with 1%Q in *; lra.
Qed.

(** X20.  The reported maximum drawdown is a percentage.  Whenever
    [calculate_stats] returns for an equity curve whose every point is a
    finite positive amount, Max Drawdown % is a number between 0 and
    100. *)
Theorem max_drawdown_is_a_percentage (trades : list (trade P))
    (equity : series) (C : num) (sd ed : option Z) (bh : option num)
    (st : stats) :
  positive_curve equity ->
  calculate_stats np_sqrt trades equity C sd ed bh = Ok st ->
  is_percentage (Max_Drawdown_pct st).
Proof.
  intros Hpos. unfold calculate_stats.
  assert (Hzero : is_percentage (ofZ 0)).
  { exists 0%Qc. split; [done|]. split; [done|]. qc2q.
    change (inject_Z 100) with 100%Q. lra. }
  destruct trades as [|t tr] eqn:Ht, equity as [|p eq] eqn:He;
    try (by intros [= <-]).
  rewrite <- Ht, <- He.
  destruct sd as [s|], ed as [e|], bh as [b|]; cbn; try done.
  intros [= <-]. cbn [Max_Drawdown_pct].
  assert (Hvals : Forall (fun x => exists q : Qc, x = Fin q /\ (0 < q)%Qc)
                    (snd <$> equity)).
  { rewrite <- He in Hpos. by apply Forall_fmap. }
  pose proof (drawdowns_in_range _ _
                (cummax_from_positive (snd <$> equity) None
                   (or_introl eq_refl) Hvals)) as Hdd.
  fold (cummax (snd <$> equity)) in Hdd.
  apply max_drawdown_percentage. unfold pd_min.
  rewrite dropna_drawdowns by done.
  destruct (zip_with _ _ _) as [|d dd] eqn:Hz.
  { exfalso. rewrite He, fmap_cons in Hz. unfold cummax in Hz.
    cbn [cummax_from] in Hz. by destruct (isnan p.2). }
  apply Forall_cons in Hdd as [Hd Hdd]. by apply foldl_fmin_drawdown.
Qed.

End StatsRanges.

Lemma stats_counts_are_consistent_witness :
  exists st,
    backtest_engine.calculate_stats (fun x => x)
      [trade_with_pnl (ofZ 5); trade_with_pnl (ofZ (-2))]
      [(0%Z, ofZ 1000); (3600%Z, ofZ 1003)] (ofZ 1000)
      (Some 0%Z) (Some 0%Z) (Some (ofZ 0)) = Ok st /\
    count_total (backtest_engine.Exit_Reason_Counts st)
    = backtest_engine.Total_Trades st /\
    is_percentage (backtest_engine.Win_Rate_pct st).
Proof.
  eexists. split; [reflexivity|].
  destruct (stats_counts_are_consistent (fun x => x)
              [trade_with_pnl (ofZ 5); trade_with_pnl (ofZ (-2))]
              [(0%Z, ofZ 1000); (3600%Z, ofZ 1003)] (ofZ 1000)
              (Some 0%Z) (Some 0%Z) (Some (ofZ 0)) _ eq_refl)
    as (H1 & H2 & _).
  split; [exact H1 | exact H2].
Defined.

Lemma max_drawdown_is_a_percentage_witness :
  exists st,
    backtest_engine.calculate_stats (fun x => x)
      [trade_with_pnl (ofZ 5); trade_with_pnl (ofZ (-2))]
      [(0%Z, ofZ 1000); (3600%Z, ofZ 800); (7200%Z, ofZ 1003)] (ofZ 1000)
      (Some 0%Z) (Some 0%Z) (Some (ofZ 0)) = Ok st /\
    is_percentage (backtest_engine.Max_Drawdown_pct st).
Proof.
  eexists. split; [reflexivity|].
  apply (max_drawdown_is_a_percentage (fun x => x)
           [trade_with_pnl (ofZ 5); trade_with_pnl (ofZ (-2))]
           [(0%Z, ofZ 1000); (3600%Z, ofZ 800); (7200%Z, ofZ 1003)]
           (ofZ 1000) (Some 0%Z) (Some 0%Z) (Some (ofZ 0))).
  - repeat (constructor; [eexists; split; [reflexivity | done]|]).
    constructor.
  - reflexivity.
Defined.

(** ** The optimizer's signals over undefined slopes *)
Section SlopeSignals.
Import backtest_engine dynamic_momentum_optimizer.

Lemma np_get_nan (n : nat) (i : Z) :
  (- Z.of_nat n <= i < Z.of_nat n)%Z -> np_get (replicate n NaN) i = Ok NaN.
Proof.
  intros Hi. unfold np_get, py_index. rewrite length_replicate.
  case_bool_decide as H0.
  - rewrite lookup_replicate_2 by lia. done.
  - rewrite bool_decide_eq_true_2 by lia.
    rewrite lookup_replicate_2 by lia. done.
Qed.

(** X21.  The slope signals of the optimizer never fire on undefined slopes.
    When the slope columns of the remembered parameter tuples are
    not-a-number throughout, the scan of the parameter memory picks no
    tuple at any candle, so an entry can only come from the random
    exploration; and when those of an open position's tuple are, its exit
    signal is never the slope cross: it is the stop loss when the price
    is below the stop, and no exit otherwise. *)
Theorem slope_signals_never_fire (inds : gmap string (list num)) (n i : nat)
    (memory : list (params * num)) :
  (i < n)%nat ->
  (Forall (fun e => undefined_slopes inds n e.1) memory ->
   scan_memory inds (Z.of_nat i) memory = Ok None) /\
  (forall price posn p,
     l_params posn = Some p -> undefined_slopes inds n p ->
     get_exit_signal inds i price posn
     = Ok (if fltb price (stop posn) then Some "Stop Loss" else None)).
Proof.
  intros Hi. split.
  - induction 1 as [|[[[[fma sma] atr_len] mult] sc] memory [Hf Hs] _ IH];
      [done|].
    cbn [scan_memory]. cbn in Hf, Hs. rewrite Hf, Hs.
    cbn [of_option mbind result_bind].
    rewrite !np_get_nan by lia. by cbn [mbind result_bind isnan].
  - intros price posn [[[fma sma] atr_len] mult] Hp [Hf Hs].
    unfold get_exit_signal. rewrite Hp. cbn in Hf, Hs. rewrite Hf, Hs.
    cbn [of_option mbind result_bind].
    rewrite !np_get_nan by lia. cbn. by destruct (fltb price (stop posn)).
Qed.

End SlopeSignals.

Lemma slope_signals_never_fire_witness :
  dynamic_momentum_optimizer.scan_memory nan_slope_indicators (Z.of_nat 2)
    [((10%Z, 90%Z, 10%Z, ofZ 2), ofZ 3)] = Ok None /\
  dynamic_momentum_optimizer.get_exit_signal nan_slope_indicators 2
    (ofZ 95) example_lposition = Ok None.
Proof.
  destruct (slope_signals_never_fire nan_slope_indicators 5 2
              [((10%Z, 90%Z, 10%Z, ofZ 2), ofZ 3)] ltac:(lia)) as [H1 H2].
  split.
  - apply H1. repeat constructor.
  - apply (H2 (ofZ 95) example_lposition (10%Z, 90%Z, 10%Z, ofZ 2) eq_refl).
    by split.
Defined.

(** ** The parameter memory after a re-optimization *)
Section OptimizerMemory.
Import backtest_engine dynamic_momentum_optimizer.
Variable R : Type.
Variable np_argsort : list num -> list nat.

Lemma mapM_result_length {A B : Type} (f : A -> result B) (l : list A)
    (ys : list B) :
  mapM f l = Ok ys -> length ys = length l.
Proof.
  revert ys. induction l as [|x l IH]; intros ys; cbn.
  - by intros [= <-].
  - destruct (f x) as [y|e]; cbn [mbind result_bind]; [|done].
    destruct (mapM f l) as [ys'|e]; cbn [mbind result_bind]; [|done].
    intros [= <-]. cbn. by rewrite (IH ys').
Qed.

Lemma length_scores (fma_g sma_g atr_g : list Z) (mult_g : list num)
    (fma_a sma_a atr_a : list (list num)) (close : list num)
    (start end_ : Z) (trail : num) (scores : list num) :
  _score_params_numba fma_g sma_g atr_g mult_g fma_a sma_a atr_a close
    start end_ trail = Ok scores ->
  length scores = length fma_g.
Proof.
  unfold _score_params_numba. intros H.
  apply mapM_result_length in H. by rewrite length_seq in H.
Qed.

(** X22.  After [optimize] returns, the parameter memory holds tuples of the
    grid only, each with a score; it has at most TOP_PARAM_MEMORY
    entries, all scoring at least the confidence threshold, or else it
    is the single fallback entry (or empty); the grid, the configuration
    and the indicators are untouched.  When the sort returns a
    permutation of the positions and the grid is not empty, the memory
    is not empty. *)
Theorem optimize_memory_is_from_grid (self self' : optimizer R) (i : nat)
    (close : list num) :
  optimize R np_argsort self i close = Ok self' ->
  let cfg := opt_config R self in
  let memory := best_params_memory R self' in
  grid R self' = grid R self /\
  opt_config R self' = cfg /\
  indicators R self' = indicators R self /\
  Forall (fun e => e.1 ∈ grid R self) memory /\
  ((length memory <= TOP_PARAM_MEMORY cfg)%nat /\
   Forall (fun e => fgeb e.2 (CONFIDENCE_THRESHOLD cfg) = true) memory
   \/ (length memory <= 1)%nat) /\
  ((forall l, np_argsort l ≡ₚ seq 0 (length l)) ->
   grid R self <> [] -> memory <> []).
Proof.
  unfold optimize. destruct (optimizer_arrays R self) as [[fma_a sma_a] atr_a].
  destruct (_score_params_numba _ _ _ _ _ _ _ _ _ _ _) as [scores|e] eqn:Hsc;
    cbn [mbind result_bind]; [|done].
  apply length_scores in Hsc. rewrite length_fmap in Hsc.
  intros [= <-]. cbn [grid opt_config indicators best_params_memory].
  set (g := grid R self) in *. set (cfg := opt_config R self).
  set (entry_of := fun j : nat =>
         g !! j ≫= fun p => scores !! j ≫= fun sc => Some (p, sc)).
  set (ordered := reverse (np_argsort scores)).
  set (confident := take (TOP_PARAM_MEMORY cfg)
         (filter (fun e : params * num =>
                    fgeb e.2 (CONFIDENCE_THRESHOLD cfg) = true)
                 (omap entry_of ordered))).
  assert (Hentry : forall j e, entry_of j = Some e -> e.1 ∈ g).
  { intros j e. unfold entry_of.
    destruct (g !! j) as [p|] eqn:Hp; cbn; [|done].
    destruct (scores !! j) as [sc|]; cbn; [|done].
    intros [= <-]. cbn. by eapply list_elem_of_lookup_2. }
  assert (Hconf_grid : Forall (fun e => e.1 ∈ g) confident).
  { apply Forall_forall. intros e He.
    apply elem_of_take in He as (k & He & _).
    apply list_elem_of_lookup_2, list_elem_of_filter in He as [_ He].
    apply list_elem_of_omap in He as (j & _ & He). by eapply Hentry. }
  assert (Hconf_thr : Forall (fun e => fgeb e.2 (CONFIDENCE_THRESHOLD cfg) = true)
                        confident).
  { apply Forall_forall. intros e He.
    apply elem_of_take in He as (k & He & _).
    by apply list_elem_of_lookup_2, list_elem_of_filter in He as [He _]. }
  assert (Hconf_len : (length confident <= TOP_PARAM_MEMORY cfg)%nat).
  { unfold confident. rewrite length_take. lia. }
  assert (Hord : (forall l, np_argsort l ≡ₚ seq 0 (length l)) ->
                 ordered ≡ₚ seq 0 (length g)).
  { intros Hperm. unfold ordered. by rewrite reverse_Permutation, Hperm, Hsc. }
  clearbody confident ordered.
  split_and!; try done.
  - destruct confident as [|c0 cs]; [|done].
    destruct ordered as [|j js]; [done|].
    fold (entry_of j).
    destruct (entry_of j) as [e|] eqn:He; cbn [option_list]; [|done].
    apply Forall_singleton. by eapply Hentry.
  - destruct confident as [|c0 cs]; [|by left].
    right. destruct ordered as [|j js]; [cbn; lia|].
    fold (entry_of j). destruct (entry_of j); cbn; lia.
  - intros Hperm Hg. specialize (Hord Hperm).
    destruct confident as [|c0 cs]; [|done].
    destruct ordered as [|j js].
    { apply Permutation_nil_l in Hord. by destruct g. }
    assert (Hj : (j < length g)%nat).
    { assert (j ∈ seq 0 (length g)) as Hin by (rewrite <- Hord; left).
      apply elem_of_seq in Hin. lia. }
    destruct (lookup_lt_is_Some_2 g j Hj) as [p ->].
    destruct (lookup_lt_is_Some_2 scores j ltac:(lia)) as [sc ->].
    done.
Qed.

End OptimizerMemory.

Lemma optimize_memory_is_from_grid_witness :
  exists self',
    dynamic_momentum_optimizer.optimize unit (fun l => seq 0 (length l))
      example_optimizer 2 [ofZ 100; ofZ 101; ofZ 102] = Ok self' /\
    dynamic_momentum_optimizer.best_params_memory unit self' <> [] /\
    Forall (fun e => e.1 ∈ dynamic_momentum_optimizer.grid unit
                             example_optimizer)
      (dynamic_momentum_optimizer.best_params_memory unit self').
Proof.
  eexists. split; [reflexivity|].
  destruct (optimize_memory_is_from_grid unit (fun l => seq 0 (length l))
              example_optimizer _ 2 [ofZ 100; ofZ 101; ofZ 102] eq_refl)
    as (_ & _ & _ & Hgrid & _ & Hne).
  split; [|exact Hgrid]. apply Hne; [done|done].
Defined.

(** ** The indicators the optimizer is given *)
Section SetIndicators.
Import backtest_engine dynamic_momentum_optimizer.
Variable R : Type.

Lemma atr_key_not_std (p q : Z) :
  indicator_key "std" q <> indicator_key "atr" p.
Proof. unfold indicator_key. cbn. discriminate. Qed.

Lemma atr_key_inj (p q : Z) :
  indicator_key "atr" p = indicator_key "atr" q -> p = q.
Proof.
  unfold indicator_key. intros H.
  do 2 apply string_app_inj_l in H. by apply (inj pretty) in H.
Qed.

Definition remap_step (m : gmap string (list num)) (p : Z)
    : gmap string (list num) :=
  match m !! indicator_key "std" p with
  | Some arr => <[indicator_key "atr" p := arr]> m
  | None => m
  end.

Lemma remap_spec (inds : gmap string (list num)) (ps : list Z) :
  let m := foldl remap_step inds ps in
  (forall k, (forall p, p ∈ ps -> k <> indicator_key "atr" p) ->
     m !! k = inds !! k) /\
  (forall p arr, p ∈ ps -> inds !! indicator_key "std" p = Some arr ->
     m !! indicator_key "atr" p = Some arr).
Proof.
  induction ps as [|q ps [IH1 IH2]] using rev_ind; cbn zeta.
  - split; [done|]. intros p arr Hp. inversion Hp.
  - rewrite foldl_app. cbn [foldl].
    set (m := foldl remap_step inds ps) in *.
    assert (Hstd : m !! indicator_key "std" q = inds !! indicator_key "std" q).
    { apply IH1. intros p _. apply atr_key_not_std. }
    unfold remap_step. rewrite Hstd. split.
    + intros k Hk.
      assert (m !! k = inds !! k) as Hm.
      { apply IH1. intros p Hp. apply Hk, elem_of_app. by left. }
      destruct (inds !! indicator_key "std" q); [|done].
      rewrite lookup_insert_ne; [done|].
      intros Heq. apply (Hk q); [|done]. apply elem_of_app. right. by left.
    + intros p arr Hp Hstdp.
      destruct (decide (p = q)) as [->|Hne].
      * rewrite Hstdp. by rewrite lookup_insert_eq.
      * apply elem_of_app in Hp as [Hp|Hp].
        2:{ apply list_elem_of_singleton in Hp. done. }
        destruct (inds !! indicator_key "std" q); [|by apply IH2].
        rewrite lookup_insert_ne; [by apply IH2|].
        intros Heq. apply atr_key_inj in Heq. done.
Qed.

(** X23.  [set_indicators] makes the rolling deviation stand in for the ATR:
    for every configured ATR period whose deviation column is present,
    the ATR key of that period holds the deviation column afterwards,
    whatever it held before; every other key keeps its column, and the
    rest of the optimizer is untouched. *)
Theorem set_indicators_remaps_std (self : optimizer R)
    (inds : gmap string (list num)) :
  let self' := set_indicators R self inds in
  let periods := ATR_PERIODS (opt_config R self) in
  (forall p arr, p ∈ periods ->
     inds !! indicator_key "std" p = Some arr ->
     indicators R self' !! indicator_key "atr" p = Some arr) /\
  (forall k, (forall p, p ∈ periods -> k <> indicator_key "atr" p) ->
     indicators R self' !! k = inds !! k) /\
  opt_config R self' = opt_config R self /\
  best_params_memory R self' = best_params_memory R self /\
  grid R self' = grid R self.
Proof.
  intros self' periods. unfold self', set_indicators.
  cbn [indicators opt_config best_params_memory grid].
  destruct (remap_spec inds periods) as [H1 H2].
  split_and!; [exact H2 | exact H1 | done..].
Qed.

End SetIndicators.

(** ** The books of the grid *)
Section GridBooks.
Import strategy_library.










Variable f q : Qc.
Hypothesis Hf : (0 < f)%Qc.
Hypothesis Hq : (0 < q)%Qc.











End GridBooks.

Section GridRun.
Import strategy_library.





End GridRun.



(** ** The portfolio of tests over the same candles *)
Section AlignedCurves.
Import engine_runner.

Lemma sorted_lists_equal (l k : list Z) :
  StronglySorted Z.lt l -> StronglySorted Z.lt k ->
  (forall t, t ∈ l <-> t ∈ k) -> l = k.
Proof.
  intros Hl Hk Hel.
  assert (Hnd : forall m, StronglySorted Z.lt m -> NoDup m).
  { induction 1 as [|x m Hm IH Hx]; constructor; [|done].
    intros Hin. rewrite Forall_forall in Hx. specialize (Hx x Hin). lia. }
  assert (Hle : forall m, StronglySorted Z.lt m -> StronglySorted Z.le m).
  { induction 1 as [|x m Hm IH Hx]; constructor; [done|].
    eapply Forall_impl; [exact Hx|]. intros y. cbn. lia. }
  apply (StronglySorted_unique Z.le); [by apply Hle..|].
  apply NoDup_Permutation; [by apply Hnd..|done].
Qed.

Lemma union_index_aligned (curves : list series) (idx : list Z) :
  curves <> [] -> StronglySorted Z.lt idx ->
  Forall (fun s : series => fst <$> s = idx) curves ->
  union_index curves = idx.
Proof.
  intros Hne Hidx Hall.
  apply sorted_lists_equal; [apply union_index_sorted|done|].
  intros t. rewrite union_index_elem. rewrite Forall_forall in Hall. split.
  - intros (s & Hs & Ht). by rewrite <- (Hall s Hs).
  - intros Ht. destruct curves as [|s cs]; [done|].
    exists s. split; [left|]. rewrite (Hall s); [done|left].
Qed.

Lemma aligned_row (C : Qc) (s : series) (t : Z) :
  well_formed_curve s -> t ∈ fst <$> s ->
  exists v : Qc, value_at s t = Fin v /\
    carried_delta (Fin C) s t = Fin (v - C).
Proof.
  intros [Hs Hfin] Ht.
  apply list_elem_of_fmap in Ht as ([t' x] & -> & Hp). cbn [fst].
  assert (Hx : is_fin x = true).
  { unfold all_finite in Hfin. rewrite Forall_forall in Hfin.
    apply Hfin, list_elem_of_fmap. by exists (t', x). }
  apply is_fin_inv in Hx as [v ->]. exists v.
  rewrite (value_at_elem s t' (Fin v) Hs Hp). split; [done|].
  unfold carried_delta. by rewrite (last_value_elem s t' (Fin v) Hs Hp).
Qed.

(** X26.  When all tests cover the same candles, the portfolio curve needs
    no filling: for one or more curves of finite values over one and the
    same strictly increasing index and a finite per-test capital, the
    portfolio curve has that index and holds at each timestamp the sum of
    the curves' deltas from the per-test capital there, plus the capital
    times the number of tests. *)
Theorem aligned_portfolio_sums_deltas (curves : list series) (idx : list Z)
    (C : Qc) :
  curves <> [] ->
  Forall well_formed_curve curves ->
  Forall (fun s : series => fst <$> s = idx) curves ->
  portfolio_equity curves (Fin C)
  = (fun t => (t, fadd (np_sum ((fun s => fsub (value_at s t) (Fin C))
                                  <$> curves))
                    (fmul (Fin C) (ofnat (length curves))))) <$> idx.
Proof.
  intros Hne Hwf Hidx.
  assert (Hsorted : StronglySorted Z.lt idx).
  { destruct curves as [|s cs]; [done|].
    apply Forall_cons in Hidx as [<- _].
    apply Forall_cons in Hwf as [[Hs _] _].
    by apply (StronglySorted_fmap fst _ Z.lt s) in Hs. }
  unfold portfolio_equity.
  rewrite aggregate_rows by done.
  rewrite (union_index_aligned curves idx) by done.
  apply list_fmap_ext. intros j t Hj. do 3 f_equal.
  apply list_fmap_ext. intros k s Hk.
  destruct (aligned_row C s t) as (v & -> & ->).
  - exact (Forall_lookup_1 _ _ _ _ Hwf Hk).
  - rewrite (Forall_lookup_1 _ _ _ _ Hidx Hk). by eapply list_elem_of_lookup_2.
  - done.
Qed.

End AlignedCurves.

Lemma aligned_portfolio_sums_deltas_witness :
  engine_runner.portfolio_equity [curve_up; curve_dip] (Fin (Q2Qc 1000))
  = (fun t => (t, fadd (np_sum ((fun s => fsub (engine_runner.value_at s t)
                                            (Fin (Q2Qc 1000)))
                                  <$> [curve_up; curve_dip]))
                    (fmul (Fin (Q2Qc 1000))
                       (ofnat (length [curve_up; curve_dip])))))
      <$> [0%Z; 86400%Z; 172800%Z].
Proof.
  apply (aligned_portfolio_sums_deltas [curve_up; curve_dip]
           [0%Z; 86400%Z; 172800%Z] (Q2Qc 1000)).
  - done.
  - apply Forall_cons. split; [|apply Forall_singleton];
      (split; [repeat (constructor; [|repeat constructor; done]); constructor
              | repeat constructor]).
  - by repeat constructor.
Defined.

(** ** The equity series the grid returns *)
Section GridResults.
Import strategy_library.

Lemma drop_duplicates_spec (seen : list Z) (rows : list (Z * num)) :
  let out := drop_duplicates seen rows in
  NoDup (fst <$> out) /\
  (forall t, t ∈ fst <$> out -> (t ∉ seen) /\ (t ∈ fst <$> rows)) /\
  (forall t, t ∉ seen ->
     engine_runner.value_at out t = engine_runner.value_at rows t) /\
  (forall t, t ∉ seen -> t ∈ fst <$> rows -> t ∈ fst <$> out) /\
  (out `sublist_of` rows).
Proof.
  revert seen. induction rows as [|[t v] rows IH]; intros seen; cbn zeta.
  { cbn. split_and!; [constructor|by intros t Ht; inv Ht|done|done|done]. }
  cbn [drop_duplicates]. case_bool_decide as Hseen.
  - destruct (IH seen) as (Hnd & Hin & Hval & Hcov & Hsub).
    split_and!.
    + done.
    + intros t' Ht'. destruct (Hin t' Ht') as [? ?].
      split; [done|]. rewrite fmap_cons. by right.
    + intros t' Ht'. cbn [engine_runner.value_at].
      rewrite bool_decide_eq_false_2 by (by intros ->). by apply Hval.
    + intros t' Ht' Hel. rewrite fmap_cons in Hel.
      apply elem_of_cons in Hel as [-> | Hel]; [done|]. by apply Hcov.
    + by apply sublist_cons.
  - destruct (IH (t :: seen)) as (Hnd & Hin & Hval & Hcov & Hsub).
    split_and!.
    + rewrite fmap_cons. apply NoDup_cons. split; [|done].
      intros Hel. destruct (Hin t Hel) as [Hn _]. apply Hn. left.
    + intros t' Ht'. rewrite fmap_cons in Ht'. rewrite fmap_cons.
      apply elem_of_cons in Ht' as [-> | Ht']; [split; [done|left]|].
      destruct (Hin t' Ht') as [Hn Hel]. split; [|by right].
      intros Hs. apply Hn. by right.
    + intros t' Ht'. cbn [engine_runner.value_at].
      case_bool_decide as Heq; [done|]. apply Hval.
      intros Hel. apply elem_of_cons in Hel as [-> | Hel]; done.
    + intros t' Ht' Hel. rewrite !fmap_cons in *.
      apply elem_of_cons in Hel as [-> | Hel]; [left|].
      destruct (decide (t' = t)) as [->|Hne]; [left|]. right.
      apply Hcov; [|done]. intros Hs.
      apply elem_of_cons in Hs as [-> | Hs]; done.
    + by apply sublist_skip.
Qed.

(** X27.  The equity series the grid hands back has one row per timestamp.
    [get_continuous_results] returns the trade table as it is and the
    recorded equity points in their order, without the later points of a
    timestamp already seen: the timestamps of the series are distinct,
    they are exactly the recorded ones, and each holds the value first
    recorded for it. *)
Theorem grid_equity_series_is_unique (self : grid) :
  let trades_df := (get_continuous_results self).1 in
  let series := (get_continuous_results self).2 in
  trades_df = trades self /\
  NoDup (fst <$> series) /\
  (series `sublist_of` equity_curve self) /\
  (forall t, t ∈ fst <$> series <-> t ∈ fst <$> equity_curve self) /\
  (forall t, engine_runner.value_at series t
             = engine_runner.value_at (equity_curve self) t).
Proof.
  unfold get_continuous_results. cbn [fst snd].
  destruct (drop_duplicates_spec [] (equity_curve self))
    as (Hnd & Hin & Hval & Hcov & Hsub).
  split_and!; [done|done|done| |].
  - intros t. split; [by intros Ht; apply Hin | apply Hcov; by intros Hs; inv Hs].
  - intros t. apply Hval. by intros Hs; inv Hs.
Qed.

End GridResults.

(** ** A zero re-optimization interval *)
Section LegacyInterval.
Import backtest_engine.
Variable np_sqrt : num -> num.

(** A loop run with two bodies that agree everywhere. *)
Lemma loopM_ext {S I : Type} (f g : S -> I -> result S) (s : S) (l : list I) :
  (forall s i, f s i = g s i) -> loopM f s l = loopM g s l.
Proof.
  intros Hfg. revert s. induction l as [|i l IH]; intros s; [done|].
  cbn [loopM]. rewrite Hfg. destruct (g s i) as [s'|e]; [|done].
  cbn [mbind result_bind]. apply IH.
Qed.

(** X28.  A re-optimization interval of zero does not switch the
    re-optimization off.  When the warm-up period decides the start index
    (the requested index does not exceed it), the interval test of the
    first candle divides by zero and the run ends in a ZeroDivisionError,
    whatever the strategy object.  When the requested index exceeds the
    warm-up, the start index is numpy's integer, the remainder by zero is
    0 and the run re-optimizes at every candle: it is the run with an
    interval of 1. *)
Theorem legacy_zero_interval {M : Type} (df : list candle)
    (lstrat : legacy_strategy M) (memory : M) (cfg : config) (s : Z) :
  REOPTIMIZE_EVERY cfg = 0%Z ->
  (_get_start_index df cfg).1 = Some s ->
  let requested :=
    Z.of_nat (searchsorted_left (ts <$> df) (BACKTEST_START_DATE cfg)) in
  let warmup := default 200%Z (TECHNICAL_WARMUP_PERIOD cfg) in
  ((requested <= warmup)%Z ->
   (run_legacy_backtest np_sqrt df lstrat memory cfg).1
   = Raise ZeroDivisionError) /\
  ((warmup < requested)%Z ->
   run_legacy_backtest np_sqrt df lstrat memory cfg
   = run_legacy_backtest np_sqrt df lstrat memory (with_interval cfg 1)).
Proof.
  intros Hzero Hs requested warmup.
  destruct (start_index_range df cfg s Hs) as [Hr Heq]. split.
  - intros Hle. unfold run_legacy_backtest. rewrite Heq, Hzero.
    rewrite bool_decide_eq_false_2 by lia. cbn [fst].
    destruct (length df - Z.to_nat s)%nat as [|k] eqn:Hk; [lia|].
    cbn [seq loopM]. unfold legacy_step at 1.
    unfold start_index_is_numpy. fold requested warmup.
    rewrite bool_decide_eq_false_2 by lia.
    unfold int_mod. by rewrite bool_decide_eq_true_2.
  - intros Hlt. unfold run_legacy_backtest.
    change (_get_start_index df (with_interval cfg 1))
      with (_get_start_index df cfg).
    change (start_index_is_numpy df (with_interval cfg 1))
      with (start_index_is_numpy df cfg).
    cbn [with_interval INITIAL_CAPITAL REOPTIMIZE_EVERY].
    rewrite Heq, Hzero. case_bool_decide as Hlen; [done|].
    unfold start_index_is_numpy. fold requested warmup.
    rewrite bool_decide_eq_true_2 by lia.
    rewrite (loopM_ext (legacy_step lstrat df 0 true (Z.to_nat s))
               (legacy_step lstrat df 1 true (Z.to_nat s))); [done|].
    intros st i. unfold legacy_step, int_mod.
    rewrite bool_decide_eq_true_2 by done.
    rewrite bool_decide_eq_false_2 by done.
    by rewrite Z.mod_1_r.
Qed.

End LegacyInterval.

Lemma legacy_zero_interval_witness :
  (backtest_engine.run_legacy_backtest (fun x => x)
     (flat_candles 3 (ofZ 100)) example_legacy_strategy example_optimizer
     zero_interval_config).1
  = Raise ZeroDivisionError.
Proof.
  apply (legacy_zero_interval (fun x => x) (flat_candles 3 (ofZ 100))
           example_legacy_strategy example_optimizer zero_interval_config
           1%Z).
  - reflexivity.
  - reflexivity.
  - simpl. lia.
Defined.

(** ** The stops of the strategy library *)
Section LibraryStops.
Import base_strategy strategy_library.

Lemma np_get_Some (arr : list num) (i : nat) (v : num) :
  arr !! i = Some v -> np_get arr (Z.of_nat i) = Ok v.
Proof.
  intros Hv. unfold np_get, py_index.
  rewrite bool_decide_eq_true_2 by lia. by rewrite Nat2Z.id, Hv.
Qed.

(** X29.  The ATR stop never lies above the entry price.  For a positive
    entry price and a positive multiplier: without an ATR column, or
    where the ATR is not-a-number, the stop is the entry price times
    0.95; where the ATR is a number that is zero or more, the stop is the
    entry price less the multiple of the ATR; either way it is at or
    below the entry price, and with an ATR of exactly zero it is the
    entry price itself (which the simulator refuses as a stop).  An
    index outside the ATR column is an IndexError. *)
Theorem atr_stop_is_not_above_entry (inds : gmap string (list num)) (i : nat)
    (e m : Qc) (period : Z) :
  (0 < e)%Qc -> (0 < m)%Qc ->
  (inds !! indicator_key "atr" period = None ->
     _atr_stop inds (Z.of_nat i) (Fin e) period (Fin m)
     = Ok (fmul (Fin e) (ofQ 95 100)) /\
     fleb (fmul (Fin e) (ofQ 95 100)) (Fin e) = true) /\
  (forall atr, inds !! indicator_key "atr" period = Some atr ->
     (atr !! i = Some NaN ->
        _atr_stop inds (Z.of_nat i) (Fin e) period (Fin m)
        = Ok (fmul (Fin e) (ofQ 95 100))) /\
     (forall a : Qc, atr !! i = Some (Fin a) -> (0 <= a)%Qc ->
        _atr_stop inds (Z.of_nat i) (Fin e) period (Fin m)
        = Ok (fsub (Fin e) (fmul (Fin a) (Fin m))) /\
        fleb (fsub (Fin e) (fmul (Fin a) (Fin m))) (Fin e) = true /\
        (a = 0%Qc -> fsub (Fin e) (fmul (Fin a) (Fin m)) = Fin e)) /\
     (atr !! i = None ->
        _atr_stop inds (Z.of_nat i) (Fin e) period (Fin m)
        = Raise IndexError)).
Proof.
  intros He Hm. unfold _atr_stop. split.
  - intros ->. split; [done|]. unfold ofQ. cbn [fmul].
    apply fleb_fin_true. qc2q. change (this 0%Qc) with 0%Q in *.
    assert (95 # 100 < 1)%Q by done. nra.
  - intros atr ->. split_and!.
    + intros Hnan. by rewrite (np_get_Some _ _ _ Hnan).
    + intros a Ha Ha0. rewrite (np_get_Some _ _ _ Ha).
      cbn [mbind result_bind isnan negb]. split; [done|].
      cbn [fmul fsub fneg fadd]. split.
      * apply fleb_fin_true. qc2q. change (this 0%Qc) with 0%Q in *. nra.
      * intros ->. f_equal. apply Qc_is_canon. qc2q.
        change (this 0%Qc) with 0%Q. ring.
    + intros Hnone. unfold np_get, py_index.
      rewrite bool_decide_eq_true_2 by lia. by rewrite Nat2Z.id, Hnone.
Qed.


End LibraryStops.

Lemma atr_stop_is_not_above_entry_witness :
  strategy_library._atr_stop example_indicators (Z.of_nat 1)
    (Fin (Q2Qc 100)) 10 (Fin (Q2Qc 2))
  = Ok (fsub (Fin (Q2Qc 100)) (fmul (Fin (Q2Qc 1)) (Fin (Q2Qc 2)))).
Proof.
  destruct (atr_stop_is_not_above_entry example_indicators 1
              (Q2Qc 100) (Q2Qc 2) 10 ltac:(done) ltac:(done)) as [_ H].
  destruct (H [ofZ 1; ofZ 1; ofZ 1] eq_refl) as (_ & Hfin & _).
  by destruct (Hfin (Q2Qc 1) eq_refl ltac:(done)) as [Heq _].
Defined.

